(** * graph-analysis: the numeric core, the debug engine and the
      expression dependency sort, embedded and verified

    The development follows the TypeScript sources:
    - [src/lib/neural-network.ts]  (tensor helpers, [Layer], [Network])
    - [src/lib/activations.ts]     ([ReLU], [Sigmoid], [Tanh], [Linear], [Softmax])
    - losses ([MSE], [CrossEntropy])
    - [src/lib/optimizers.ts]      ([SGD], [Adam], [RMSprop])
    - [src/lib/debug-engine.ts]    ([DebugEngine])
    - [src/lib/graph-analysis.ts]  ([topologicalSort])
    - [src/lib/linear-regression.ts] ([normalEquation])

    Numbers.  A JavaScript number is modelled as an extended real: a finite
    value carries a real number and arithmetic on finite values is exact
    (no rounding, no overflow, one unsigned zero); the three non-finite
    values [Infinity], [-Infinity] and [NaN] follow the IEEE 754 rules the
    source's [isFinite] guards are written against.  Reading an absent array
    entry gives [undefined], which every arithmetic use turns into [NaN];
    the model reads [NaN] directly.  Where rounding decides which branch a
    guard takes ([normalEquation]), the function is repeated on the doubles
    themselves, module [Doubles]. *)

From Stdlib Require Import Reals Lra Lia Ascii.
From Stdlib Require Floats.
From stdpp Require Import gmap strings list pretty.

(** ** Exceptions and the result monad *)

Inductive exn :=
| TypeError
| Error (msg : string).

Inductive res (A : Type) :=
| Ok (a : A)
| Throw (e : exn).
Arguments Ok {A} a.
Arguments Throw {A} e.

#[global] Instance res_ret : MRet res := fun _ a => Ok a.
#[global] Instance res_bind : MBind res := fun _ _ f m =>
  match m with
  | Ok a => f a
  | Throw e => Throw e
  end.

(** [xs.map(f)] where [f] may throw: elements are processed left to right. *)
Fixpoint traverse {A B : Type} (f : A → res B) (xs : list A) : res (list B) :=
  match xs with
  | [] => Ok []
  | x :: xs =>
      match f x with
      | Ok y =>
          match traverse f xs with
          | Ok ys => Ok (y :: ys)
          | Throw e => Throw e
          end
      | Throw e => Throw e
      end
  end.

(** ** Numbers *)

Inductive number :=
| Fin (r : R)
| PosInf
| NegInf
| NaN.

Module Num.

Definition sign (r : R) : comparison :=
  match total_order_T r 0 with
  | inleft (left _) => Lt
  | inleft (right _) => Eq
  | inright _ => Gt
  end.

Definition isFinite (a : number) : bool :=
  match a with
  | Fin _ => true
  | _ => false
  end.

Definition neg (a : number) : number :=
  match a with
  | Fin x => Fin (- x)
  | PosInf => NegInf
  | NegInf => PosInf
  | NaN => NaN
  end.

Definition add (a b : number) : number :=
  match a, b with
  | Fin x, Fin y => Fin (x + y)
  | NaN, _ | _, NaN => NaN
  | PosInf, NegInf | NegInf, PosInf => NaN
  | PosInf, _ | _, PosInf => PosInf
  | NegInf, _ | _, NegInf => NegInf
  end.

Definition sub (a b : number) : number := add a (neg b).

(** An infinity scaled by a finite factor. *)
Definition scaleInf (s : number) (x : R) : number :=
  match sign x with
  | Gt => s
  | Lt => neg s
  | Eq => NaN
  end.

Definition mul (a b : number) : number :=
  match a, b with
  | Fin x, Fin y => Fin (x * y)
  | NaN, _ | _, NaN => NaN
  | Fin x, PosInf | PosInf, Fin x => scaleInf PosInf x
  | Fin x, NegInf | NegInf, Fin x => scaleInf NegInf x
  | PosInf, PosInf | NegInf, NegInf => PosInf
  | PosInf, NegInf | NegInf, PosInf => NegInf
  end.

Definition div (a b : number) : number :=
  match a, b with
  | Fin x, Fin y =>
      match sign y with
      | Eq => scaleInf PosInf x
      | _ => Fin (x / y)
      end
  | NaN, _ | _, NaN => NaN
  | Fin _, PosInf | Fin _, NegInf => Fin 0
  | PosInf, Fin y => match sign y with Lt => NegInf | _ => PosInf end
  | NegInf, Fin y => match sign y with Lt => PosInf | _ => NegInf end
  | _, _ => NaN
  end.

(** [a < b] and [a > b]: false as soon as one side is [NaN]. *)
Definition lt (a b : number) : bool :=
  match a, b with
  | Fin x, Fin y => bool_decide (sign (x - y) = Lt)
  | NaN, _ | _, NaN => false
  | PosInf, _ | _, NegInf => false
  | NegInf, _ | _, PosInf => true
  end.

Definition gt (a b : number) : bool := lt b a.

Definition max (a b : number) : number :=
  match a, b with
  | Fin x, Fin y => Fin (Rmax x y)
  | NaN, _ | _, NaN => NaN
  | PosInf, _ | _, PosInf => PosInf
  | NegInf, c | c, NegInf => c
  end.

Definition min (a b : number) : number :=
  match a, b with
  | Fin x, Fin y => Fin (Rmin x y)
  | NaN, _ | _, NaN => NaN
  | NegInf, _ | _, NegInf => NegInf
  | PosInf, c | c, PosInf => c
  end.

(** [Math.max(...xs)]: [-Infinity] for no argument. *)
Definition maxList (xs : list number) : number := foldl max NegInf xs.

Definition abs (a : number) : number :=
  match a with
  | Fin x => Fin (Rabs x)
  | NaN => NaN
  | _ => PosInf
  end.

Definition sqrt (a : number) : number :=
  match a with
  | Fin x => match sign x with Lt => NaN | _ => Fin (R_sqrt.sqrt x) end
  | PosInf => PosInf
  | _ => NaN
  end.

Definition exp (a : number) : number :=
  match a with
  | Fin x => Fin (Rtrigo_def.exp x)
  | PosInf => PosInf
  | NegInf => Fin 0
  | NaN => NaN
  end.

Definition log (a : number) : number :=
  match a with
  | Fin x =>
      match sign x with
      | Lt => NaN
      | Eq => NegInf
      | Gt => Fin (ln x)
      end
  | PosInf => PosInf
  | _ => NaN
  end.

Definition tanh (a : number) : number :=
  match a with
  | Fin x => Fin (Rtrigo_def.tanh x)
  | PosInf => Fin 1
  | NegInf => Fin (-1)
  | NaN => NaN
  end.

(** [Math.pow(a, n)] for a step count [n]: [1] at [n = 0] whatever [a] is. *)
Fixpoint pow (a : number) (n : nat) : number :=
  match n with
  | O => Fin 1
  | S m => mul a (pow a m)
  end.

Definition ofNat (n : nat) : number := Fin (INR n).

End Num.

Notation "a ⊕ b" := (Num.add a b) (at level 50, left associativity).
Notation "a ⊖ b" := (Num.sub a b) (at level 50, left associativity).
Notation "a ⊗ b" := (Num.mul a b) (at level 40, left associativity).
Notation "a ⊘ b" := (Num.div a b) (at level 40, left associativity).

(** ** Tensors ([src/lib/types.ts]) *)

Record Tensor := mkTensor {
  data : list (list number);
  rows : nat;
  cols : nat;
}.

(** [d[i][j]] read for arithmetic: an absent row makes the second index
    throw, an absent entry reads [undefined]. *)
Definition at2 (d : list (list number)) (i j : nat) : res number :=
  match d !! i with
  | None => Throw TypeError
  | Some row => Ok (default NaN (row !! j))
  end.

(** [vec[j]] read for arithmetic. *)
Definition at1 (v : list number) (j : nat) : number := default NaN (v !! j).

(** [a.data.map((row, i) => row.map((val, j) => f(val, b.data[i][j])))]:
    [b.data[i]] is only indexed when [row] has an entry. *)
Definition zipWithTensor (f : number → number → number)
    (a b : list (list number)) : res (list (list number)) :=
  traverse (fun '(i, row) =>
    match row with
    | [] => Ok []
    | _ =>
        match b !! i with
        | None => Throw TypeError
        | Some brow => Ok (imap (fun j val => f val (at1 brow j)) row)
        end
    end) (imap pair a).

Module NeuralNetwork.

(** The innermost loop of [matmul]: [sum += a.data[i][k] * b.data[k][j]]. *)
Fixpoint matmulSum (a b : Tensor) (i j : nat) (ks : list nat) (sum : number)
    : res number :=
  match ks with
  | [] => Ok sum
  | k :: ks =>
      x ← at2 (data a) i k;
      y ← at2 (data b) k j;
      matmulSum a b i j ks (sum ⊕ x ⊗ y)
  end.

Definition matmul (a b : Tensor) : res Tensor :=
  d ← traverse (fun i =>
         traverse (fun j => matmulSum a b i j (seq 0 (cols a)) (Fin 0))
                  (seq 0 (cols b)))
       (seq 0 (rows a));
  Ok {| data := d; rows := rows a; cols := cols b |}.

Definition transpose (t : Tensor) : res Tensor :=
  d ← traverse (fun j => traverse (fun i => at2 (data t) i j) (seq 0 (rows t)))
       (seq 0 (cols t));
  Ok {| data := d; rows := cols t; cols := rows t |}.

Definition add (a b : Tensor) : res Tensor :=
  d ← zipWithTensor Num.add (data a) (data b);
  Ok {| data := d; rows := rows a; cols := cols a |}.

Definition subtract (a b : Tensor) : res Tensor :=
  d ← zipWithTensor Num.sub (data a) (data b);
  Ok {| data := d; rows := rows a; cols := cols a |}.

Definition multiplyScalar (t : Tensor) (scalar : number) : Tensor :=
  {| data := map (map (fun val => val ⊗ scalar)) (data t);
     rows := rows t; cols := cols t |}.

Definition broadcastAdd (t : Tensor) (vec : list number) : Tensor :=
  {| data := map (imap (fun j val => val ⊕ at1 vec j)) (data t);
     rows := rows t; cols := cols t |}.

(** [colSum]: [sums[j]] accumulates [t.data[i][j]] for [i = 0 .. rows-1]. *)
Fixpoint colSumAcc (t : Tensor) (j : nat) (idx : list nat) (sum : number)
    : res number :=
  match idx with
  | [] => Ok sum
  | i :: idx => x ← at2 (data t) i j; colSumAcc t j idx (sum ⊕ x)
  end.

Definition colSum (t : Tensor) : res (list number) :=
  traverse (fun j => colSumAcc t j (seq 0 (rows t)) (Fin 0)) (seq 0 (cols t)).

Definition clip (clipValue val : number) : number :=
  Num.max (Num.neg clipValue) (Num.min clipValue val).

Definition clipTensor (t : Tensor) (clipValue : number) : Tensor :=
  {| data := map (map (clip clipValue)) (data t);
     rows := rows t; cols := cols t |}.

End NeuralNetwork.

(** ** Activation functions ([src/lib/activations.ts]) *)

Record ActivationFunction := mkActivation {
  forward : Tensor → res Tensor;
  backward : Tensor → Tensor → res Tensor;
}.

Module Activations.

Definition mapTensor (f : number → number) (input : Tensor) : Tensor :=
  {| data := map (map f) (data input); rows := rows input; cols := cols input |}.

(** [outputGrad.data.map((row, i) => row.map((val, j) => f(val, other.data[i][j])))] *)
Definition zipTensor (f : number → number → number) (outputGrad other : Tensor)
    : res Tensor :=
  d ← zipWithTensor f (data outputGrad) (data other);
  Ok {| data := d; rows := rows outputGrad; cols := cols outputGrad |}.

Definition ReLU : ActivationFunction :=
  {| forward input := Ok (mapTensor (fun val => Num.max (Fin 0) val) input);
     backward outputGrad input :=
       zipTensor (fun val x => if Num.gt x (Fin 0) then val else Fin 0)
                 outputGrad input |}.

Definition sigmoid (val : number) : number :=
  let clamped := Num.max (Fin (-500)) (Num.min (Fin 500) val) in
  Fin 1 ⊘ (Fin 1 ⊕ Num.exp (Num.neg clamped)).

Definition Sigmoid : ActivationFunction :=
  {| forward input := Ok (mapTensor sigmoid input);
     backward outputGrad input :=
       zipTensor (fun val sig => val ⊗ sig ⊗ (Fin 1 ⊖ sig))
                 outputGrad (mapTensor sigmoid input) |}.

Definition Tanh : ActivationFunction :=
  {| forward input := Ok (mapTensor Num.tanh input);
     backward outputGrad input :=
       zipTensor (fun val tanhVal => val ⊗ (Fin 1 ⊖ tanhVal ⊗ tanhVal))
                 outputGrad (mapTensor Num.tanh input) |}.

Definition Linear : ActivationFunction :=
  {| forward input := Ok input;
     backward outputGrad input := Ok outputGrad |}.

Definition softmaxRow (row : list number) : list number :=
  let maxVal := Num.maxList row in
  let expVals := map (fun val => Num.exp (val ⊖ maxVal)) row in
  let sum := foldl Num.add (Fin 0) expVals in
  map (fun val => val ⊘ sum) expVals.

Definition softmaxForward (input : Tensor) : Tensor :=
  {| data := map softmaxRow (data input);
     rows := rows input; cols := cols input |}.

Definition Softmax : ActivationFunction :=
  {| forward input := Ok (softmaxForward input);
     backward outputGrad input :=
       zipTensor (fun val soft => val ⊗ soft ⊗ (Fin 1 ⊖ soft))
                 outputGrad (softmaxForward input) |}.

Definition getActivation (type : string) : ActivationFunction :=
  if String.eqb type "relu" then ReLU
  else if String.eqb type "sigmoid" then Sigmoid
  else if String.eqb type "tanh" then Tanh
  else if String.eqb type "linear" then Linear
  else if String.eqb type "softmax" then Softmax
  else ReLU.

End Activations.

(** ** Loss functions *)

Record LossFunction := mkLoss {
  compute : Tensor → Tensor → res number;
  gradient : Tensor → Tensor → res Tensor;
}.

(** [for (i < rows) for (j < cols)]: the index pairs in visiting order. *)
Definition indices (rows cols : nat) : list (nat * nat) :=
  i ← seq 0 rows; (fun j => (i, j)) <$> seq 0 cols.

(** A loop body threading an accumulator, stopping at the first throw. *)
Fixpoint foldlM {A B : Type} (f : A → B → res A) (acc : A) (xs : list B)
    : res A :=
  match xs with
  | [] => Ok acc
  | x :: xs => acc' ← f acc x; foldlM f acc' xs
  end.

Module Losses.

Definition mseStep (predictions targets : Tensor) (acc : number * nat)
    (ij : nat * nat) : res (number * nat) :=
  pred ← at2 (data predictions) ij.1 ij.2;
  target ← at2 (data targets) ij.1 ij.2;
  if Num.isFinite pred && Num.isFinite target then
    let diff := pred ⊖ target in
    Ok (acc.1 ⊕ diff ⊗ diff, S acc.2)
  else Ok acc.

Definition mseCompute (predictions targets : Tensor) : res number :=
  '(sum, count) ← foldlM (mseStep predictions targets) (Fin 0, 0)
                    (indices (rows predictions) (cols predictions));
  Ok (if bool_decide (0 < count) then sum ⊘ Num.ofNat count else Fin 0).

Definition mseGradient (predictions targets : Tensor) : res Tensor :=
  let count := rows predictions * cols predictions in
  d ← zipWithTensor (fun val target =>
         let grad := Fin 2 ⊗ (val ⊖ target) ⊘ Num.ofNat count in
         if Num.isFinite grad then grad else Fin 0)
       (data predictions) (data targets);
  Ok {| data := d; rows := rows predictions; cols := cols predictions |}.

Definition MSE : LossFunction :=
  {| compute := mseCompute; gradient := mseGradient |}.

Definition epsilon : number := Fin (1 / 10 ^ 15).

Definition clampPred (val : number) : number :=
  Num.max epsilon (Num.min (Fin 1 ⊖ epsilon) val).

Definition crossEntropyStep (predictions targets : Tensor) (acc : number * nat)
    (ij : nat * nat) : res (number * nat) :=
  rawPred ← at2 (data predictions) ij.1 ij.2;
  if negb (Num.isFinite rawPred) then Ok acc
  else
    let pred := clampPred rawPred in
    target ← at2 (data targets) ij.1 ij.2;
    let loss := target ⊗ Num.log pred
                ⊕ (Fin 1 ⊖ target) ⊗ Num.log (Fin 1 ⊖ pred) in
    if Num.isFinite loss then Ok (acc.1 ⊕ loss, S acc.2) else Ok acc.

Definition crossEntropyCompute (predictions targets : Tensor) : res number :=
  '(sum, count) ← foldlM (crossEntropyStep predictions targets) (Fin 0, 0)
                    (indices (rows predictions) (cols predictions));
  Ok (if bool_decide (0 < count) then Num.neg sum ⊘ Num.ofNat count
      else Fin 0).

Definition crossEntropyGradient (predictions targets : Tensor) : res Tensor :=
  let count := rows predictions * cols predictions in
  d ← zipWithTensor (fun val target =>
         let pred := clampPred val in
         let grad := Num.neg (target ⊘ pred
                              ⊖ (Fin 1 ⊖ target) ⊘ (Fin 1 ⊖ pred))
                     ⊘ Num.ofNat count in
         if Num.isFinite grad
         then Num.max (Fin (-10)) (Num.min (Fin 10) grad)
         else Fin 0)
       (data predictions) (data targets);
  Ok {| data := d; rows := rows predictions; cols := cols predictions |}.

Definition CrossEntropy : LossFunction :=
  {| compute := crossEntropyCompute; gradient := crossEntropyGradient |}.

Definition getLoss (type : string) : LossFunction :=
  if String.eqb type "mse" then MSE
  else if String.eqb type "crossentropy" then CrossEntropy
  else MSE.

End Losses.

(** ** Methods of mutable objects: state passing with exceptions

    A method of an object with fields of type [S] is a function from the
    fields before the call to its outcome and the fields after it; what was
    assigned before a [throw] stays assigned. *)

Definition Method (S A : Type) : Type := S → res A * S.

#[global] Instance method_ret {S} : MRet (Method S) := fun _ a s => (Ok a, s).
#[global] Instance method_bind {S} : MBind (Method S) := fun _ _ f m s =>
  match m s with
  | (Ok a, s') => f a s'
  | (Throw e, s') => (Throw e, s')
  end.

Definition this {S} : Method S S := fun s => (Ok s, s).
Definition assign {S} (f : S → S) : Method S () := fun s => (Ok (), f s).
Definition throw {S A} (e : exn) : Method S A := fun s => (Throw e, s).
Definition try {S A} (r : res A) : Method S A := fun s => (r, s).

(** A loop [for (x of xs) body(x)] inside a method. *)
Fixpoint forEach {S A : Type} (body : A → Method S ()) (xs : list A)
    : Method S () :=
  match xs with
  | [] => mret ()
  | x :: xs => _ ← body x; forEach body xs
  end.

(** ** Optimizers ([src/lib/optimizers.ts]) *)

Module Optimizers.

Definition multiplyScalar := NeuralNetwork.multiplyScalar.
Definition subtract := NeuralNetwork.subtract.
Definition add := NeuralNetwork.add.

Definition elementwiseMultiply (a b : Tensor) : res Tensor :=
  d ← zipWithTensor Num.mul (data a) (data b);
  Ok {| data := d; rows := rows a; cols := cols a |}.

Definition elementwiseDivide (a b : Tensor) (epsilon : number) : res Tensor :=
  d ← zipWithTensor (fun val x => val ⊘ (x ⊕ epsilon)) (data a) (data b);
  Ok {| data := d; rows := rows a; cols := cols a |}.

Definition sqrt (t : Tensor) : Tensor :=
  {| data := map (map Num.sqrt) (data t); rows := rows t; cols := cols t |}.

(** [gradients.data.map(row => row.map(() => 0))] with the gradient's shape. *)
Definition zerosLike (gradients : Tensor) : Tensor :=
  {| data := map (map (fun _ => Fin 0)) (data gradients);
     rows := rows gradients; cols := cols gradients |}.

(** The template string [`${rows}x${cols}`]. *)
Definition getKey (weights : Tensor) : string :=
  pretty (rows weights) +:+ "x" +:+ pretty (cols weights).

Definition getBiasKey (bias : list number) : string := pretty (length bias).

(** *** SGD *)

Definition sgdUpdate (weights gradients : Tensor) (learningRate : number)
    : res Tensor :=
  subtract weights (multiplyScalar gradients learningRate).

Definition sgdUpdateBias (bias gradients : list number) (learningRate : number)
    : list number :=
  imap (fun i b => b ⊖ learningRate ⊗ at1 gradients i) bias.

(** *** Adam *)

Record Adam := mkAdam {
  m : gmap string Tensor;
  v : gmap string Tensor;
  t : nat;
  biasM : gmap string (list number);
  biasV : gmap string (list number);
}.

Definition beta1 : number := Fin (9 / 10).
Definition beta2 : number := Fin (999 / 1000).
Definition epsilon : number := Fin (1 / 10 ^ 8).

Definition newAdam : Adam :=
  {| m := ∅; v := ∅; t := 0; biasM := ∅; biasV := ∅ |}.

(** A value read with the non-null assertion [map.get(key)!] and used as an
    object: the use throws when the key was absent. *)
Definition getBang {S A} (entry : option A) : Method S A :=
  match entry with
  | Some x => mret x
  | None => throw TypeError
  end.

Definition adamUpdate (weights gradients : Tensor) (learningRate : number)
    : Method Adam Tensor :=
  let key := getKey weights in
  _ ← assign (fun s => {| m := m s; v := v s; t := t s + 1;
                          biasM := biasM s; biasV := biasV s |});
  s ← this;
  _ ← (if bool_decide (m s !! key = None) then
         assign (fun s => {| m := <[key := zerosLike gradients]> (m s);
                             v := <[key := zerosLike gradients]> (v s);
                             t := t s; biasM := biasM s; biasV := biasV s |})
       else mret ());
  s ← this;
  let mStored := m s !! key in
  let vStored := v s !! key in
  m0 ← getBang mStored;
  mNew ← try (add (multiplyScalar m0 beta1)
                  (multiplyScalar gradients (Fin 1 ⊖ beta1)));
  _ ← assign (fun s => {| m := <[key := mNew]> (m s); v := v s; t := t s;
                          biasM := biasM s; biasV := biasV s |});
  gradientsSquared ← try (elementwiseMultiply gradients gradients);
  v0 ← getBang vStored;
  vNew ← try (add (multiplyScalar v0 beta2)
                  (multiplyScalar gradientsSquared (Fin 1 ⊖ beta2)));
  _ ← assign (fun s => {| m := m s; v := <[key := vNew]> (v s); t := t s;
                          biasM := biasM s; biasV := biasV s |});
  s ← this;
  let mHat := multiplyScalar mNew (Fin 1 ⊘ (Fin 1 ⊖ Num.pow beta1 (t s))) in
  let vHat := multiplyScalar vNew (Fin 1 ⊘ (Fin 1 ⊖ Num.pow beta2 (t s))) in
  let vHatSqrt := sqrt vHat in
  update ← try (elementwiseDivide (multiplyScalar mHat learningRate)
                                  vHatSqrt epsilon);
  try (subtract weights update).

Definition adamUpdateBias (bias gradients : list number) (learningRate : number)
    : Method Adam (list number) :=
  let key := getBiasKey bias in
  _ ← assign (fun s => {| m := m s; v := v s; t := t s + 1;
                          biasM := biasM s; biasV := biasV s |});
  s ← this;
  _ ← (if bool_decide (biasM s !! key = None) then
         assign (fun s => {| m := m s; v := v s; t := t s;
                             biasM := <[key := replicate (length bias) (Fin 0)]>
                                        (biasM s);
                             biasV := <[key := replicate (length bias) (Fin 0)]>
                                        (biasV s) |})
       else mret ());
  s ← this;
  let mStored := biasM s !! key in
  let vStored := biasV s !! key in
  m0 ← getBang mStored;
  let mNew := imap (fun i mi => beta1 ⊗ mi
                                ⊕ (Fin 1 ⊖ beta1) ⊗ at1 gradients i) m0 in
  _ ← assign (fun s => {| m := m s; v := v s; t := t s;
                          biasM := <[key := mNew]> (biasM s);
                          biasV := biasV s |});
  v0 ← getBang vStored;
  let vNew := imap (fun i vi => beta2 ⊗ vi
                                ⊕ (Fin 1 ⊖ beta2) ⊗ at1 gradients i
                                   ⊗ at1 gradients i) v0 in
  _ ← assign (fun s => {| m := m s; v := v s; t := t s;
                          biasM := biasM s;
                          biasV := <[key := vNew]> (biasV s) |});
  s ← this;
  let mHat := map (fun mi => mi ⊘ (Fin 1 ⊖ Num.pow beta1 (t s))) mNew in
  let vHat := map (fun vi => vi ⊘ (Fin 1 ⊖ Num.pow beta2 (t s))) vNew in
  mret (imap (fun i b =>
          let vHatSqrt := Num.sqrt (at1 vHat i) in
          b ⊖ learningRate ⊗ at1 mHat i ⊘ (vHatSqrt ⊕ epsilon)) bias).

Definition adamReset : Method Adam () :=
  assign (fun _ => newAdam).

(** *** RMSprop *)

Record RMSprop := mkRMSprop {
  rmsV : gmap string Tensor;
  rmsBiasV : gmap string (list number);
}.

Definition beta : number := Fin (9 / 10).

Definition newRMSprop : RMSprop := {| rmsV := ∅; rmsBiasV := ∅ |}.

Definition rmspropUpdate (weights gradients : Tensor) (learningRate : number)
    : Method RMSprop Tensor :=
  let key := getKey weights in
  s ← this;
  _ ← (if bool_decide (rmsV s !! key = None) then
         assign (fun s => {| rmsV := <[key := zerosLike gradients]> (rmsV s);
                             rmsBiasV := rmsBiasV s |})
       else mret ());
  s ← this;
  v0 ← getBang (rmsV s !! key);
  gradientsSquared ← try (elementwiseMultiply gradients gradients);
  vNew ← try (add (multiplyScalar v0 beta)
                  (multiplyScalar gradientsSquared (Fin 1 ⊖ beta)));
  _ ← assign (fun s => {| rmsV := <[key := vNew]> (rmsV s);
                          rmsBiasV := rmsBiasV s |});
  let vSqrt := sqrt vNew in
  update ← try (elementwiseDivide (multiplyScalar gradients learningRate)
                                  vSqrt epsilon);
  try (subtract weights update).

Definition rmspropUpdateBias (bias gradients : list number)
    (learningRate : number) : Method RMSprop (list number) :=
  let key := getBiasKey bias in
  s ← this;
  _ ← (if bool_decide (rmsBiasV s !! key = None) then
         assign (fun s => {| rmsV := rmsV s;
                             rmsBiasV := <[key := replicate (length bias) (Fin 0)]>
                                           (rmsBiasV s) |})
       else mret ());
  s ← this;
  v0 ← getBang (rmsBiasV s !! key);
  let vNew := imap (fun i vi => beta ⊗ vi
                                ⊕ (Fin 1 ⊖ beta) ⊗ at1 gradients i
                                   ⊗ at1 gradients i) v0 in
  _ ← assign (fun s => {| rmsV := rmsV s;
                          rmsBiasV := <[key := vNew]> (rmsBiasV s) |});
  mret (imap (fun i b =>
          let vSqrt := Num.sqrt (at1 vNew i) in
          b ⊖ learningRate ⊗ at1 gradients i ⊘ (vSqrt ⊕ epsilon)) bias).

(** *** The [Optimizer] interface: one of the three classes with its state *)

Inductive Optimizer :=
| OptSGD
| OptAdam (s : Adam)
| OptRMSprop (s : RMSprop).

(** Runs a method of the wrapped object. *)
Definition inAdam {A} (f : Method Adam A) (s : Adam) : res A * Optimizer :=
  let '(r, s') := f s in (r, OptAdam s').
Definition inRMSprop {A} (f : Method RMSprop A) (s : RMSprop)
    : res A * Optimizer :=
  let '(r, s') := f s in (r, OptRMSprop s').

Definition update (weights gradients : Tensor) (learningRate : number)
    : Method Optimizer Tensor := fun o =>
  match o with
  | OptSGD => (sgdUpdate weights gradients learningRate, OptSGD)
  | OptAdam s => inAdam (adamUpdate weights gradients learningRate) s
  | OptRMSprop s => inRMSprop (rmspropUpdate weights gradients learningRate) s
  end.

Definition updateBias (bias gradients : list number) (learningRate : number)
    : Method Optimizer (list number) := fun o =>
  match o with
  | OptSGD => (Ok (sgdUpdateBias bias gradients learningRate), OptSGD)
  | OptAdam s => inAdam (adamUpdateBias bias gradients learningRate) s
  | OptRMSprop s =>
      inRMSprop (rmspropUpdateBias bias gradients learningRate) s
  end.

Definition reset : Method Optimizer () := fun o =>
  match o with
  | OptSGD => (Ok (), OptSGD)
  | OptAdam _ => (Ok (), OptAdam newAdam)
  | OptRMSprop _ => (Ok (), OptRMSprop newRMSprop)
  end.

Definition lf : string := String "010"%char "".  (* the line feed *)

Definition getName (o : Optimizer) : string :=
  match o with
  | OptSGD => "SGD (Stochastic Gradient Descent)"
  | OptAdam _ => "Adam (Adaptive Moment Estimation)"
  | OptRMSprop _ => "RMSprop (Root Mean Square Propagation)"
  end.

Definition getFormula (o : Optimizer) : string :=
  match o with
  | OptSGD => "w = w - lr × ∇w" +:+ lf +:+ "b = b - lr × ∇b"
  | OptAdam _ =>
      "m = β₁×m + (1-β₁)×∇w" +:+ lf +:+ "v = β₂×v + (1-β₂)×∇w²" +:+ lf
      +:+ "m̂ = m / (1-β₁ᵗ)" +:+ lf +:+ "v̂ = v / (1-β₂ᵗ)" +:+ lf
      +:+ "w = w - lr × m̂ / (√v̂ + ε)"
  | OptRMSprop _ =>
      "v = β×v + (1-β)×∇w²" +:+ lf +:+ "w = w - lr × ∇w / (√v + ε)"
  end.

Definition getOptimizer (type : string) : Optimizer :=
  if String.eqb type "sgd" then OptSGD
  else if String.eqb type "adam" then OptAdam newAdam
  else if String.eqb type "rmsprop" then OptRMSprop newRMSprop
  else OptSGD.

End Optimizers.

(** ** Layer and Network ([src/lib/neural-network.ts]) *)

Record Layer := mkLayer {
  weights : Tensor;
  bias : list number;
  activation : ActivationFunction;
  (** Modelled from the spec: the field [activationType] the debug engine
      reads for display is declared on a [Layer] that is not in the sources
      at hand; it holds the activation's name. *)
  activationType : string;
  inputSize : nat;
  outputSize : nat;
  lastInput : option Tensor;
  preActivationOutput : option Tensor;
  weightGrad : option Tensor;
  biasGrad : option (list number);
}.

Module LayerM.

Definition setWeights (w : Tensor) (l : Layer) : Layer :=
  mkLayer w (bias l) (activation l) (activationType l) (inputSize l)
    (outputSize l) (lastInput l) (preActivationOutput l) (weightGrad l)
    (biasGrad l).
Definition setBias (b : list number) (l : Layer) : Layer :=
  mkLayer (weights l) b (activation l) (activationType l) (inputSize l)
    (outputSize l) (lastInput l) (preActivationOutput l) (weightGrad l)
    (biasGrad l).
Definition setLastInput (x : option Tensor) (l : Layer) : Layer :=
  mkLayer (weights l) (bias l) (activation l) (activationType l) (inputSize l)
    (outputSize l) x (preActivationOutput l) (weightGrad l) (biasGrad l).
Definition setPreActivationOutput (x : option Tensor) (l : Layer) : Layer :=
  mkLayer (weights l) (bias l) (activation l) (activationType l) (inputSize l)
    (outputSize l) (lastInput l) x (weightGrad l) (biasGrad l).
Definition setWeightGrad (x : option Tensor) (l : Layer) : Layer :=
  mkLayer (weights l) (bias l) (activation l) (activationType l) (inputSize l)
    (outputSize l) (lastInput l) (preActivationOutput l) x (biasGrad l).
Definition setBiasGrad (x : option (list number)) (l : Layer) : Layer :=
  mkLayer (weights l) (bias l) (activation l) (activationType l) (inputSize l)
    (outputSize l) (lastInput l) (preActivationOutput l) (weightGrad l) x.

Definition forward (input : Tensor) : Method Layer Tensor :=
  _ ← assign (setLastInput (Some input));
  l ← this;
  weightsT ← try (NeuralNetwork.transpose (weights l));
  output ← try (NeuralNetwork.matmul input weightsT);
  let output := NeuralNetwork.broadcastAdd output (bias l) in
  _ ← assign (setPreActivationOutput (Some output));
  try (forward (activation l) output).

(** [forward(undefined)], as the debug engine can call it: the input is
    stored, the weights are transposed, and [matmul] throws on [a.rows]. *)
Definition forwardUndefined : Method Layer Tensor :=
  _ ← assign (setLastInput None);
  l ← this;
  _ ← try (NeuralNetwork.transpose (weights l));
  throw TypeError.

Definition backward (outputGrad : Tensor) : Method Layer Tensor :=
  l ← this;
  match lastInput l, preActivationOutput l with
  | Some lastIn, Some preAct =>
      activationGrad ← try (backward (activation l) outputGrad preAct);
      activationGradT ← try (NeuralNetwork.transpose activationGrad);
      wGrad ← try (NeuralNetwork.matmul activationGradT lastIn);
      bGrad ← try (NeuralNetwork.colSum activationGrad);
      _ ← assign (setWeightGrad (Some wGrad));
      _ ← assign (setBiasGrad (Some bGrad));
      try (NeuralNetwork.matmul activationGrad (weights l))
  | _, _ => throw (Error "Forward pass must be called before backward")
  end.

Definition clipValue : number := Fin 5.

Definition updateWeights (learningRate : number) : Method Layer () :=
  l ← this;
  match weightGrad l, biasGrad l with
  | Some wGrad, Some bGrad =>
      let clippedWeightGrad := NeuralNetwork.clipTensor wGrad clipValue in
      let clippedBiasGrad := map (NeuralNetwork.clip clipValue) bGrad in
      let weightUpdate :=
        NeuralNetwork.multiplyScalar clippedWeightGrad learningRate in
      w ← try (NeuralNetwork.subtract (weights l) weightUpdate);
      _ ← assign (setWeights w);
      _ ← assign (fun l => setBias (imap (fun i b =>
             let newVal := b ⊖ learningRate ⊗ at1 clippedBiasGrad i in
             if Num.isFinite newVal then newVal else b) (bias l)) l);
      assign (fun l => setWeights
        {| data := map (map (fun val => if Num.isFinite val then val
                                        else Fin 0)) (data (weights l));
           rows := rows (weights l); cols := cols (weights l) |} l)
  | _, _ => mret ()
  end.

End LayerM.

Record Network := mkNetwork {
  layers : list Layer;
  lossFunction : LossFunction;
}.

Record Gradients := mkGradients {
  weightGrads : list Tensor;
  biasGrads : list (list number);
}.

Module NetworkM.

(** [this.layers[i].method(...)]: throws when there is no layer [i]. *)
Definition atLayer {A} (i : nat) (method : Method Layer A)
    : Method Network A := fun n =>
  match layers n !! i with
  | None => (Throw TypeError, n)
  | Some l =>
      let '(r, l') := method l in
      (r, {| layers := <[i := l']> (layers n);
             lossFunction := lossFunction n |})
  end.

Fixpoint forwardFrom (idx : list nat) (output : Tensor)
    : Method Network Tensor :=
  match idx with
  | [] => mret output
  | i :: idx =>
      output ← atLayer i (LayerM.forward output);
      forwardFrom idx output
  end.

Definition forward (input : Tensor) : Method Network Tensor :=
  n ← this;
  forwardFrom (seq 0 (length (layers n))) input.

Fixpoint backwardFrom (idx : list nat) (currentGrad : Tensor)
    : Method Network Tensor :=
  match idx with
  | [] => mret currentGrad
  | i :: idx =>
      currentGrad ← atLayer i (LayerM.backward currentGrad);
      backwardFrom idx currentGrad
  end.

Definition backward (grad : Tensor) : Method Network () :=
  n ← this;
  _ ← backwardFrom (reverse (seq 0 (length (layers n)))) grad;
  mret ().

Definition updateAll (learningRate : number) : Method Network () :=
  n ← this;
  forEach (fun i => atLayer i (LayerM.updateWeights learningRate))
          (seq 0 (length (layers n))).

Fixpoint trainEpochs (x y : Tensor) (epochs : nat) (learningRate : number)
    (lossHistory : list number) : Method Network (list number) :=
  match epochs with
  | O => mret lossHistory
  | S epochs =>
      predictions ← forward x;
      n ← this;
      loss ← try (compute (lossFunction n) predictions y);
      grad ← try (gradient (lossFunction n) predictions y);
      _ ← backward grad;
      _ ← updateAll learningRate;
      trainEpochs x y epochs learningRate (lossHistory ++ [loss])
  end.

Definition train (x y : Tensor) (epochs : nat) (learningRate : number)
    : Method Network (list number) :=
  trainEpochs x y epochs learningRate [].

Definition predict1D (x : number) : Method Network number :=
  output ← forward {| data := [[x]]; rows := 1; cols := 1 |};
  try (at2 (data output) 0 0).

(** Modelled from the spec: [forwardLayer] is a method of a [Network] that
    is not in the sources at hand; "stepForwardLayer(i) runs layer i's
    forward" on the given input.  The debug engine may pass [undefined]. *)
Definition forwardLayer (layerIndex : nat) (input : option Tensor)
    : Method Network Tensor :=
  match input with
  | Some input => atLayer layerIndex (LayerM.forward input)
  | None => atLayer layerIndex LayerM.forwardUndefined
  end.

(** Modelled from the spec: [getState] is not in the sources at hand; a
    snapshot holds "all layer weights/biases at that point". *)
Definition getState (n : Network) : list Tensor * list (list number) :=
  (weights <$> layers n, bias <$> layers n).

(** Modelled from the spec: [getGradients] is not in the sources at hand;
    it gives the cached gradients of the layers when every layer has
    them, and nothing otherwise. *)
Definition getGradients (n : Network) : option Gradients :=
  ws ← mapM weightGrad (layers n);
  bs ← mapM biasGrad (layers n);
  Some {| weightGrads := ws; biasGrads := bs |}.

End NetworkM.

(** ** The debug engine ([src/lib/debug-engine.ts]) *)

Inductive Value :=
| VTensor (t : Tensor)
| VParsed (data : list (list (option number))) (rows cols : nat)
| VVector (v : list number)
| VNumber (x : number)
| VUndefined.

(** [JSON.parse(JSON.stringify(t))]: a copy of the tensor in which JSON has
    written every [NaN] and [Infinity] as [null]. *)
Definition jsonCopy (t : Tensor) : Value :=
  VParsed (map (map (fun x => if Num.isFinite x then Some x else None))
               (data t))
          (rows t) (cols t).

Definition ofTensor (t : option Tensor) : Value :=
  match t with
  | Some t => VTensor t
  | None => VUndefined
  end.

Record ComputationDetail := mkComputation {
  formula : string;
  description : string;
  inputs : list (string * Value);
  output : Value;
  operation : string;
  detailLayerIndex : option nat;
}.

(** The array of forward activations is shared between the engine and the
    snapshots that captured it: arrays live in a store and are named by
    their address. *)
Definition ref := nat.
Definition Array := list (option Tensor).

Record NetworkState := mkNetworkState {
  stateWeights : list Tensor;
  stateBiases : list (list number);
  stateActivations : option ref;
  stateGradients : option Gradients;
}.

Inductive StepType := Forward | Backward | Update | Loss.

Record StepSnapshot := mkSnapshot {
  stepType : StepType;
  layerIndex : option nat;
  networkState : NetworkState;
  computation : ComputationDetail;
  timestamp : nat;
  stepNumber : Z;
}.

Record DebugEngine := mkEngine {
  network : Network;
  optimizer : Optimizers.Optimizer;
  stepHistory : list StepSnapshot;
  currentStepIndex : Z;
  currentInput : option Tensor;
  currentTarget : option Tensor;
  forwardActivations : ref;
  currentLoss : option number;
  lossGradient : option Tensor;
  currentOptimizerType : option string;
  (** the arrays allocated so far *)
  store : list Array;
}.

Module Engine.

Definition setNetwork (x : Network) (e : DebugEngine) : DebugEngine :=
  mkEngine x (optimizer e) (stepHistory e) (currentStepIndex e)
    (currentInput e) (currentTarget e) (forwardActivations e) (currentLoss e)
    (lossGradient e) (currentOptimizerType e) (store e).
Definition setOptimizer (x : Optimizers.Optimizer) (e : DebugEngine)
    : DebugEngine :=
  mkEngine (network e) x (stepHistory e) (currentStepIndex e)
    (currentInput e) (currentTarget e) (forwardActivations e) (currentLoss e)
    (lossGradient e) (currentOptimizerType e) (store e).
Definition setStepHistory (x : list StepSnapshot) (e : DebugEngine)
    : DebugEngine :=
  mkEngine (network e) (optimizer e) x (currentStepIndex e)
    (currentInput e) (currentTarget e) (forwardActivations e) (currentLoss e)
    (lossGradient e) (currentOptimizerType e) (store e).
Definition setCurrentStepIndex (x : Z) (e : DebugEngine) : DebugEngine :=
  mkEngine (network e) (optimizer e) (stepHistory e) x
    (currentInput e) (currentTarget e) (forwardActivations e) (currentLoss e)
    (lossGradient e) (currentOptimizerType e) (store e).
Definition setCurrentInput (x : option Tensor) (e : DebugEngine)
    : DebugEngine :=
  mkEngine (network e) (optimizer e) (stepHistory e) (currentStepIndex e)
    x (currentTarget e) (forwardActivations e) (currentLoss e)
    (lossGradient e) (currentOptimizerType e) (store e).
Definition setCurrentTarget (x : option Tensor) (e : DebugEngine)
    : DebugEngine :=
  mkEngine (network e) (optimizer e) (stepHistory e) (currentStepIndex e)
    (currentInput e) x (forwardActivations e) (currentLoss e)
    (lossGradient e) (currentOptimizerType e) (store e).
Definition setForwardActivations (x : ref) (e : DebugEngine) : DebugEngine :=
  mkEngine (network e) (optimizer e) (stepHistory e) (currentStepIndex e)
    (currentInput e) (currentTarget e) x (currentLoss e)
    (lossGradient e) (currentOptimizerType e) (store e).
Definition setCurrentLoss (x : option number) (e : DebugEngine)
    : DebugEngine :=
  mkEngine (network e) (optimizer e) (stepHistory e) (currentStepIndex e)
    (currentInput e) (currentTarget e) (forwardActivations e) x
    (lossGradient e) (currentOptimizerType e) (store e).
Definition setLossGradient (x : option Tensor) (e : DebugEngine)
    : DebugEngine :=
  mkEngine (network e) (optimizer e) (stepHistory e) (currentStepIndex e)
    (currentInput e) (currentTarget e) (forwardActivations e) (currentLoss e)
    x (currentOptimizerType e) (store e).
Definition setCurrentOptimizerType (x : option string) (e : DebugEngine)
    : DebugEngine :=
  mkEngine (network e) (optimizer e) (stepHistory e) (currentStepIndex e)
    (currentInput e) (currentTarget e) (forwardActivations e) (currentLoss e)
    (lossGradient e) x (store e).
Definition setStore (x : list Array) (e : DebugEngine) : DebugEngine :=
  mkEngine (network e) (optimizer e) (stepHistory e) (currentStepIndex e)
    (currentInput e) (currentTarget e) (forwardActivations e) (currentLoss e)
    (lossGradient e) (currentOptimizerType e) x.

(** Runs a method of [this.network] / of [this.optimizer]. *)
Definition inNetwork {A} (method : Method Network A) : Method DebugEngine A :=
  fun e => let '(r, n) := method (network e) in (r, setNetwork n e).
Definition inOptimizer {A} (method : Method Optimizers.Optimizer A)
    : Method DebugEngine A :=
  fun e => let '(r, o) := method (optimizer e) in (r, setOptimizer o e).

(** *** JavaScript arrays *)

(** [arr[i] = x]: the array grows, leaving holes, when [i] is past its end. *)
Definition arraySet {A} (i : nat) (x : A) (arr : list (option A))
    : list (option A) :=
  if bool_decide (i < length arr) then <[i := Some x]> arr
  else arr ++ replicate (i - length arr) None ++ [Some x].

(** [arr[i]] for an integer [i]: [undefined] for a hole, past the end and
    for a negative index. *)
Definition arrayGet {A} (arr : list (option A)) (i : Z) : option A :=
  if bool_decide (0 ≤ i)%Z then mjoin (arr !! Z.to_nat i) else None.

(** [arr.slice(0, end)]: a negative [end] counts from the end of the array. *)
Definition slice0 {A} (arr : list A) (stop : Z) : list A :=
  if bool_decide (stop < 0)%Z
  then take (Z.to_nat (Z.max (Z.of_nat (length arr) + stop) 0)) arr
  else take (Z.to_nat stop) arr.

(** [this.forwardActivations], the array the engine currently points to. *)
Definition activations (e : DebugEngine) : Array :=
  default [] (store e !! forwardActivations e).

(** [this.forwardActivations = []] *)
Definition newActivations : Method DebugEngine () :=
  assign (fun e =>
    setForwardActivations (length (store e)) (setStore (store e ++ [[]]) e)).

(** [this.forwardActivations[i] = x] *)
Definition setActivation (i : nat) (x : Tensor) : Method DebugEngine () :=
  assign (fun e =>
    setStore (<[forwardActivations e := arraySet i x (activations e)]>
                (store e)) e).

(** *** Methods *)

Definition updateConfig (configOptimizer : string) : Method DebugEngine () :=
  e ← this;
  if bool_decide (currentOptimizerType e = Some configOptimizer) then mret ()
  else
    _ ← assign (setCurrentOptimizerType (Some configOptimizer));
    _ ← assign (setOptimizer (Optimizers.getOptimizer configOptimizer));
    inOptimizer Optimizers.reset.

Definition setData (input target : Tensor) : Method DebugEngine () :=
  _ ← assign (setCurrentInput (Some input));
  _ ← assign (setCurrentTarget (Some target));
  _ ← newActivations;
  _ ← assign (setCurrentLoss None);
  _ ← assign (setLossGradient None);
  _ ← assign (setStepHistory []);
  assign (setCurrentStepIndex (-1)).

Definition getCurrentState (e : DebugEngine) : NetworkState :=
  let state := NetworkM.getState (network e) in
  let gradients := NetworkM.getGradients (network e) in
  {| stateWeights := state.1;
     stateBiases := state.2;
     stateActivations :=
       if bool_decide (0 < length (activations e))
       then Some (forwardActivations e) else None;
     stateGradients := gradients |}.

Definition getStepHistory (e : DebugEngine) : list StepSnapshot :=
  slice0 (stepHistory e) (currentStepIndex e + 1).

(** The common tail of every step, [this.currentStepIndex++;
    this.stepHistory = this.stepHistory.slice(0, this.currentStepIndex);
    this.stepHistory.push(snapshot); return snapshot]: each step method
    below is the part that builds its snapshot followed by [record]. *)
Definition record (snapshot : StepSnapshot) : Method DebugEngine StepSnapshot :=
  _ ← assign (fun e => setCurrentStepIndex (currentStepIndex e + 1) e);
  _ ← assign (fun e =>
        setStepHistory (slice0 (stepHistory e) (currentStepIndex e)) e);
  _ ← assign (fun e => setStepHistory (stepHistory e ++ [snapshot]) e);
  mret snapshot.

Definition getActivationName (type : string) : string :=
  if String.eqb type "relu" then "ReLU"
  else if String.eqb type "sigmoid" then "σ"
  else if String.eqb type "tanh" then "tanh"
  else if String.eqb type "linear" then "linear"
  else if String.eqb type "softmax" then "softmax"
  else type.

Definition getLossName : string := "Loss".

Definition nl : string := String "010"%char "".  (* the line feed *)

(** [this.network.layers[layerIndex]], and a field read on it. *)
Definition layerAt (e : DebugEngine) (layerIndex : nat) : option Layer :=
  layers (network e) !! layerIndex.

Definition field {A} (layer : option Layer) (f : Layer → A)
    : Method DebugEngine A :=
  match layer with
  | Some l => mret (f l)
  | None => throw TypeError
  end.

(** The input of layer [layerIndex]: the raw input or the activation of the
    layer before. *)
Definition layerInput (e : DebugEngine) (layerIndex : nat) : option Tensor :=
  if bool_decide (layerIndex = 0) then currentInput e
  else arrayGet (activations e) (Z.of_nat layerIndex - 1).

Definition requireInput : Method DebugEngine Tensor :=
  e ← this;
  match currentInput e with
  | Some input => mret input
  | None => throw (Error "No input data set")
  end.

Definition stepForwardPreActivation (layerIndex : nat)
    : Method DebugEngine ComputationDetail :=
  _ ← requireInput;
  e ← this;
  let layer := layerAt e layerIndex in
  let input := layerInput e layerIndex in
  w ← field layer weights;
  weightsT ← try (NeuralNetwork.transpose w);
  z ← (match input with
       | Some input => try (NeuralNetwork.matmul input weightsT)
       | None => throw TypeError
       end);
  b ← field layer bias;
  let zWithBias := NeuralNetwork.broadcastAdd z b in
  let i := pretty layerIndex in
  mret {| formula := "z" +:+ i +:+ " = X" +:+ i +:+ " × W" +:+ i
                     +:+ "^T + b" +:+ i;
          description := "Forward pass - Layer " +:+ i
                         +:+ ": Pre-activation computation";
          inputs := [("X" +:+ i, ofTensor input); ("W" +:+ i, VTensor w);
                     ("b" +:+ i, VVector b)];
          output := VTensor zWithBias;
          operation := "linear";
          detailLayerIndex := Some layerIndex |}.

Definition stepForwardActivation (layerIndex : nat)
    : Method DebugEngine ComputationDetail :=
  _ ← requireInput;
  e ← this;
  let input := layerInput e layerIndex in
  activated ← inNetwork (NetworkM.forwardLayer layerIndex input);
  e ← this;
  _ ← (if arrayGet (activations e) (Z.of_nat layerIndex) is Some _
       then mret () else setActivation layerIndex activated);
  e ← this;
  let layer := layerAt e layerIndex in
  type ← field layer activationType;
  let activationName := getActivationName type in
  preAct ← field layer preActivationOutput;
  let i := pretty layerIndex in
  mret {| formula := "a" +:+ i +:+ " = " +:+ activationName
                     +:+ "(z" +:+ i +:+ ")";
          description := "Forward pass - Layer " +:+ i +:+ ": Apply "
                         +:+ activationName +:+ " activation";
          inputs := [("z" +:+ i, ofTensor preAct)];
          output := VTensor activated;
          operation := "activation_" +:+ type;
          detailLayerIndex := Some layerIndex |}.

(** [now] is what [Date.now()] returns during the call. *)
Definition forwardLayerSnapshot (now : nat) (layerIndex : nat)
    : Method DebugEngine StepSnapshot :=
  _ ← requireInput;
  e ← this;
  let input := layerInput e layerIndex in
  output ← inNetwork (NetworkM.forwardLayer layerIndex input);
  _ ← setActivation layerIndex output;
  e ← this;
  let layer := layerAt e layerIndex in
  type ← field layer activationType;
  let activationName := getActivationName type in
  w ← field layer weights;
  b ← field layer bias;
  let i := pretty layerIndex in
  let computation :=
    {| formula := "z" +:+ i +:+ " = X" +:+ i +:+ " × W" +:+ i +:+ "^T + b"
                  +:+ i +:+ nl +:+ "a" +:+ i +:+ " = " +:+ activationName
                  +:+ "(z" +:+ i +:+ ")";
       description := "Forward pass through Layer " +:+ i;
       inputs := [("Input", ofTensor input); ("Weights", VTensor w);
                  ("Bias", VVector b)];
       output := VTensor output;
       operation := "forward";
       detailLayerIndex := Some layerIndex |} in
  mret {| stepType := Forward;
          layerIndex := Some layerIndex;
          networkState := getCurrentState e;
          computation := computation;
          timestamp := now;
          stepNumber := currentStepIndex e + 1 |}.

Definition stepForwardLayer (now : nat) (layerIndex : nat)
    : Method DebugEngine StepSnapshot :=
  forwardLayerSnapshot now layerIndex ≫= record.

(** The loop of [stepComputeLoss] that completes the forward pass. *)
Fixpoint completeForward (idx : list nat) (current : option Tensor)
    : Method DebugEngine () :=
  match idx with
  | [] => mret ()
  | i :: idx =>
      current ← inNetwork (NetworkM.forwardLayer i current);
      _ ← setActivation i current;
      completeForward idx (Some current)
  end.

(** [this.forwardActivations[this.forwardActivations.length - 1]] *)
Definition lastActivation (e : DebugEngine) : option Tensor :=
  arrayGet (activations e) (Z.of_nat (length (activations e)) - 1).

(** A loss method called on [predictions]: reading [predictions.rows]
    throws when it is [undefined]. *)
Definition onPredictions {A} (predictions : option Tensor)
    (method : Tensor → res A) : Method DebugEngine A :=
  match predictions with
  | Some p => try (method p)
  | None => throw TypeError
  end.

Definition computeLossSnapshot (now : nat) : Method DebugEngine StepSnapshot :=
  e ← this;
  match currentInput e, currentTarget e with
  | Some input, Some target =>
      _ ← (if bool_decide (length (activations e)
                           < length (layers (network e)))
           then completeForward (seq 0 (length (layers (network e))))
                                (Some input)
           else mret ());
      e ← this;
      let predictions := lastActivation e in
      loss ← onPredictions predictions
               (fun p => compute (lossFunction (network e)) p target);
      _ ← assign (setCurrentLoss (Some loss));
      let computation :=
        {| formula := "L = " +:+ getLossName +:+ "(y_pred, y_true)";
           description := "Compute loss";
           inputs := [("Predictions", ofTensor predictions);
                      ("Targets", VTensor target)];
           output := VNumber loss;
           operation := "loss";
           detailLayerIndex := None |} in
      e ← this;
      mret {| stepType := Loss;
              layerIndex := None;
              networkState := getCurrentState e;
              computation := computation;
              timestamp := now;
              stepNumber := currentStepIndex e + 1 |}
  | _, _ => throw (Error "Input and target data must be set")
  end.

Definition stepComputeLoss (now : nat) : Method DebugEngine StepSnapshot :=
  computeLossSnapshot now ≫= record.

Definition lossGradientSnapshot (now : nat)
    : Method DebugEngine StepSnapshot :=
  e ← this;
  match currentTarget e, currentLoss e with
  | Some target, Some _ =>
      let predictions := lastActivation e in
      grad ← onPredictions predictions
               (fun p => gradient (lossFunction (network e)) p target);
      _ ← assign (setLossGradient (Some grad));
      let computation :=
        {| formula := "∂L/∂a = ∇" +:+ getLossName +:+ "(y_pred, y_true)";
           description := "Compute loss gradient";
           inputs := [("Predictions", ofTensor predictions);
                      ("Targets", VTensor target)];
           output := VTensor grad;
           operation := "loss_gradient";
           detailLayerIndex := None |} in
      e ← this;
      mret {| stepType := Backward;
              layerIndex := None;
              networkState := getCurrentState e;
              computation := computation;
              timestamp := now;
              stepNumber := currentStepIndex e + 1 |}
  | _, _ => throw (Error "Must compute loss first")
  end.

Definition stepBackwardLossGradient (now : nat)
    : Method DebugEngine StepSnapshot :=
  lossGradientSnapshot now ≫= record.

(** The formula shown for the backward step of layer [i]. *)
Definition backwardFormula (i : string) : string :=
  "∂L/∂W" +:+ i +:+ " = (∂L/∂a" +:+ i +:+ ")^T × X" +:+ i +:+ nl
  +:+ "∂L/∂b" +:+ i +:+ " = sum(∂L/∂a" +:+ i +:+ ")" +:+ nl
  +:+ "∂L/∂X" +:+ i +:+ " = ∂L/∂a" +:+ i +:+ " × W" +:+ i.

Definition backwardLayerSnapshot (now : nat) (layerIndex : nat)
    : Method DebugEngine StepSnapshot :=
  e ← this;
  match lossGradient e with
  | None => throw (Error "Must compute loss gradient first")
  | Some lossGrad =>
      if bool_decide (Z.of_nat layerIndex
                      = Z.of_nat (length (layers (network e))) - 1)%Z
      then
        let inputGrad := lossGrad in
        outputGrad ← inNetwork
                       (NetworkM.atLayer layerIndex (LayerM.backward inputGrad));
        e ← this;
        let layer := layerAt e layerIndex in
        type ← field layer activationType;
        lastIn ← field layer lastInput;
        w ← field layer weights;
        let i := pretty layerIndex in
        let computation :=
          {| formula := backwardFormula i;
             description := "Backward pass through Layer " +:+ i;
             inputs := [("∂L/∂a" +:+ i, VTensor inputGrad);
                        ("X" +:+ i, ofTensor lastIn);
                        ("W" +:+ i, VTensor w)];
             output := VTensor outputGrad;
             operation := "backward";
             detailLayerIndex := Some layerIndex |} in
        mret {| stepType := Backward;
                layerIndex := Some layerIndex;
                networkState := getCurrentState e;
                computation := computation;
                timestamp := now;
                stepNumber := currentStepIndex e + 1 |}
      else throw (Error "Backward pass must be done in reverse order")
  end.

Definition stepBackwardLayer (now : nat) (layerIndex : nat)
    : Method DebugEngine StepSnapshot :=
  backwardLayerSnapshot now layerIndex ≫= record.

(** The loop of [stepBackwardComplete], from the last layer down. *)
Fixpoint backwardComplete (now : nat) (idx : list nat) (currentGrad : Tensor)
    (snapshots : list StepSnapshot) : Method DebugEngine (list StepSnapshot) :=
  match idx with
  | [] => mret snapshots
  | i :: idx =>
      currentGrad ← inNetwork
                      (NetworkM.atLayer i (LayerM.backward currentGrad));
      e ← this;
      let layer := layerAt e i in
      type ← field layer activationType;
      lastIn ← field layer lastInput;
      w ← field layer weights;
      wGrad ← field layer weightGrad;
      let computation :=
        {| formula := backwardFormula (pretty i);
           description := "Backward pass through Layer " +:+ pretty i;
           inputs := [("Gradient", VTensor currentGrad);
                      ("Input", ofTensor lastIn);
                      ("Weights", VTensor w)];
           output := ofTensor wGrad;
           operation := "backward";
           detailLayerIndex := Some i |} in
      snapshot ← record {| stepType := Backward;
                           layerIndex := Some i;
                           networkState := getCurrentState e;
                           computation := computation;
                           timestamp := now;
                           stepNumber := currentStepIndex e + 1 |};
      backwardComplete now idx currentGrad (snapshots ++ [snapshot])
  end.

(** [this.lossGradient!] is set where it is read: it was before the call, or
    the [stepBackwardLossGradient] just made has returned and assigned it. *)
Definition stepBackwardComplete (now : nat)
    : Method DebugEngine (list StepSnapshot) :=
  e ← this;
  _ ← (if lossGradient e is None
       then _ ← stepBackwardLossGradient now; mret ()
       else mret ());
  e ← this;
  match lossGradient e with
  | Some currentGrad =>
      backwardComplete now (reverse (seq 0 (length (layers (network e)))))
                       currentGrad []
  | None => throw TypeError
  end.

(** The loop of [stepUpdateWeights]; [computations] collects the inputs of
    the per-layer details, which is all the summary keeps of them. *)
Fixpoint updateLayers (idx : list nat) (learningRate : number)
    (computations : list (string * Value))
    : Method DebugEngine (list (string * Value)) :=
  match idx with
  | [] => mret computations
  | i :: idx =>
      e ← this;
      l ← field (layerAt e i) (fun l => l);
      match weightGrad l, biasGrad l with
      | Some wGrad, Some bGrad =>
          let oldWeights := jsonCopy (weights l) in
          let oldBias := bias l in
          w ← inOptimizer (Optimizers.update (weights l) wGrad learningRate);
          _ ← inNetwork (NetworkM.atLayer i (assign (LayerM.setWeights w)));
          b ← inOptimizer (Optimizers.updateBias (bias l) bGrad learningRate);
          _ ← inNetwork (NetworkM.atLayer i (assign (LayerM.setBias b)));
          updateLayers idx learningRate
            (computations ++
             [("Old Weights", oldWeights);
              ("Weight Gradients", VTensor wGrad);
              ("Old Bias", VVector oldBias);
              ("Bias Gradients", VVector bGrad);
              ("Learning Rate", VNumber learningRate)])
      | _, _ =>
          throw (Error "Gradients must be computed before weight update")
      end
  end.

Definition updateWeightsSnapshot (now : nat) (learningRate : number)
    : Method DebugEngine StepSnapshot :=
  e ← this;
  computations ← updateLayers (seq 0 (length (layers (network e))))
                              learningRate [];
  e ← this;
  representativeOutput ← field (layerAt e 0) weights;
  let computation :=
    {| formula := Optimizers.getFormula (optimizer e);
       description := "Update all weights using "
                      +:+ Optimizers.getName (optimizer e);
       inputs := computations;
       output := VTensor representativeOutput;
       operation := "update";
       detailLayerIndex := None |} in
  mret {| stepType := Update;
          layerIndex := None;
          networkState := getCurrentState e;
          computation := computation;
          timestamp := now;
          stepNumber := currentStepIndex e + 1 |}.

Definition stepUpdateWeights (now : nat) (learningRate : number)
    : Method DebugEngine StepSnapshot :=
  updateWeightsSnapshot now learningRate ≫= record.

(** [restoreState]: a snapshot taken by the engine has one weight tensor and
    one bias vector per layer; for a shorter one the source would store
    [undefined] in the layer, where the model leaves the field as it is. *)
Definition restoreLayer (state : NetworkState) (i : nat) (l : Layer) : Layer :=
  let l := match stateWeights state !! i with
           | Some w => LayerM.setWeights w l
           | None => l
           end in
  match stateBiases state !! i with
  | Some b => LayerM.setBias b l
  | None => l
  end.

(** [this.stepHistory[i]] destructured by [restoreState]: throws on
    [undefined]. *)
Definition restoreState (snapshot : option StepSnapshot)
    : Method DebugEngine () :=
  match snapshot with
  | None => throw TypeError
  | Some snapshot =>
      let state := networkState snapshot in
      _ ← assign (fun e =>
            setNetwork {| layers := imap (restoreLayer state)
                                         (layers (network e));
                          lossFunction := lossFunction (network e) |} e);
      match stateActivations state with
      | Some a => assign (setForwardActivations a)
      | None => mret ()
      end
  end.

Definition undo : Method DebugEngine bool :=
  e ← this;
  if bool_decide (currentStepIndex e ≤ 0)%Z then mret false
  else
    _ ← assign (setCurrentStepIndex (currentStepIndex e - 1));
    e ← this;
    _ ← restoreState (stepHistory e !! Z.to_nat (currentStepIndex e));
    mret true.

Definition redo : Method DebugEngine bool :=
  e ← this;
  if bool_decide (Z.of_nat (length (stepHistory e)) - 1
                  ≤ currentStepIndex e)%Z then mret false
  else
    _ ← assign (setCurrentStepIndex (currentStepIndex e + 1));
    e ← this;
    _ ← restoreState (if bool_decide (0 ≤ currentStepIndex e)%Z
                      then stepHistory e !! Z.to_nat (currentStepIndex e)
                      else None);
    mret true.

(** The update loop of [trainOneEpoch]. *)
Definition trainUpdate (learningRate : number) (i : nat)
    : Method DebugEngine () :=
  e ← this;
  l ← field (layerAt e i) (fun l => l);
  match weightGrad l, biasGrad l with
  | Some wGrad, Some bGrad =>
      w ← inOptimizer (Optimizers.update (weights l) wGrad learningRate);
      _ ← inNetwork (NetworkM.atLayer i (assign (LayerM.setWeights w)));
      b ← inOptimizer (Optimizers.updateBias (bias l) bGrad learningRate);
      inNetwork (NetworkM.atLayer i (assign (LayerM.setBias b)))
  | _, _ => mret ()
  end.

Definition trainOneEpoch (input target : Tensor) (learningRate : number)
    : Method DebugEngine number :=
  predictions ← inNetwork (NetworkM.forward input);
  e ← this;
  loss ← try (compute (lossFunction (network e)) predictions target);
  _ ← assign (setCurrentLoss (Some loss));
  grad ← try (gradient (lossFunction (network e)) predictions target);
  _ ← inNetwork (NetworkM.backward grad);
  e ← this;
  _ ← forEach (trainUpdate learningRate)
              (seq 0 (length (layers (network e))));
  mret loss.

End Engine.

(** ** Expression dependencies ([src/lib/graph-analysis.ts])

    A string is the sequence of the bytes of its UTF-8 encoding: the
    pattern [/y\d+/g] looks for the byte [y] and the bytes of the digits 0
    to 9 and finds the same places as on the characters.
    [String.prototype.toLowerCase] is left open: the sort uses it only to
    form the keys it stores and looks up, so it is a parameter of the
    functions, and what is proved holds of whatever it does to a string. *)

Module GraphAnalysis.

Record Expression := mkExpression {
  id : string;
  label : string;
  text : string;
  color : string;
  visible : bool;
}.

(** [s.toLowerCase()] *)
Class Lowering := toLowerCase : string → string.

(** What [toLowerCase] does to a string of ASCII characters, for the runs
    on sample expressions: [A] to [Z] become [a] to [z]. *)
Definition lowerChar (c : ascii) : ascii :=
  let n := nat_of_ascii c in
  if bool_decide (65 ≤ n ≤ 90) then ascii_of_nat (n + 32) else c.

Fixpoint asciiLowerCase (s : string) : string :=
  match s with
  | EmptyString => EmptyString
  | String c s => String (lowerChar c) (asciiLowerCase s)
  end.

Definition asciiLowering : Lowering := asciiLowerCase.

Definition isDigit (c : ascii) : bool :=
  let n := nat_of_ascii c in bool_decide (48 ≤ n ≤ 57).

(** [s.match(/y\d+/g) || []], scanning left to right.  [pending] holds the
    digits read since the last [y], when the scan is just behind one. *)
Definition emit (pending : option string) (found : list string) : list string :=
  match pending with
  | Some (String c ds) => found ++ ["y" +:+ String c ds]
  | _ => found
  end.

Fixpoint scanRefs (s : string) (pending : option string) (found : list string)
    : list string :=
  match s with
  | EmptyString => emit pending found
  | String c s =>
      if bool_decide (c = "y"%char) then scanRefs s (Some "") (emit pending found)
      else
        match pending with
        | Some ds =>
            if isDigit c then scanRefs s (Some (ds +:+ String c "")) found
            else scanRefs s None (emit pending found)
        | None => scanRefs s None found
        end
  end.

Definition matchRefs (s : string) : list string := scanRefs s None [].

Section lower.
Context `{Lowering}.

(** [expr.text.toLowerCase().match(/y\d+/g) || []] *)
Definition refsOf (expr : Expression) : list string :=
  matchRefs (toLowerCase (text expr)).

(** [expressions.forEach(e => labelToExpr.set(e.label.toLowerCase(), e))] *)
Definition buildMap (expressions : list Expression) : gmap string Expression :=
  foldl (fun labelToExpr e => <[toLowerCase (label e) := e]> labelToExpr)
        ∅ expressions.

(** The variables the closure [visit] updates. *)
Record SortState := mkSortState {
  visited : gset string;
  result : list Expression;
}.

(** A loop over an array whose body may run out of fuel. *)
Fixpoint forRefs (body : string → SortState → option SortState)
    (refs : list string) (st : SortState) : option SortState :=
  match refs with
  | [] => Some st
  | ref :: refs =>
      match body ref st with
      | Some st => forRefs body refs st
      | None => None
      end
  end.

(** [visit(label, visiting)]; [fuel] bounds the depth of the recursion and
    [None] means the bound was reached.  [visiting] is passed by value: each
    call removes the label it added before it returns. *)
Fixpoint visit (fuel : nat) (labelToExpr : gmap string Expression)
    (label : string) (visiting : gset string) (st : SortState)
    : option SortState :=
  match fuel with
  | O => None
  | S fuel =>
      if bool_decide (label ∈ visited st) then Some st
      else if bool_decide (label ∈ visiting) then Some st
      else
        match labelToExpr !! label with
        | None => Some st
        | Some expr =>
            match forRefs (fun ref => visit fuel labelToExpr ref
                                            ({[label]} ∪ visiting))
                          (refsOf expr) st with
            | Some st =>
                Some {| visited := {[label]} ∪ visited st;
                        result := result st ++ [expr] |}
            | None => None
            end
        end
  end.

Definition topologicalSortFuel (fuel : nat) (expressions : list Expression)
    : option (list Expression) :=
  let labelToExpr := buildMap expressions in
  match forRefs (fun label => visit fuel labelToExpr label ∅)
                ((fun e => toLowerCase (label e)) <$> expressions)
                {| visited := ∅; result := [] |} with
  | Some st => Some (result st)
  | None => None
  end.

(** The recursion is never deeper than the number of labels plus one. *)
Definition topologicalSort (expressions : list Expression)
    : option (list Expression) :=
  topologicalSortFuel (S (length expressions)) expressions.

End lower.

End GraphAnalysis.

(** ** Linear regression ([src/lib/linear-regression.ts]) *)

Module LinearRegression.

Record DataPoint := mkPoint {
  x : number;
  y : number;
}.

Record Line := mkLine {
  m : number;
  b : number;
}.

Definition threshold : number := Fin (1 / 10 ^ 10).

(** [points.reduce((s, p) => s + f(p), 0)] *)
Definition sumBy (f : DataPoint → number) (points : list DataPoint) : number :=
  foldl (fun s p => s ⊕ f p) (Fin 0) points.

Definition sumX := sumBy x.
Definition sumY := sumBy y.
Definition sumXY := sumBy (fun p => x p ⊗ y p).
Definition sumXX := sumBy (fun p => x p ⊗ x p).

Definition denominator (points : list DataPoint) : number :=
  let n := Num.ofNat (length points) in
  n ⊗ sumXX points ⊖ sumX points ⊗ sumX points.

Definition normalEquation (points : list DataPoint) : Line :=
  if bool_decide (length points < 2) then {| m := Fin 0; b := Fin 0 |}
  else
    let n := Num.ofNat (length points) in
    if Num.lt (Num.abs (denominator points)) threshold
    then {| m := Fin 0; b := sumY points ⊘ n |}
    else
      let m := (n ⊗ sumXY points ⊖ sumX points ⊗ sumY points)
               ⊘ denominator points in
      let b := (sumY points ⊖ m ⊗ sumX points) ⊘ n in
      {| m := m; b := b |}.

End LinearRegression.

(** ** [normalEquation] on the doubles themselves

    Rocq's primitive floats are the IEEE 754 binary64 numbers with rounding
    to nearest, ties to even: the numbers and the [+], [-], [*], [/] of
    JavaScript.  The function is repeated on them for the inputs on which
    rounding decides which branch its guard takes. *)

Module Doubles.
Import PrimFloat.

Record DataPoint := mkPoint {
  x : float;
  y : float;
}.

Record Line := mkLine {
  m : float;
  b : float;
}.

(** The double [1e-10]. *)
Definition threshold : float := 0x1.b7cdfd9d7bdbbp-34%float.

(** [points.length] as a number. *)
Definition ofNat (n : nat) : float := of_uint63 (Uint63.of_Z (Z.of_nat n)).

(** [points.reduce((s, p) => s + f(p), 0)] *)
Definition sumBy (f : DataPoint → float) (points : list DataPoint) : float :=
  foldl (fun s p => (s + f p)%float) 0%float points.

Definition sumX := sumBy x.
Definition sumY := sumBy y.
Definition sumXY := sumBy (fun p => (x p * y p)%float).
Definition sumXX := sumBy (fun p => (x p * x p)%float).

Definition denominator (points : list DataPoint) : float :=
  let n := ofNat (length points) in
  (n * sumXX points - sumX points * sumX points)%float.

Definition normalEquation (points : list DataPoint) : Line :=
  if bool_decide (length points < 2) then {| m := 0%float; b := 0%float |}
  else
    let n := ofNat (length points) in
    if ltb (abs (denominator points)) threshold
    then {| m := 0%float; b := (sumY points / n)%float |}
    else
      let m := ((n * sumXY points - sumX points * sumY points)
                / denominator points)%float in
      let b := ((sumY points - m * sumX points) / n)%float in
      {| m := m; b := b |}.


End Doubles.

(** ** Sample inputs *)

Module Samples.

(** A layer with one output and two inputs whose cached gradients hold a
    large value, a [NaN] and an infinity. *)
Definition blownUpLayer : Layer :=
  {| weights := {| data := [[Fin 1; Fin 2]]; rows := 1; cols := 2 |};
     bias := [Fin 0];
     activation := Activations.Linear;
     activationType := "linear";
     inputSize := 2;
     outputSize := 1;
     lastInput := None;
     preActivationOutput := None;
     weightGrad := Some {| data := [[Fin 10; NaN]]; rows := 1; cols := 2 |};
     biasGrad := Some [PosInf] |}.


End Samples.

(** ** Vocabulary of the statements *)

(** Row [i] of a table, empty when there is none, and the entry a missing
    index reads as. *)
Definition rowAt (d : list (list number)) (i : nat) : list number :=
  default [] (d !! i).

Definition entry (t : Tensor) (i j : nat) : number := at1 (rowAt (data t) i) j.

Definition finite (a : number) : Prop := Num.isFinite a = true.

(** A tensor is well formed when its rows and columns match its data. *)
Definition wellFormed (t : Tensor) : Prop :=
  length (data t) = rows t ∧ Forall (fun row => length row = cols t) (data t).

Definition allFinite (t : Tensor) : Prop := Forall (Forall finite) (data t).

(** Adam's rule for one entry, with the step number [T] that enters the two
    bias corrections [1 - beta1^T] and [1 - beta2^T] as a parameter:
    [m0], [v0] are the stored moments, [w] the parameter, [g] its gradient.
    The two functions follow the operation order of [update] and of
    [updateBias]. *)
Definition adamWeightEntry (T : nat) (m0 v0 w g lr : number) : number :=
  let mNew := m0 ⊗ Optimizers.beta1 ⊕ g ⊗ (Fin 1 ⊖ Optimizers.beta1) in
  let vNew := v0 ⊗ Optimizers.beta2
              ⊕ g ⊗ g ⊗ (Fin 1 ⊖ Optimizers.beta2) in
  let mHat := mNew ⊗ (Fin 1 ⊘ (Fin 1 ⊖ Num.pow Optimizers.beta1 T)) in
  let vHat := vNew ⊗ (Fin 1 ⊘ (Fin 1 ⊖ Num.pow Optimizers.beta2 T)) in
  w ⊖ mHat ⊗ lr ⊘ (Num.sqrt vHat ⊕ Optimizers.epsilon).

Definition adamBiasEntry (T : nat) (m0 v0 b g lr : number) : number :=
  let mNew := Optimizers.beta1 ⊗ m0 ⊕ (Fin 1 ⊖ Optimizers.beta1) ⊗ g in
  let vNew := Optimizers.beta2 ⊗ v0
              ⊕ (Fin 1 ⊖ Optimizers.beta2) ⊗ g ⊗ g in
  let mHat := mNew ⊘ (Fin 1 ⊖ Num.pow Optimizers.beta1 T) in
  let vHat := vNew ⊘ (Fin 1 ⊖ Num.pow Optimizers.beta2 T) in
  b ⊖ lr ⊗ mHat ⊘ (Num.sqrt vHat ⊕ Optimizers.epsilon).

(** A method keeps the relation [R] when [R] holds between the fields before
    a call and the fields after it, whether the call returns or throws. *)
Definition keeps {S A} (R : relation S) (method : Method S A) : Prop :=
  ∀ s, R s (method s).2.

(** The step counter is the same before and after. *)
Definition sameT : relation Optimizers.Adam :=
  fun s s' => Optimizers.t s' = Optimizers.t s.

(** ** More sample inputs *)

Module AdamSamples.

Definition w : Tensor := {| data := [[Fin 1]]; rows := 1; cols := 1 |}.
Definition g : Tensor := {| data := [[Fin 2]]; rows := 1; cols := 1 |}.
Definition b : list number := [Fin 0].
Definition gb : list number := [Fin 1].
Definition lr : number := Fin (1 / 10).

End AdamSamples.

(** ** Tensors as tables of entries *)

(** The [n]×[n] identity tensor. *)
Definition identity (n : nat) : Tensor :=
  {| data := (fun i => (fun j => if bool_decide (i = j) then Fin 1 else Fin 0)
                       <$> seq 0 n) <$> seq 0 n;
     rows := n; cols := n |}.

(** The table with [n] rows and [k] columns whose entry [(i, j)] is [f i j]. *)
Definition tabulate (n k : nat) (f : nat → nat → number) : list (list number) :=
  (fun i => f i <$> seq 0 k) <$> seq 0 n.

(** What [transpose] and [matmul] compute on well-formed arguments. *)
Definition transposed (t : Tensor) : Tensor :=
  {| data := tabulate (cols t) (rows t) (fun j i => entry t i j);
     rows := cols t; cols := rows t |}.

Definition dot (a b : Tensor) (i j : nat) (ks : list nat) (sum : number)
    : number :=
  foldl (fun sum k => sum ⊕ entry a i k ⊗ entry b k j) sum ks.

Definition product (a b : Tensor) : Tensor :=
  {| data := tabulate (rows a) (cols b)
               (fun i j => dot a b i j (seq 0 (cols a)) (Fin 0));
     rows := rows a; cols := cols b |}.

(** The real number a finite entry carries. *)
Definition realOf (a : number) : R :=
  match a with
  | Fin x => x
  | _ => 0
  end.

Module TensorSamples.

(** A 1×2 tensor with an infinite entry. *)
Definition infRow : Tensor :=
  {| data := [[PosInf; Fin 1]]; rows := 1; cols := 2 |}.

(** A 2×3 tensor. *)
Definition twoByThree : Tensor :=
  {| data := [[Fin 1; Fin 2; Fin 3]; [Fin 4; Fin 5; Fin 6]];
     rows := 2; cols := 3 |}.

(** Targets for it. *)
Definition targets : Tensor :=
  {| data := [[Fin 0; Fin 1; Fin 0]; [Fin 2; Fin 2; Fin 2]];
     rows := 2; cols := 3 |}.

(** A tensor with one row and no column. *)
Definition emptyRow : Tensor := {| data := [[]]; rows := 1; cols := 0 |}.

End TensorSamples.

(** The sum of a list of reals. *)
Definition sumR (l : list R) : R := foldr Rplus 0%R l.

(** An entry that is a number of the unit interval. *)
Definition inUnit (a : number) : Prop := ∃ x, a = Fin x ∧ (0 <= x <= 1)%R.

(** The sum of a row as [reduce((a, b) => a + b, 0)] computes it. *)
Definition rowSum (row : list number) : number := foldl Num.add (Fin 0) row.

(** ** Vocabulary for the loss gradient *)


(** The squared difference of two tensors at one index pair. *)
Definition squaredDiff (predictions targets : Tensor) (ij : nat * nat) : R :=
  ((realOf (entry predictions ij.1 ij.2) - realOf (entry targets ij.1 ij.2))
   * (realOf (entry predictions ij.1 ij.2) - realOf (entry targets ij.1 ij.2)))%R.



(** ** Vocabulary for the debug engine *)

(** A method leaves the value of [f] on the fields as it was. *)
Definition sameOn {S A} (f : S → A) : relation S := fun s s' => f s' = f s.

(** The history and the step index, which only [record], [setData], [undo]
    and [redo] touch. *)
Definition steps (e : DebugEngine) : list StepSnapshot * Z :=
  (stepHistory e, currentStepIndex e).

(** The number of layers of the engine's network. *)
Definition depth (e : DebugEngine) : nat := length (layers (network e)).

(** The network has a first layer that can take [input]: its weights are
    well formed with one column per input column, and its activation
    returns on every tensor. *)
Definition firstLayerReady (e : DebugEngine) (input : Tensor) : Prop :=
  ∃ l, layers (network e) !! 0 = Some l
       ∧ wellFormed (weights l) ∧ cols input = cols (weights l)
       ∧ ∀ z, ∃ a, forward (activation l) z = Ok a.

Module EngineSamples.

Definition linearLayer (w : R) : Layer :=
  {| weights := {| data := [[Fin w]]; rows := 1; cols := 1 |};
     bias := [Fin 0];
     activation := Activations.Linear;
     activationType := "linear";
     inputSize := 1;
     outputSize := 1;
     lastInput := None;
     preActivationOutput := None;
     weightGrad := None;
     biasGrad := None |}.

Definition freshEngine (layers : list Layer) : DebugEngine :=
  {| network := {| layers := layers; lossFunction := Losses.MSE |};
     optimizer := Optimizers.OptSGD;
     stepHistory := [];
     currentStepIndex := -1;
     currentInput := None;
     currentTarget := None;
     forwardActivations := 0;
     currentLoss := None;
     lossGradient := None;
     currentOptimizerType := Some "sgd";
     store := [[]] |}.

(** An engine over one linear layer, and one over two. *)
Definition oneLayer : DebugEngine := freshEngine [linearLayer 2].
Definition twoLayers : DebugEngine := freshEngine [linearLayer 2; linearLayer 3].

Definition input : Tensor := {| data := [[Fin 1]]; rows := 1; cols := 1 |}.
Definition target : Tensor := {| data := [[Fin 5]]; rows := 1; cols := 1 |}.

(** The state a method leaves behind. *)
Definition after {A} (method : Method DebugEngine A) (e : DebugEngine)
    : DebugEngine := (method e).2.

(** [setData] and one forward step on the one-layer engine. *)
Definition oneStep : DebugEngine :=
  after (Engine.stepForwardLayer 0 0)
    (after (Engine.setData input target) oneLayer).

(** The two-layer engine after the forward steps, the loss, the loss
    gradient and the backward step of the last layer. *)
Definition lastLayerDone : DebugEngine :=
  after (Engine.stepBackwardLayer 0 1)
    (after (Engine.stepBackwardLossGradient 0)
       (after (Engine.stepComputeLoss 0)
          (after (Engine.stepForwardLayer 0 1)
             (after (Engine.stepForwardLayer 0 0)
                (after (Engine.setData input target) twoLayers))))).

(** The one-layer engine after a whole pass: forward, loss, loss gradient,
    backward and the update of the weights. *)
Definition firstPassDone : DebugEngine :=
  after (Engine.stepUpdateWeights 0 (Fin (1 / 10)))
    (after (Engine.stepBackwardLayer 0 0)
       (after (Engine.stepBackwardLossGradient 0)
          (after (Engine.stepComputeLoss 0) oneStep))).

(** The same engine after the forward step of the next pass. *)
Definition secondPassStarted : DebugEngine :=
  after (Engine.stepForwardLayer 0 0) firstPassDone.

End EngineSamples.

(** ** Sequences of calls on an engine *)

(** What a caller can do with an engine; [CNetwork f] is any change made
    through [getNetwork()]. *)
Inductive Call :=
| CUpdateConfig (configOptimizer : string)
| CSetData (input target : Tensor)
| CStepForwardPreActivation (layerIndex : nat)
| CStepForwardActivation (layerIndex : nat)
| CStepForwardLayer (now layerIndex : nat)
| CStepComputeLoss (now : nat)
| CStepBackwardLossGradient (now : nat)
| CStepBackwardLayer (now layerIndex : nat)
| CStepBackwardComplete (now : nat)
| CStepUpdateWeights (now : nat) (learningRate : number)
| CUndo
| CRedo
| CTrainOneEpoch (input target : Tensor) (learningRate : number)
| CNetwork (f : Network → Network).

(** The engine after a call, whether the call returned or threw. *)
Definition perform (c : Call) (e : DebugEngine) : DebugEngine :=
  match c with
  | CUpdateConfig o => (Engine.updateConfig o e).2
  | CSetData input target => (Engine.setData input target e).2
  | CStepForwardPreActivation i => (Engine.stepForwardPreActivation i e).2
  | CStepForwardActivation i => (Engine.stepForwardActivation i e).2
  | CStepForwardLayer now i => (Engine.stepForwardLayer now i e).2
  | CStepComputeLoss now => (Engine.stepComputeLoss now e).2
  | CStepBackwardLossGradient now => (Engine.stepBackwardLossGradient now e).2
  | CStepBackwardLayer now i => (Engine.stepBackwardLayer now i e).2
  | CStepBackwardComplete now => (Engine.stepBackwardComplete now e).2
  | CStepUpdateWeights now lr => (Engine.stepUpdateWeights now lr e).2
  | CUndo => (Engine.undo e).2
  | CRedo => (Engine.redo e).2
  | CTrainOneEpoch input target lr => (Engine.trainOneEpoch input target lr e).2
  | CNetwork f => Engine.setNetwork (f (network e)) e
  end.

Definition performAll (calls : list Call) (e : DebugEngine) : DebugEngine :=
  foldl (fun e c => perform c e) e calls.

(** The calls that compute the loss, and those that compute its gradient. *)
Definition computesLoss (c : Call) : bool :=
  match c with
  | CStepComputeLoss _ | CTrainOneEpoch _ _ _ => true
  | _ => false
  end.

Definition computesLossGradient (c : Call) : bool :=
  match c with
  | CStepBackwardLossGradient _ | CStepBackwardComplete _ => true
  | _ => false
  end.

(** The call that starts over. *)
Definition resets (c : Call) : bool :=
  match c with
  | CSetData _ _ => true
  | _ => false
  end.

(** The cached loss and loss gradient. *)
Definition lossState (e : DebugEngine) : option number * option Tensor :=
  (currentLoss e, lossGradient e).

(** ** Vocabulary for the dependency sort *)

Module Deps.
Import GraphAnalysis.

Section lower.
Context `{Lowering}.

(** The key an expression is stored under. *)
Definition key (e : Expression) : string := toLowerCase (label e).





(** Every reference of an expression of the result that names a stored
    expression is met earlier in the result. *)
Definition Ordered (M : gmap string Expression) (sorted : list Expression)
    : Prop :=
  ∀ i e r, sorted !! i = Some e → r ∈ refsOf e → is_Some (M !! r) →
  ∃ j e', j < i ∧ sorted !! j = Some e' ∧ key e' = r.



End lower.

(** Two expressions that refer to each other. *)
Definition c1 : Expression :=
  {| id := "4"; label := "y1"; text := "y2"; color := "#000";
     visible := true |}.
Definition c2 : Expression :=
  {| id := "5"; label := "y2"; text := "y1"; color := "#000";
     visible := true |}.

End Deps.

(** ** Comparisons with equality *)

Module NumOrd.

(** [a <= b] and [a >= b]: false as soon as one side is [NaN]. *)
Definition le (a b : number) : bool :=
  match a, b with
  | NaN, _ | _, NaN => false
  | _, _ => negb (Num.lt b a)
  end.

Definition ge (a b : number) : bool := le b a.

End NumOrd.

(** ** The losses and the descent step of the regression
       ([src/lib/linear-regression.ts]) *)

Module Regression.
Import LinearRegression.

Definition computeMSE (points : list DataPoint) (m b : number) : number :=
  if bool_decide (length points = 0) then Fin 0
  else
    let sumSquaredError :=
      foldl (fun sumSquaredError p =>
               let pred := m ⊗ x p ⊕ b in
               let error := pred ⊖ y p in
               sumSquaredError ⊕ error ⊗ error) (Fin 0) points in
    sumSquaredError ⊘ Num.ofNat (length points).

Definition computeMAE (points : list DataPoint) (m b : number) : number :=
  if bool_decide (length points = 0) then Fin 0
  else
    let sumAbsError :=
      foldl (fun sumAbsError p =>
               let pred := m ⊗ x p ⊕ b in
               let error := Num.abs (pred ⊖ y p) in
               sumAbsError ⊕ error) (Fin 0) points in
    sumAbsError ⊘ Num.ofNat (length points).

(** The term one point adds to the Huber loss. *)
Definition huberTerm (m b delta : number) (p : DataPoint) : number :=
  let pred := m ⊗ x p ⊕ b in
  let error := Num.abs (pred ⊖ y p) in
  if NumOrd.le error delta then Fin (1 / 2) ⊗ error ⊗ error
  else delta ⊗ error ⊖ Fin (1 / 2) ⊗ delta ⊗ delta.

Definition computeHuber (points : list DataPoint) (m b delta : number)
    : number :=
  if bool_decide (length points = 0) then Fin 0
  else
    let sumLoss := foldl (fun sumLoss p => sumLoss ⊕ huberTerm m b delta p)
                         (Fin 0) points in
    sumLoss ⊘ Num.ofNat (length points).



(** [delta || 1.0] for an optional number: [undefined], [0] and [NaN] are
    falsy. *)
Definition orDefault (delta : option number) (d : number) : number :=
  match delta with
  | None | Some NaN => d
  | Some (Fin r) => match Num.sign r with Eq => d | _ => Fin r end
  | Some inf => inf
  end.

Definition computeLoss (points : list DataPoint) (m b : number)
    (lossType : string) (delta : option number) : number :=
  if String.eqb lossType "mse" then computeMSE points m b
  else if String.eqb lossType "mae" then computeMAE points m b
  else if String.eqb lossType "huber"
  then computeHuber points m b (orDefault delta (Fin 1))
  else computeMSE points m b.

Record Slopes := mkSlopes {
  dm : number;
  db : number;
}.

(** The object [{ m, b, gradients }] a descent step returns. *)
Record Descent := mkDescent {
  newM : number;
  newB : number;
  gradients : Slopes;
}.

(** [error >= 0 ? 1 : -1] *)
Definition signOf (error : number) : number :=
  if NumOrd.ge error (Fin 0) then Fin 1 else Fin (-1).

(** The body of the loop of [gradientDescentStep]. *)
Definition descentTerm (m b : number) (lossType : string) (delta : number)
    (acc : Slopes) (p : DataPoint) : Slopes :=
  let pred := m ⊗ x p ⊕ b in
  let error := pred ⊖ y p in
  if String.eqb lossType "mse" then
    {| dm := dm acc ⊕ Fin 2 ⊗ error ⊗ x p; db := db acc ⊕ Fin 2 ⊗ error |}
  else if String.eqb lossType "mae" then
    let sign := signOf error in
    {| dm := dm acc ⊕ sign ⊗ x p; db := db acc ⊕ sign |}
  else if String.eqb lossType "huber" then
    let absError := Num.abs error in
    if NumOrd.le absError delta then
      {| dm := dm acc ⊕ error ⊗ x p; db := db acc ⊕ error |}
    else
      let sign := signOf error in
      {| dm := dm acc ⊕ sign ⊗ delta ⊗ x p; db := db acc ⊕ sign ⊗ delta |}
  else acc.

Definition gradientDescentStep (points : list DataPoint) (m b : number)
    (learningRate : number) (lossType : string) (delta : number) : Descent :=
  if bool_decide (length points = 0)
  then {| newM := m; newB := b; gradients := {| dm := Fin 0; db := Fin 0 |} |}
  else
    let sums := foldl (descentTerm m b lossType delta)
                      {| dm := Fin 0; db := Fin 0 |} points in
    let n := Num.ofNat (length points) in
    let avgDm := dm sums ⊘ n in
    let avgDb := db sums ⊘ n in
    {| newM := m ⊖ learningRate ⊗ avgDm;
       newB := b ⊖ learningRate ⊗ avgDb;
       gradients := {| dm := avgDm; db := avgDb |} |}.

Record Landscape := mkLandscape {
  gridM : list (list number);
  gridB : list (list number);
  gridLoss : list (list number);
}.

(** [computeLossLandscape] for a whole number [resolution]: the three
    [resolution]×[resolution] grids [m], [b] and [loss]. *)
Definition computeLossLandscape (points : list DataPoint)
    (mRange bRange : number * number) (resolution : nat) (lossType : string)
    (delta : number) : Landscape :=
  let mMin := mRange.1 in
  let mMax := mRange.2 in
  let bMin := bRange.1 in
  let bMax := bRange.2 in
  let mStep := (mMax ⊖ mMin) ⊘ (Num.ofNat resolution ⊖ Fin 1) in
  let bStep := (bMax ⊖ bMin) ⊘ (Num.ofNat resolution ⊖ Fin 1) in
  let currentM (i : nat) := mMin ⊕ Num.ofNat i ⊗ mStep in
  let currentB (j : nat) := bMin ⊕ Num.ofNat j ⊗ bStep in
  {| gridM := (fun i => (fun _ => currentM i) <$> seq 0 resolution)
              <$> seq 0 resolution;
     gridB := (fun _ => currentB <$> seq 0 resolution) <$> seq 0 resolution;
     gridLoss := (fun i => (fun j => computeLoss points (currentM i)
                                       (currentB j) lossType (Some delta))
                           <$> seq 0 resolution) <$> seq 0 resolution |}.

End Regression.

(** ** Vocabulary for the regression *)

(** A data point with finite coordinates, and lists of them. *)
Definition pointOf (p : R * R) : LinearRegression.DataPoint :=
  {| LinearRegression.x := Fin p.1; LinearRegression.y := Fin p.2 |}.

Definition finitePoints (points : list LinearRegression.DataPoint) : Prop :=
  Forall (fun p => finite (LinearRegression.x p)
                   ∧ finite (LinearRegression.y p)) points.

(** The squared error of the line [y = m x + b] at a point. *)
Definition squaredError (m b : R) (p : R * R) : R :=
  ((m * p.1 + b - p.2) * (m * p.1 + b - p.2))%R.

(** [computeMSE] as a real function of the slope, and of the intercept. *)
Definition mseOfSlope (points : list LinearRegression.DataPoint) (b : R)
    (m : R) : R :=
  realOf (Regression.computeMSE points (Fin m) (Fin b)).

Definition mseOfIntercept (points : list LinearRegression.DataPoint) (m : R)
    (b : R) : R :=
  realOf (Regression.computeMSE points (Fin m) (Fin b)).

Module RegressionSamples.

(** Three points that are not on one line. *)
Definition threePoints : list LinearRegression.DataPoint :=
  pointOf <$> [(0, 1); (1, 3); (2, 4)]%R.

End RegressionSamples.

(** ** Numerical calculus on an expression ([src/lib/graph-analysis.ts])

    [evaluateExpression] turns the text of an expression into JavaScript
    and runs it; the functions below only call it, with the expression, the
    parameters and the values of the other expressions they were given, at
    the abscissas they choose.  That call is the parameter [evaluate]: the
    value at an abscissa, or [None] for [null]. *)

Module Calculus.

Section evaluate.
Variable evaluate : number → option number.

Definition calculateDerivative (x h : number) : option number :=
  let f1 := evaluate (x ⊕ h) in
  let f2 := evaluate (x ⊖ h) in
  match f1, f2 with
  | Some f1, Some f2 => Some ((f1 ⊖ f2) ⊘ (Fin 2 ⊗ h))
  | _, _ => None
  end.

(** The loop of [calculateIntegral], for [i] in [idx]. *)
Fixpoint simpsonSum (xMin h : number) (n : nat) (idx : list nat) (sum : number)
    : option number :=
  match idx with
  | [] => Some sum
  | i :: idx =>
      let x := xMin ⊕ Num.ofNat i ⊗ h in
      match evaluate x with
      | None => None
      | Some y =>
          simpsonSum xMin h n idx
            (if bool_decide (i = 0 ∨ i = n) then sum ⊕ y
             else if bool_decide (i mod 2 = 0) then sum ⊕ Fin 2 ⊗ y
             else sum ⊕ Fin 4 ⊗ y)
      end
  end.

Definition calculateIntegral (xMin xMax : number) (n : nat) : option number :=
  if NumOrd.ge xMin xMax then None
  else
    let h := (xMax ⊖ xMin) ⊘ Num.ofNat n in
    match simpsonSum xMin h n (seq 0 (S n)) (Fin 0) with
    | None => None
    | Some sum => Some ((h ⊘ Fin 3) ⊗ sum)
    end.

(** The loop of [findRootBisection]: [iterations] rounds are left. *)
Fixpoint bisect (iterations : nat) (a b fa fb tolerance : number)
    : option number :=
  match iterations with
  | O => None
  | S iterations =>
      let c := (a ⊕ b) ⊘ Fin 2 in
      match evaluate c with
      | None => None
      | Some fc =>
          if Num.lt (Num.abs fc) tolerance
             || Num.lt ((b ⊖ a) ⊘ Fin 2) tolerance
          then Some c
          else if Num.lt (fa ⊗ fc) (Fin 0)
               then bisect iterations a c fa fc tolerance
               else bisect iterations c b fc fb tolerance
      end
  end.

Definition findRootBisection (a b tolerance : number) (maxIterations : nat)
    : option number :=
  match evaluate a, evaluate b with
  | Some fa, Some fb =>
      if Num.lt (Num.abs fa) tolerance then Some a
      else if Num.lt (Num.abs fb) tolerance then Some b
      else if Num.gt (fa ⊗ fb) (Fin 0) then None
      else bisect maxIterations a b fa fb tolerance
  | _, _ => None
  end.

End evaluate.

End Calculus.

(** ** Vocabulary for the numerical calculus *)

(** An evaluator for the polynomial [A x³ + B x² + C x + D]: like
    [evaluateExpression] it has no value off the finite numbers. *)
Definition cubicAt (A B C D t : R) : R :=
  (A * t * t * t + B * t * t + C * t + D)%R.

Definition cubic (A B C D : R) (a : number) : option number :=
  match a with
  | Fin t => Some (Fin (cubicAt A B C D t))
  | _ => None
  end.

(** What bisection guarantees for an abscissa [c] it returns inside
    [lo, hi]: the value there is within the tolerance of 0, or [c] is the
    middle of an interval of half-width below the tolerance at whose ends
    the values do not have one strict sign. *)
Definition rootNear (evaluate : number → option number) (tol lo hi c : R)
    : Prop :=
  (lo <= c <= hi)%R
  ∧ ∃ fc, evaluate (Fin c) = Some (Fin fc)
     ∧ ((Rabs fc < tol)%R
        ∨ ∃ a' b' fa' fb',
            (lo <= a' <= b')%R ∧ (b' <= hi)%R ∧ c = ((a' + b') / 2)%R
            ∧ ((b' - a') / 2 < tol)%R
            ∧ evaluate (Fin a') = Some (Fin fa')
            ∧ evaluate (Fin b') = Some (Fin fb')
            ∧ (fa' * fb' <= 0)%R).

(** ** Vocabulary for the activations and the losses *)

(** A number strictly between 0 and 1. *)
Definition inOpenUnit (a : number) : Prop := ∃ s, a = Fin s ∧ (0 < s < 1)%R.

(** A number that is not negative: a finite one from 0 on, or [Infinity]. *)
Definition notNegative (a : number) : Prop :=
  match a with
  | Fin r => (0 <= r)%R
  | PosInf => True
  | _ => False
  end.

(** A finite number of absolute value at most [c]. *)
Definition within (c : R) (a : number) : Prop :=
  ∃ r, a = Fin r ∧ (Rabs r <= c)%R.

(** A finite number from 0 on. *)
Definition finiteNonNegative (a : number) : Prop :=
  ∃ r, a = Fin r ∧ (0 <= r)%R.

(** The index pairs at which both tensors hold a finite number, in visiting
    order: the entries [MSE.compute] does not skip. *)
Definition finitePair (predictions targets : Tensor) (ij : nat * nat) : bool :=
  Num.isFinite (entry predictions ij.1 ij.2)
  && Num.isFinite (entry targets ij.1 ij.2).

Definition finitePairs (predictions targets : Tensor) : list (nat * nat) :=
  filter (fun ij => finitePair predictions targets ij = true)
         (indices (rows predictions) (cols predictions)).

Module LossSamples.

(** Predictions with a [NaN] and an infinity among them, and targets. *)
Definition spoiled : Tensor :=
  {| data := [[NaN; Fin 1]; [Fin 2; PosInf]]; rows := 2; cols := 2 |}.
Definition wanted : Tensor :=
  {| data := [[Fin 0; Fin 3]; [Fin 2; Fin 0]]; rows := 2; cols := 2 |}.

(** Probabilities and labels. *)
Definition probabilities : Tensor :=
  {| data := [[Fin (1 / 4); Fin 1]]; rows := 1; cols := 2 |}.
Definition labels : Tensor :=
  {| data := [[Fin 0; Fin 1]]; rows := 1; cols := 2 |}.

End LossSamples.

(** ** Vocabulary for the shapes of a layer *)

(** [t] is a well-formed tensor with [n] rows and [k] columns. *)
Definition shaped (n k : nat) (t : Tensor) : Prop :=
  wellFormed t ∧ rows t = n ∧ cols t = k.

(** An activation returns on well-formed tensors and keeps their shape, in
    both directions. *)
Definition shapePreserving (act : ActivationFunction) : Prop :=
  (∀ n k z, shaped n k z → ∃ a, forward act z = Ok a ∧ shaped n k a)
  ∧ (∀ n k g z, shaped n k g → shaped n k z →
       ∃ r, backward act g z = Ok r ∧ shaped n k r).

(** ** Vocabulary for networks *)

(** The outputs and the inputs of a layer, as its weights have them. *)
Definition dimsOf (l : Layer) : nat * nat :=
  (rows (weights l), cols (weights l)).

(** Each layer takes as many inputs as the one before gives outputs, the
    first one [k]. *)
Fixpoint chainedFrom (k : nat) (dims : list (nat * nat)) : Prop :=
  match dims with
  | [] => True
  | d :: dims => d.2 = k ∧ chainedFrom d.1 dims
  end.

(** The outputs of the last layer; [k] when there is none. *)
Fixpoint outputsOf (k : nat) (dims : list (nat * nat)) : nat :=
  match dims with
  | [] => k
  | d :: dims => outputsOf d.1 dims
  end.

(** A layer with well-formed weights and one of the activations of
    [getActivation]. *)
Definition sound (l : Layer) : Prop :=
  wellFormed (weights l)
  ∧ ∃ type, activation l = Activations.getActivation type.

(** A network of sound layers for inputs of [k] columns. *)
Definition trainable (k : nat) (n : Network) : Prop :=
  Forall sound (layers n) ∧ chainedFrom k (dimsOf <$> layers n).

(** The layer has seen an input of [r] rows. *)
Definition cached (r : nat) (l : Layer) : Prop :=
  ∃ x z, lastInput l = Some x ∧ preActivationOutput l = Some z
         ∧ shaped r (cols (weights l)) x ∧ shaped r (rows (weights l)) z.

(** The layer holds a weight gradient with the shape of its weights and a
    bias gradient with one entry per output. *)
Definition graded (l : Layer) : Prop :=
  ∃ wGrad bGrad, weightGrad l = Some wGrad ∧ biasGrad l = Some bGrad
                 ∧ shaped (rows (weights l)) (cols (weights l)) wGrad
                 ∧ length bGrad = rows (weights l).

Module NetworkSamples.

(** Two linear layers, 1 → 1 → 1, with the mean squared error. *)
Definition twoLinear : Network :=
  {| layers := [EngineSamples.linearLayer 2; EngineSamples.linearLayer 3];
     lossFunction := Losses.MSE |}.

End NetworkSamples.

(** ** Vocabulary for the history of the debug engine *)

(** The step index points into the history, or is -1 with no step to go
    back to. *)
Definition indexInHistory (e : DebugEngine) : Prop :=
  (-1 ≤ currentStepIndex e ≤ Z.of_nat (length (stepHistory e)) - 1)%Z.

(** Snapshot [i] of the history carries the step number [i]. *)
Definition numbered (e : DebugEngine) : Prop :=
  ∀ i snapshot, stepHistory e !! i = Some snapshot →
                stepNumber snapshot = Z.of_nat i.

(** Every snapshot of the history names the array the engine points to as
    its activations, or none. *)
Definition sharesActivations (e : DebugEngine) : Prop :=
  Forall (fun snapshot =>
            stateActivations (networkState snapshot) = None
            ∨ stateActivations (networkState snapshot)
              = Some (forwardActivations e))
         (stepHistory e).

Definition historyOk (e : DebugEngine) : Prop :=
  indexInHistory e ∧ numbered e ∧ sharesActivations e.

(** The fields the three properties are about. *)
Definition frame (e : DebugEngine) : list StepSnapshot * Z * ref :=
  (stepHistory e, currentStepIndex e, forwardActivations e).

(** A relation between the fields before and after a call: what held
    before still holds. *)
Definition preserves {S} (P : S → Prop) : relation S :=
  fun s s' => P s → P s'.

(** When the method returns from the fields [s], its result and the fields
    it leaves satisfy [Q]. *)
Definition returnsFrom {S A} (s : S) (Q : A → S → Prop) (method : Method S A)
    : Prop :=
  ∀ a s', method s = (Ok a, s') → Q a s'.

(** Which gradients each layer of the network holds. *)
Definition gradientsOf (n : Network)
    : list (option Tensor * option (list number)) :=
  (fun l => (weightGrad l, biasGrad l)) <$> layers n.

(** A snapshot taken of the engine [e]. *)
Definition snapshotOf (snapshot : StepSnapshot) (e : DebugEngine) : Prop :=
  networkState snapshot = Engine.getCurrentState e
  ∧ stepNumber snapshot = (currentStepIndex e + 1)%Z.

(** The calls that record one step. *)
Definition stepOf (c : Call) : option (Method DebugEngine StepSnapshot) :=
  match c with
  | CStepForwardLayer now i => Some (Engine.stepForwardLayer now i)
  | CStepComputeLoss now => Some (Engine.stepComputeLoss now)
  | CStepBackwardLossGradient now => Some (Engine.stepBackwardLossGradient now)
  | CStepBackwardLayer now i => Some (Engine.stepBackwardLayer now i)
  | CStepUpdateWeights now lr => Some (Engine.stepUpdateWeights now lr)
  | _ => None
  end.

(** * Properties *)

(** ** Arithmetic on finite numbers *)

Lemma sign_pos (r : R) : (0 < r)%R → Num.sign r = Gt.
Proof.
  intros H. unfold Num.sign.
  destruct (total_order_T r 0) as [[Hlt | Heq] | Hgt]; try done; lra.
Qed.

Lemma sign_neg (r : R) : (r < 0)%R → Num.sign r = Lt.
Proof.
  intros H. unfold Num.sign.
  destruct (total_order_T r 0) as [[Hlt | Heq] | Hgt]; try done; lra.
Qed.

Lemma sign_zero : Num.sign 0 = Eq.
Proof.
  unfold Num.sign.
  destruct (total_order_T 0 0) as [[Hlt | Heq] | Hgt]; try done; lra.
Qed.

Lemma sign_Lt (r : R) : Num.sign r = Lt ↔ (r < 0)%R.
Proof.
  split; [|apply sign_neg]. unfold Num.sign.
  destruct (total_order_T r 0) as [[Hlt | Heq] | Hgt]; done.
Qed.

Lemma sign_Eq (r : R) : Num.sign r = Eq ↔ r = 0%R.
Proof.
  split; [|intros ->; apply sign_zero]. unfold Num.sign.
  destruct (total_order_T r 0) as [[Hlt | Heq] | Hgt]; done.
Qed.

Lemma div_fin (x y : R) : y ≠ 0%R → Fin x ⊘ Fin y = Fin (x / y).
Proof.
  intros Hy. unfold Num.div.
  destruct (Num.sign y) eqn:E; try done. by apply sign_Eq in E.
Qed.

Lemma lt_fin (x y : R) : Num.lt (Fin x) (Fin y) = true ↔ (x < y)%R.
Proof.
  unfold Num.lt. rewrite bool_decide_eq_true, sign_Lt. lra.
Qed.

Lemma isFinite_true (a : number) : Num.isFinite a = true ↔ ∃ r, a = Fin r.
Proof. destruct a; split; try done; eauto; by intros [? ?]. Qed.

(** ** C10: the degenerate cases of the normal equation *)

Module LinearRegressionFacts.
Import LinearRegression.






End LinearRegressionFacts.

Module DoublesFacts.
Import PrimFloat.


End DoublesFacts.

Arguments NeuralNetwork.clip : simpl never.
Arguments sumR : simpl never.
Arguments Num.add !a !b / : simpl nomatch.
Arguments Num.sub !a !b / : simpl nomatch.
Arguments Num.mul !a !b / : simpl nomatch.
Arguments Num.div !a !b / : simpl nomatch.
Arguments Num.max !a !b / : simpl nomatch.
Arguments Num.min !a !b / : simpl nomatch.

(** ** Running a method *)

Ltac run_method :=
  cbv [mbind mret method_bind method_ret this assign try throw
       Optimizers.getBang];
  cbn beta iota.

(** ** Loops that do not throw *)

Lemma traverse_ok {A B} (f : A → res B) (g : A → B) (xs : list A) :
  (∀ x, x ∈ xs → f x = Ok (g x)) → traverse f xs = Ok (g <$> xs).
Proof.
  induction xs as [|x xs IH]; intros Hf; [done|].
  cbn [traverse]. rewrite Hf by apply list_elem_of_here.
  rewrite IH; [done|]. intros y Hy. apply Hf. by apply list_elem_of_further.
Qed.

Lemma traverse_typeError {A B} (f : A → res B) (xs : list A) :
  (∀ x, (∃ y, f x = Ok y) ∨ f x = Throw TypeError) →
  (∃ ys, traverse f xs = Ok ys) ∨ traverse f xs = Throw TypeError.
Proof.
  intros Hf. induction xs as [|x xs IH]; [left; by eexists|].
  cbn [traverse]. destruct (Hf x) as [[y ->] | ->]; [|by right].
  destruct IH as [[ys ->] | ->]; [left; by eexists | by right].
Qed.

Lemma zipWithTensor_ok (f : number → number → number)
    (a b : list (list number)) :
  length a ≤ length b →
  zipWithTensor f a b
  = Ok (imap (fun i row => imap (fun j val => f val (at1 (rowAt b i) j)) row) a).
Proof.
  intros Hlen. unfold zipWithTensor.
  rewrite (traverse_ok _ (fun '(i, row) =>
    imap (fun j val => f val (at1 (rowAt b i) j)) row)).
  - f_equal. rewrite fmap_imap. by apply imap_ext.
  - intros [i row] Hin. apply elem_of_lookup_imap in Hin as (i' & row' & Heq & Hi).
    inversion Heq; subst i' row'. apply lookup_lt_Some in Hi.
    destruct (lookup_lt_is_Some_2 b i) as [brow Hb]; [lia|].
    unfold rowAt. rewrite Hb. by destruct row.
Qed.

Lemma zipWithTensor_typeError (f : number → number → number)
    (a b : list (list number)) :
  (∃ d, zipWithTensor f a b = Ok d) ∨ zipWithTensor f a b = Throw TypeError.
Proof.
  apply traverse_typeError. intros [i row].
  destruct row; [left; by eexists|].
  destruct (b !! i); [left; by eexists | by right].
Qed.

Lemma traverse_inv {A B} (f : A → res B) (g : A → B) (xs : list A)
    (ys : list B) :
  (∀ x y, x ∈ xs → f x = Ok y → y = g x) →
  traverse f xs = Ok ys → ys = g <$> xs.
Proof.
  revert ys. induction xs as [|x xs IH]; intros ys Hf; cbn [traverse].
  - by intros [= <-].
  - destruct (f x) as [y|] eqn:Ey; [|done].
    destruct (traverse f xs) as [ys'|] eqn:Eys; [|done].
    intros [= <-]. cbn. f_equal.
    + apply Hf; [apply list_elem_of_here | done].
    + apply IH; [|done]. intros x' y' Hin. apply Hf.
      by apply list_elem_of_further.
Qed.

Lemma zipWithTensor_inv (f : number → number → number)
    (a b d : list (list number)) :
  zipWithTensor f a b = Ok d →
  d = imap (fun i row => imap (fun j val => f val (at1 (rowAt b i) j)) row) a.
Proof.
  intros Hd. unfold zipWithTensor in Hd.
  apply (traverse_inv _ (fun '(i, row) =>
    imap (fun j val => f val (at1 (rowAt b i) j)) row)) in Hd.
  - rewrite Hd, fmap_imap. by apply imap_ext.
  - intros [i row] y _. destruct row as [|val row]; [by intros [= <-]|].
    unfold rowAt. destruct (b !! i); [|done]. by intros [= <-].
Qed.

Lemma at1_imap (f : nat → number → number) (v : list number) (j : nat) :
  f j NaN = NaN → at1 (imap f v) j = f j (at1 v j).
Proof.
  intros HNaN. unfold at1. rewrite list_lookup_imap.
  by destruct (v !! j).
Qed.

(** An entry of an elementwise combination, for an operation that gives
    [NaN] on a missing left operand. *)
Lemma entry_zipWithTensor (f : number → number → number)
    (a b d : list (list number)) (i j : nat) :
  (∀ y, f NaN y = NaN) →
  zipWithTensor f a b = Ok d →
  at1 (rowAt d i) j = f (at1 (rowAt a i) j) (at1 (rowAt b i) j).
Proof.
  intros HNaN Hd. rewrite (zipWithTensor_inv _ _ _ _ Hd).
  unfold rowAt at 1 3. rewrite list_lookup_imap.
  destruct (a !! i) as [row|]; cbn.
  - by rewrite at1_imap.
  - by rewrite HNaN.
Qed.

Lemma at1_fmap (f : number → number) (v : list number) (j : nat) :
  f NaN = NaN → at1 (f <$> v) j = f (at1 v j).
Proof.
  intros HNaN. unfold at1. rewrite list_lookup_fmap.
  by destruct (v !! j).
Qed.

Lemma rowAt_fmap (f : list number → list number) (d : list (list number))
    (i : nat) : f [] = [] → rowAt (f <$> d) i = f (rowAt d i).
Proof.
  intros Hnil. unfold rowAt. rewrite list_lookup_fmap. by destruct (d !! i).
Qed.

Lemma at1_rowAt_fmap (f : number → number) (d : list (list number))
    (i j : nat) :
  f NaN = NaN → at1 (rowAt (map (map f) d) i) j = f (at1 (rowAt d i) j).
Proof.
  intros HNaN. rewrite (rowAt_fmap (map f)) by done. by apply at1_fmap.
Qed.

(** ** C4: the plain gradient step of a layer *)

Module LayerFacts.
Import NeuralNetwork LayerM.

Lemma clip_NaN (c : number) : clip c NaN = NaN.
Proof. unfold clip. by destruct c. Qed.

Lemma clip_range (g : number) :
  g ≠ NaN → ∃ r, clip clipValue g = Fin r ∧ (-5 <= r <= 5)%R.
Proof.
  intros Hg. unfold clip, clipValue.
  destruct g as [x| | |]; cbn; [| | |done].
  - eexists; split; [done|]. unfold Rmax, Rmin.
    repeat destruct (Rle_dec _ _); lra.
  - eexists; split; [done|]. unfold Rmax. destruct (Rle_dec _ _); lra.
  - eexists; split; [done|]. lra.
Qed.

Lemma clip_values (g : R) :
  ((-5 <= g <= 5)%R → clip clipValue (Fin g) = Fin g)
  ∧ ((5 < g)%R → clip clipValue (Fin g) = Fin 5)
  ∧ ((g < -5)%R → clip clipValue (Fin g) = Fin (-5)).
Proof.
  unfold clip, clipValue. cbn.
  repeat split; intros Hg; f_equal; unfold Rmax, Rmin;
    repeat destruct (Rle_dec _ _); lra.
Qed.

Lemma clip_infinite :
  clip clipValue PosInf = Fin 5 ∧ clip clipValue NegInf = Fin (-5)
  ∧ clip clipValue NaN = NaN.
Proof.
  unfold clip, clipValue. cbn. split; [|done]. f_equal.
  unfold Rmax. destruct (Rle_dec _ _); lra.
Qed.

(** C4.  [updateWeights(lr)] changes nothing when a gradient is absent.
    With both gradients present (and a gradient row for every weight row)
    the call returns, every weight is [w - clip(g) * lr], replaced by [0]
    when that is not finite, every bias is [b - lr * clip(g)], kept at [b]
    when that is not finite; [clip] leaves a gradient of [[-5, 5]] as it is
    and replaces one beyond, the infinities included, by the bound it
    exceeds, [5] or [-5]; so all weights are finite afterwards, and all
    biases are when they were before. *)
Theorem updateWeights_spec (l : Layer) (lr : number) :
  (weightGrad l = None ∨ biasGrad l = None → updateWeights lr l = (Ok (), l))
  ∧ (∀ wGrad bGrad,
       weightGrad l = Some wGrad → biasGrad l = Some bGrad →
       length (data (weights l)) ≤ length (data wGrad) →
       ∃ l', updateWeights lr l = (Ok (), l')
         ∧ data (weights l')
           = imap (fun i row => imap (fun j w =>
               let val := w ⊖ clip clipValue (entry wGrad i j) ⊗ lr in
               if Num.isFinite val then val else Fin 0) row) (data (weights l))
         ∧ bias l'
           = imap (fun i b =>
               let newVal := b ⊖ lr ⊗ clip clipValue (at1 bGrad i) in
               if Num.isFinite newVal then newVal else b) (bias l)
         ∧ allFinite (weights l')
         ∧ (Forall finite (bias l) → Forall finite (bias l')))
  ∧ (∀ g : R,
       ((-5 <= g <= 5)%R → clip clipValue (Fin g) = Fin g)
       ∧ ((5 < g)%R → clip clipValue (Fin g) = Fin 5)
       ∧ ((g < -5)%R → clip clipValue (Fin g) = Fin (-5)))
  ∧ (clip clipValue PosInf = Fin 5 ∧ clip clipValue NegInf = Fin (-5)
     ∧ clip clipValue NaN = NaN)
  ∧ (∀ g, g ≠ NaN → ∃ r, clip clipValue g = Fin r ∧ (-5 <= r <= 5)%R)
  ∧ (∀ r l', updateWeights lr l = (r, l') →
       r = Ok () ∨ (r = Throw TypeError ∧ l' = l)).
Proof.
  split; [|split; [|split; [exact clip_values|
                     split; [exact clip_infinite|
                     split; [exact clip_range|]]]]]; cycle 2.
  { intros r l'. unfold updateWeights. run_method.
    destruct (weightGrad l) as [wGrad|]; [|intros [= <- <-]; by left].
    destruct (biasGrad l) as [bGrad|]; [|intros [= <- <-]; by left].
    unfold NeuralNetwork.subtract. cbv [mbind res_bind].
    destruct (zipWithTensor_typeError Num.sub (data (weights l))
      (data (NeuralNetwork.multiplyScalar
               (NeuralNetwork.clipTensor wGrad clipValue) lr)))
      as [[d ->] | ->]; intros [= <- <-]; [by left | by right]. }
  - intros Habsent. unfold updateWeights. run_method.
    destruct Habsent as [-> | ->]; [done|]. by destruct (weightGrad l).
  - intros wGrad bGrad HwG HbG Hlen.
    assert (Hsub : subtract (weights l)
                     (multiplyScalar (clipTensor wGrad clipValue) lr)
        = Ok {| data := imap (fun i row => imap (fun j w =>
                    w ⊖ clip clipValue (entry wGrad i j) ⊗ lr) row)
                  (data (weights l));
                rows := rows (weights l); cols := cols (weights l) |}).
    { unfold subtract. rewrite zipWithTensor_ok.
      - cbn. do 2 f_equal. apply imap_ext. intros i row _.
        apply imap_ext. intros j w _. f_equal. unfold entry.
        rewrite (at1_rowAt_fmap (fun val => val ⊗ lr)) by done.
        by rewrite (at1_rowAt_fmap (clip clipValue)) by apply clip_NaN.
      - cbn. by rewrite !length_fmap. }
    eexists. split; [|split; [|split; [|split]]].
    + unfold updateWeights. run_method. rewrite HwG, HbG, Hsub. reflexivity.
    + cbn. rewrite fmap_imap. apply imap_ext. intros i row _. cbn.
      rewrite fmap_imap. by apply imap_ext.
    + cbn. apply imap_ext. intros i b _. cbn.
      by rewrite (at1_fmap (clip clipValue)) by apply clip_NaN.
    + unfold allFinite. cbn. apply Forall_fmap, Forall_forall. intros row _.
      apply Forall_fmap, Forall_forall. intros val _. unfold finite. cbn.
      by destruct (Num.isFinite val) eqn:E.
    + intros Hfin. cbn. apply Forall_lookup. intros i b' Hb'.
      rewrite list_lookup_imap in Hb'.
      destruct (bias l !! i) as [b0|] eqn:E; [|done]. cbn in Hb'.
      injection Hb' as <-.
      assert (finite b0) by (eapply Forall_lookup_1; eauto).
      unfold finite.
      by destruct (Num.isFinite (b0 ⊖ lr ⊗ at1 (map (clip clipValue) bGrad) i)) eqn:E'.
Qed.

Lemma updateWeights_spec_witness :
  ∃ l', updateWeights (Fin 1) Samples.blownUpLayer = (Ok (), l')
        ∧ data (weights l') = [[Fin (-4); Fin 0]]
        ∧ bias l' = [Fin (-5)]
        ∧ allFinite (weights l').
Proof.
  destruct (proj1 (proj2 (updateWeights_spec Samples.blownUpLayer (Fin 1)))
              _ _ eq_refl eq_refl) as (l' & Hrun & Hw & Hb & Hfin & _).
  - cbn. lia.
  - exists l'. split; [done|].
    destruct (clip_values 10) as (_ & Hbig & _).
    destruct clip_infinite as (Hinf & _ & Hnan).
    split; [|split; [|done]].
    + rewrite Hw. unfold entry, rowAt, at1. cbn -[clip clipValue].
      rewrite Hbig by lra. rewrite Hnan. cbn.
      do 3 f_equal. lra.
    + rewrite Hb. unfold at1. cbn -[clip clipValue].
      rewrite Hinf. cbn. do 2 f_equal. lra.
Defined.

End LayerFacts.

(** ** Methods that keep a relation between the fields before and after *)

Lemma keeps_bind {S A B} (R : relation S) `{!Transitive R}
    (method : Method S A) (k : A → Method S B) :
  keeps R method → (∀ a, keeps R (k a)) → keeps R (method ≫= k).
Proof.
  intros Hm Hk s. cbv [mbind method_bind]. specialize (Hm s).
  destruct (method s) as [[a|e] s']; cbn in Hm |- *; [|done].
  etrans; [exact Hm | apply Hk].
Qed.

Lemma keeps_pure {S A} (R : relation S) `{!Reflexive R} (method : Method S A) :
  (∀ s, (method s).2 = s) → keeps R method.
Proof. intros H s. by rewrite H. Qed.

Lemma keeps_assign {S} (R : relation S) (f : S → S) :
  (∀ s, R s (f s)) → keeps R (assign f).
Proof. intros H s. apply H. Qed.

#[global] Instance preserves_refl {S} (P : S → Prop) : Reflexive (preserves P).
Proof. by intros s H. Qed.
#[global] Instance preserves_trans {S} (P : S → Prop) : Transitive (preserves P).
Proof. intros s1 s2 s3 H12 H23 H. by apply H23, H12. Qed.

Ltac keeps_step :=
  lazymatch goal with
  | |- keeps _ (_ ≫= _) => apply keeps_bind; [tc_solve | | intros ?]
  | |- keeps _ (assign _) => apply keeps_assign; intros ?
  | |- keeps _ (Optimizers.getBang ?c) =>
      destruct c; (apply keeps_pure; [tc_solve | by intros ?])
  | |- keeps _ (match ?c with Some _ => _ | None => _ end) => destruct c
  | |- keeps _ (if ?c then _ else _) => destruct c
  | |- keeps _ (match ?c with _ => _ end) => destruct c
  | |- keeps _ _ => apply keeps_pure; [tc_solve | by intros ?]
  end.

(** ** C3: Adam's step counter *)

Module AdamFacts.
Import Optimizers.

#[local] Instance sameT_refl : Reflexive sameT.
Proof. by intros s. Qed.
#[local] Instance sameT_trans : Transitive sameT.
Proof. intros s1 s2 s3 H12 H23. unfold sameT in *. congruence. Qed.

Lemma adamUpdate_t (weights gradients : Tensor) (lr : number) (s : Adam) :
  t (adamUpdate weights gradients lr s).2 = t s + 1.
Proof.
  unfold adamUpdate.
  match goal with
  | |- t ((assign ?f ≫= ?k) s).2 = _ =>
      assert (Hk : keeps sameT (k ())) by (repeat keeps_step; done);
      exact (Hk (f s))
  end.
Qed.

Lemma adamUpdateBias_t (bias gradients : list number) (lr : number) (s : Adam) :
  t (adamUpdateBias bias gradients lr s).2 = t s + 1.
Proof.
  unfold adamUpdateBias.
  match goal with
  | |- t ((assign ?f ≫= ?k) s).2 = _ =>
      assert (Hk : keeps sameT (k ())) by (repeat keeps_step; done);
      exact (Hk (f s))
  end.
Qed.

Lemma entry_multiplyScalar (a : Tensor) (scalar : number) (i j : nat) :
  entry (multiplyScalar a scalar) i j = entry a i j ⊗ scalar.
Proof.
  unfold entry, multiplyScalar, NeuralNetwork.multiplyScalar. cbn [data].
  by rewrite (at1_rowAt_fmap (fun val => val ⊗ scalar)).
Qed.

Lemma entry_sqrt (a : Tensor) (i j : nat) :
  entry (sqrt a) i j = Num.sqrt (entry a i j).
Proof.
  unfold entry, sqrt. cbn [data]. by rewrite (at1_rowAt_fmap Num.sqrt).
Qed.

Lemma entry_add (a b r : Tensor) (i j : nat) :
  add a b = Ok r → entry r i j = entry a i j ⊕ entry b i j.
Proof.
  unfold add, NeuralNetwork.add. cbv [mbind res_bind].
  destruct (zipWithTensor _ _ _) as [d|] eqn:E; [|done]. intros [= <-].
  by apply (entry_zipWithTensor Num.add).
Qed.

Lemma entry_subtract (a b r : Tensor) (i j : nat) :
  subtract a b = Ok r → entry r i j = entry a i j ⊖ entry b i j.
Proof.
  unfold subtract, NeuralNetwork.subtract. cbv [mbind res_bind].
  destruct (zipWithTensor _ _ _) as [d|] eqn:E; [|done]. intros [= <-].
  by apply (entry_zipWithTensor Num.sub).
Qed.

Lemma entry_elementwiseMultiply (a b r : Tensor) (i j : nat) :
  elementwiseMultiply a b = Ok r → entry r i j = entry a i j ⊗ entry b i j.
Proof.
  unfold elementwiseMultiply. cbv [mbind res_bind].
  destruct (zipWithTensor _ _ _) as [d|] eqn:E; [|done]. intros [= <-].
  by apply (entry_zipWithTensor Num.mul).
Qed.

Lemma entry_elementwiseDivide (a b r : Tensor) (eps : number) (i j : nat) :
  elementwiseDivide a b eps = Ok r →
  entry r i j = entry a i j ⊘ (entry b i j ⊕ eps).
Proof.
  unfold elementwiseDivide. cbv [mbind res_bind].
  destruct (zipWithTensor _ _ _) as [d|] eqn:E; [|done]. intros [= <-].
  by apply (entry_zipWithTensor (fun val x => val ⊘ (x ⊕ eps))).
Qed.

Lemma adamWeight_pipeline (T : nat) (weights gradients : Tensor) (lr : number)
    (m0 v0 mNew g2 vNew update r : Tensor) :
  add (multiplyScalar m0 beta1) (multiplyScalar gradients (Fin 1 ⊖ beta1))
  = Ok mNew →
  elementwiseMultiply gradients gradients = Ok g2 →
  add (multiplyScalar v0 beta2) (multiplyScalar g2 (Fin 1 ⊖ beta2))
  = Ok vNew →
  elementwiseDivide
    (multiplyScalar
       (multiplyScalar mNew (Fin 1 ⊘ (Fin 1 ⊖ Num.pow beta1 T))) lr)
    (sqrt (multiplyScalar vNew (Fin 1 ⊘ (Fin 1 ⊖ Num.pow beta2 T))))
    epsilon = Ok update →
  subtract weights update = Ok r →
  ∀ i j, entry r i j
         = adamWeightEntry T (entry m0 i j) (entry v0 i j)
             (entry weights i j) (entry gradients i j) lr.
Proof.
  intros HmNew Hg2 HvNew Hupdate Hr i j.
  rewrite (entry_subtract _ _ _ _ _ Hr).
  rewrite (entry_elementwiseDivide _ _ _ _ _ _ Hupdate).
  rewrite entry_sqrt, !entry_multiplyScalar.
  rewrite (entry_add _ _ _ _ _ HmNew), (entry_add _ _ _ _ _ HvNew).
  rewrite !entry_multiplyScalar.
  by rewrite (entry_elementwiseMultiply _ _ _ _ _ Hg2).
Qed.

Lemma adamUpdate_entries (weights gradients : Tensor) (lr : number) (s : Adam)
    (r : Tensor) :
  (adamUpdate weights gradients lr s).1 = Ok r →
  ∃ m0 v0,
    (m s !! getKey weights = None
     ∧ m0 = zerosLike gradients ∧ v0 = zerosLike gradients
     ∨ m s !! getKey weights = Some m0 ∧ v s !! getKey weights = Some v0)
    ∧ ∀ i j, entry r i j
             = adamWeightEntry (t s + 1) (entry m0 i j) (entry v0 i j)
                 (entry weights i j) (entry gradients i j) lr.
Proof.
  unfold adamUpdate. run_method. cbn [m v t biasM biasV].
  destruct (m s !! getKey weights) as [m0|] eqn:Em.
  - rewrite bool_decide_eq_false_2 by done. cbn [m v t biasM biasV].
    rewrite Em. run_method.
    destruct (add (multiplyScalar m0 _) _) as [mNew|] eqn:HmNew; [|done].
    destruct (elementwiseMultiply _ _) as [g2|] eqn:Hg2; [|done].
    destruct (v s !! getKey weights) as [v0|] eqn:Ev; run_method; [|done].
    destruct (add (multiplyScalar v0 _) _) as [vNew|] eqn:HvNew; [|done].
    cbn [m v t biasM biasV].
    destruct (elementwiseDivide _ _ _) as [update|] eqn:Hupdate; [|done].
    cbn [fst]. intros Hr. exists m0, v0. split; [by right|].
    by eapply adamWeight_pipeline.
  - rewrite bool_decide_eq_true_2 by done. cbn [m v t biasM biasV].
    rewrite !lookup_insert_eq. run_method.
    destruct (add (multiplyScalar _ beta1) _) as [mNew|] eqn:HmNew; [|done].
    destruct (elementwiseMultiply _ _) as [g2|] eqn:Hg2; [|done].
    destruct (add (multiplyScalar _ beta2) _) as [vNew|] eqn:HvNew; [|done].
    cbn [m v t biasM biasV].
    destruct (elementwiseDivide _ _ _) as [update|] eqn:Hupdate; [|done].
    cbn [fst]. intros Hr. exists (zerosLike gradients), (zerosLike gradients).
    split; [by left|]. by eapply adamWeight_pipeline.
Qed.

Lemma adamUpdateBias_entries (bias gradients : list number) (lr : number)
    (s : Adam) (r : list number) :
  (adamUpdateBias bias gradients lr s).1 = Ok r →
  ∃ m0 v0,
    (biasM s !! getBiasKey bias = None
     ∧ m0 = replicate (length bias) (Fin 0)
     ∧ v0 = replicate (length bias) (Fin 0)
     ∨ biasM s !! getBiasKey bias = Some m0
       ∧ biasV s !! getBiasKey bias = Some v0)
    ∧ r = imap (fun i b => adamBiasEntry (t s + 1) (at1 m0 i) (at1 v0 i) b
                             (at1 gradients i) lr) bias.
Proof.
  assert (Hformula : ∀ m0 v0 : list number,
    imap (fun i b =>
      b ⊖ lr ⊗ at1 (map (fun mi => mi ⊘ (Fin 1 ⊖ Num.pow beta1 (t s + 1)))
                      (imap (fun i mi => beta1 ⊗ mi
                                         ⊕ (Fin 1 ⊖ beta1) ⊗ at1 gradients i)
                            m0)) i
        ⊘ (Num.sqrt
             (at1 (map (fun vi => vi ⊘ (Fin 1 ⊖ Num.pow beta2 (t s + 1)))
                     (imap (fun i vi => beta2 ⊗ vi
                                        ⊕ (Fin 1 ⊖ beta2) ⊗ at1 gradients i
                                          ⊗ at1 gradients i) v0)) i)
           ⊕ epsilon)) bias
    = imap (fun i b => adamBiasEntry (t s + 1) (at1 m0 i) (at1 v0 i) b
                         (at1 gradients i) lr) bias).
  { intros m0 v0. apply imap_ext. intros i b _. unfold adamBiasEntry.
    rewrite (at1_fmap (fun mi => mi ⊘ _)) by done.
    rewrite (at1_fmap (fun vi => vi ⊘ _)) by done.
    rewrite (at1_imap (fun i mi => beta1 ⊗ mi ⊕ _)) by done.
    by rewrite (at1_imap (fun i vi => beta2 ⊗ vi ⊕ _)) by done. }
  unfold adamUpdateBias. run_method. cbn [m v t biasM biasV].
  destruct (biasM s !! getBiasKey bias) as [m0|] eqn:Em.
  - rewrite bool_decide_eq_false_2 by done. cbn [m v t biasM biasV].
    rewrite Em. run_method.
    destruct (biasV s !! getBiasKey bias) as [v0|] eqn:Ev; run_method; [|done].
    cbn [m v t biasM biasV fst]. intros [= <-].
    exists m0, v0. split; [by right|]. apply Hformula.
  - rewrite bool_decide_eq_true_2 by done. cbn [m v t biasM biasV].
    rewrite !lookup_insert_eq. run_method.
    cbn [m v t biasM biasV fst]. intros [= <-].
    eexists _, _. split; [by left|]. apply Hformula.
Qed.

Lemma zipWithTensor_total (f : number → number → number)
    (a b : list (list number)) :
  length a ≤ length b →
  ∃ d, zipWithTensor f a b = Ok d ∧ length d = length a.
Proof.
  intros Hlen. eexists. split; [by apply zipWithTensor_ok|].
  by rewrite length_imap.
Qed.

(** On a fresh optimizer the weight update returns as soon as the gradient
    has a row for every row of the weights; it leaves the bias moments
    untouched. *)
Lemma adamUpdate_fresh (weights gradients : Tensor) (lr : number) :
  length (data weights) ≤ length (data gradients) →
  ∃ r s1, adamUpdate weights gradients lr newAdam = (Ok r, s1)
          ∧ biasM s1 = ∅ ∧ biasV s1 = ∅.
Proof.
  intros Hlen. unfold adamUpdate. run_method. cbn [m v t biasM biasV newAdam].
  rewrite lookup_empty, bool_decide_eq_true_2 by done.
  cbn [m v t biasM biasV]. rewrite !lookup_insert_eq. run_method.
  unfold add, NeuralNetwork.add, elementwiseMultiply, elementwiseDivide,
    subtract, NeuralNetwork.subtract. cbv [mbind res_bind].
  destruct (zipWithTensor_total Num.add
    (data (multiplyScalar (zerosLike gradients) beta1))
    (data (multiplyScalar gradients (Fin 1 ⊖ beta1)))) as (mNew & -> & HmNew).
  { cbn. by rewrite !length_fmap. }
  destruct (zipWithTensor_total Num.mul (data gradients) (data gradients))
    as (g2 & -> & Hg2); [done|].
  destruct (zipWithTensor_total Num.add
    (data (multiplyScalar (zerosLike gradients) beta2))
    (data (multiplyScalar
             {| data := g2; rows := rows gradients; cols := cols gradients |}
             (Fin 1 ⊖ beta2)))) as (vNew & -> & HvNew).
  { cbn. rewrite !length_fmap. lia. }
  cbn in HmNew, HvNew. rewrite !length_fmap in HmNew, HvNew.
  cbn [m v t biasM biasV data rows cols multiplyScalar
       NeuralNetwork.multiplyScalar zerosLike].
  match goal with
  | |- context [zipWithTensor ?f ?a ?b] =>
      destruct (zipWithTensor_total f a b) as (update & -> & Hupdate)
  end.
  { cbn. rewrite !length_fmap. lia. }
  cbn in Hupdate. rewrite !length_fmap in Hupdate.
  match goal with
  | |- context [zipWithTensor ?f ?a ?b] =>
      destruct (zipWithTensor_total f a b) as (r & -> & Hr)
  end.
  { cbn. lia. }
  by eexists _, _.
Qed.

Lemma adamUpdateBias_fresh (bias gradients : list number) (lr : number)
    (s : Adam) :
  biasM s !! getBiasKey bias = None →
  ∃ r, (adamUpdateBias bias gradients lr s).1 = Ok r.
Proof.
  intros Em. unfold adamUpdateBias. run_method. cbn [m v t biasM biasV].
  rewrite Em, bool_decide_eq_true_2 by done. cbn [m v t biasM biasV].
  rewrite !lookup_insert_eq. run_method. by eexists.
Qed.

Lemma correction_values :
  Fin 1 ⊖ Num.pow beta1 1 = Fin (1 / 10)
  ∧ Fin 1 ⊖ Num.pow beta1 2 = Fin (19 / 100).
Proof. unfold beta1. cbn. split; f_equal; lra. Qed.

(** C3.  Every call of [Adam.update] and of [Adam.updateBias], returning or
    throwing, adds exactly one to the one counter [t]; the result of a call
    made at counter [t] is Adam's rule with both bias corrections taken at
    [t + 1]; so on a fresh optimizer a weight update uses the corrections
    for step 1 ([1 - 0.9^1 = 0.1]) and the bias update that follows uses
    those for step 2 ([1 - 0.9^2 = 0.19]). *)
Theorem adam_shared_step_counter :
  (∀ weights gradients lr s,
     t (adamUpdate weights gradients lr s).2 = t s + 1)
  ∧ (∀ bias gradients lr s,
       t (adamUpdateBias bias gradients lr s).2 = t s + 1)
  ∧ (∀ weights gradients lr s r,
       (adamUpdate weights gradients lr s).1 = Ok r →
       ∃ m0 v0,
         (m s !! getKey weights = None
          ∧ m0 = zerosLike gradients ∧ v0 = zerosLike gradients
          ∨ m s !! getKey weights = Some m0 ∧ v s !! getKey weights = Some v0)
         ∧ ∀ i j, entry r i j
                  = adamWeightEntry (t s + 1) (entry m0 i j) (entry v0 i j)
                      (entry weights i j) (entry gradients i j) lr)
  ∧ (∀ bias gradients lr s r,
       (adamUpdateBias bias gradients lr s).1 = Ok r →
       ∃ m0 v0,
         (biasM s !! getBiasKey bias = None
          ∧ m0 = replicate (length bias) (Fin 0)
          ∧ v0 = replicate (length bias) (Fin 0)
          ∨ biasM s !! getBiasKey bias = Some m0
            ∧ biasV s !! getBiasKey bias = Some v0)
         ∧ r = imap (fun i b => adamBiasEntry (t s + 1) (at1 m0 i) (at1 v0 i)
                                  b (at1 gradients i) lr) bias)
  ∧ (∀ weights gradients lr bias biasGradients,
       length (data weights) ≤ length (data gradients) →
       ∃ r s1 s2,
         adamUpdate weights gradients lr newAdam = (Ok r, s1)
         ∧ t s1 = 1
         ∧ (∀ i j, entry r i j
                   = adamWeightEntry 1 (entry (zerosLike gradients) i j)
                       (entry (zerosLike gradients) i j)
                       (entry weights i j) (entry gradients i j) lr)
         ∧ adamUpdateBias bias biasGradients lr s1
           = (Ok (imap (fun i b => adamBiasEntry 2 (Fin 0) (Fin 0) b
                                     (at1 biasGradients i) lr) bias), s2)
         ∧ t s2 = 2)
  ∧ Fin 1 ⊖ Num.pow beta1 1 = Fin (1 / 10)
  ∧ Fin 1 ⊖ Num.pow beta1 2 = Fin (19 / 100).
Proof.
  split; [exact adamUpdate_t|]. split; [exact adamUpdateBias_t|].
  split; [exact adamUpdate_entries|]. split; [exact adamUpdateBias_entries|].
  split; [|exact correction_values].
  intros weights gradients lr bias biasGradients Hlen.
  destruct (adamUpdate_fresh weights gradients lr Hlen)
    as (r & s1 & Hrun & HbM & HbV).
  assert (Ht1 : t s1 = 1).
  { pose proof (adamUpdate_t weights gradients lr newAdam) as Ht.
    by rewrite Hrun in Ht. }
  destruct (adamUpdateBias_fresh bias biasGradients lr s1) as [rb Hrb].
  { by rewrite HbM. }
  destruct (adamUpdateBias_entries _ _ _ _ _ Hrb) as (m0 & v0 & Hcase & ->).
  destruct Hcase as [(_ & -> & ->) | [Habs _]]; [|by rewrite HbM in Habs].
  exists r, s1, (adamUpdateBias bias biasGradients lr s1).2.
  split; [done|]. split; [done|]. split; [|split].
  - destruct (adamUpdate_entries weights gradients lr newAdam r)
      as (m0 & v0 & Hcase & Hentries); [by rewrite Hrun|].
    destruct Hcase as [(_ & -> & ->) | [Habs _]]; [|done].
    exact Hentries.
  - destruct (adamUpdateBias bias biasGradients lr s1) as [rb' s2] eqn:E.
    cbn in Hrb. subst rb'. cbn [snd]. f_equal. f_equal. rewrite Ht1.
    apply imap_ext. intros i b Hi. apply lookup_lt_Some in Hi.
    unfold at1. by rewrite !lookup_replicate_2.
  - by rewrite adamUpdateBias_t, Ht1.
Qed.

Lemma adam_shared_step_counter_witness :
  ∃ r s1 s2,
    adamUpdate AdamSamples.w AdamSamples.g AdamSamples.lr newAdam = (Ok r, s1)
    ∧ t s1 = 1
    ∧ adamUpdateBias AdamSamples.b AdamSamples.gb AdamSamples.lr s1
      = (Ok (imap (fun i b => adamBiasEntry 2 (Fin 0) (Fin 0) b
                                (at1 AdamSamples.gb i) AdamSamples.lr)
               AdamSamples.b), s2)
    ∧ t s2 = 2.
Proof.
  destruct (proj1 (proj2 (proj2 (proj2 (proj2 adam_shared_step_counter))))
              AdamSamples.w AdamSamples.g AdamSamples.lr AdamSamples.b
              AdamSamples.gb) as (r & s1 & s2 & H1 & H2 & _ & H3 & H4).
  - cbn. lia.
  - by exists r, s1, s2.
Defined.

End AdamFacts.

(** ** C8: transposition and the identity tensor *)

Module TensorFacts.
Import NeuralNetwork.

Lemma lookup_tabulate (n k : nat) (f : nat → nat → number) (i : nat) :
  i < n → tabulate n k f !! i = Some (f i <$> seq 0 k).
Proof.
  intros Hi. unfold tabulate. rewrite list_lookup_fmap.
  by rewrite lookup_seq_lt.
Qed.

Lemma entry_tabulate (n k : nat) (f : nat → nat → number) (i j : nat)
    (r c : nat) :
  i < n → j < k →
  entry {| data := tabulate n k f; rows := r; cols := c |} i j = f i j.
Proof.
  intros Hi Hj. unfold entry, rowAt, at1. cbn [data].
  rewrite lookup_tabulate by done. cbn.
  by rewrite list_lookup_fmap, lookup_seq_lt.
Qed.

Lemma wellFormed_tabulate (n k : nat) (f : nat → nat → number) :
  wellFormed {| data := tabulate n k f; rows := n; cols := k |}.
Proof.
  split; cbn.
  - unfold tabulate. by rewrite length_fmap, length_seq.
  - unfold tabulate. apply Forall_fmap, Forall_forall. intros i _. cbn.
    by rewrite length_fmap, length_seq.
Qed.

(** A well-formed tensor is the table of its entries. *)
Lemma data_tabulate (t : Tensor) :
  wellFormed t → data t = tabulate (rows t) (cols t) (entry t).
Proof.
  intros [Hrows Hcols]. apply list_eq. intros i.
  destruct (decide (i < rows t)) as [Hi|Hi].
  - rewrite lookup_tabulate by done.
    destruct (lookup_lt_is_Some_2 (data t) i) as [row Hrow]; [lia|].
    rewrite Hrow. f_equal.
    assert (Hlen : length row = cols t).
    { eapply (Forall_lookup_1 _ _ _ _ Hcols Hrow). }
    apply list_eq. intros j. rewrite list_lookup_fmap.
    destruct (decide (j < cols t)) as [Hj|Hj].
    + rewrite lookup_seq_lt by done. cbn. unfold entry, rowAt, at1.
      rewrite Hrow. cbn.
      destruct (lookup_lt_is_Some_2 row j) as [x Hx]; [lia|]. by rewrite Hx.
    + rewrite lookup_seq_ge by lia. cbn. apply lookup_ge_None_2. lia.
  - rewrite (lookup_ge_None_2 (data t)) by lia.
    symmetry. apply lookup_ge_None_2. unfold tabulate.
    rewrite length_fmap, length_seq. lia.
Qed.

Lemma at2_entry (t : Tensor) (i j : nat) :
  i < length (data t) → at2 (data t) i j = Ok (entry t i j).
Proof.
  intros Hi. unfold at2, entry, rowAt.
  destruct (lookup_lt_is_Some_2 (data t) i) as [row Hrow]; [lia|].
  by rewrite Hrow.
Qed.

Lemma traverse_seq {B} (f : nat → res B) (g : nat → B) (n : nat) :
  (∀ i, i < n → f i = Ok (g i)) → traverse f (seq 0 n) = Ok (g <$> seq 0 n).
Proof.
  intros Hf. apply traverse_ok. intros i Hi. apply Hf.
  apply elem_of_seq in Hi. lia.
Qed.

Lemma transpose_transposed (t : Tensor) :
  rows t ≤ length (data t) → transpose t = Ok (transposed t).
Proof.
  intros Hrows. unfold transpose.
  rewrite (traverse_seq _ (fun j => (fun i => entry t i j) <$> seq 0 (rows t)));
    [done|].
  intros j _. apply traverse_seq. intros i Hi. apply at2_entry. lia.
Qed.

Lemma matmulSum_dot (a b : Tensor) (i j : nat) (ks : list nat) (sum : number) :
  i < length (data a) → (∀ k, k ∈ ks → k < length (data b)) →
  matmulSum a b i j ks sum = Ok (dot a b i j ks sum).
Proof.
  intros Hi. revert sum. induction ks as [|k ks IH]; intros sum Hks; [done|].
  cbn [matmulSum]. rewrite (at2_entry a i k) by done.
  rewrite (at2_entry b k j) by (apply Hks, list_elem_of_here).
  cbv [mbind res_bind]. rewrite IH; [done|].
  intros k' Hk'. by apply Hks, list_elem_of_further.
Qed.

Lemma matmul_product (a b : Tensor) :
  rows a ≤ length (data a) → cols a ≤ length (data b) →
  matmul a b = Ok (product a b).
Proof.
  intros Ha Hb. unfold matmul.
  rewrite (traverse_seq _ (fun i =>
    (fun j => dot a b i j (seq 0 (cols a)) (Fin 0)) <$> seq 0 (cols b)));
    [done|].
  intros i Hi. apply traverse_seq. intros j _. apply matmulSum_dot; [lia|].
  intros k Hk. apply elem_of_seq in Hk. lia.
Qed.

Lemma tabulate_ext (n k : nat) (f g : nat → nat → number) :
  (∀ i j, i < n → j < k → f i j = g i j) → tabulate n k f = tabulate n k g.
Proof.
  intros Hfg. unfold tabulate. apply list_fmap_ext. intros ? i Hi.
  apply lookup_seq in Hi as [-> Hi]. apply list_fmap_ext. intros ? j Hj.
  apply lookup_seq in Hj as [-> Hj]. by apply Hfg.
Qed.

Lemma transposed_involutive (t : Tensor) :
  wellFormed t → transposed (transposed t) = t.
Proof.
  intros Hwf. unfold transposed at 1. cbn [rows cols].
  pose proof (data_tabulate _ Hwf) as Hdata.
  destruct t as [d r c]. cbn [data rows cols transposed] in *. f_equal.
  etrans; [|symmetry; exact Hdata].
  apply tabulate_ext. intros i j Hi Hj.
  unfold transposed. cbn [rows cols]. by rewrite entry_tabulate.
Qed.

Lemma entry_identity (n k j : nat) :
  k < n → j < n →
  entry (identity n) k j = if bool_decide (k = j) then Fin 1 else Fin 0.
Proof. intros Hk Hj. by apply (entry_tabulate n n). Qed.

Lemma entry_finite (t : Tensor) (i j : nat) :
  wellFormed t → allFinite t → i < rows t → j < cols t →
  ∃ x, entry t i j = Fin x.
Proof.
  intros [Hrows Hcols] Hfin Hi Hj. unfold entry, rowAt, at1.
  destruct (lookup_lt_is_Some_2 (data t) i) as [row Hrow]; [lia|].
  rewrite Hrow. cbn.
  pose proof (Forall_lookup_1 _ _ _ _ Hcols Hrow) as Hlen. cbn in Hlen.
  destruct (lookup_lt_is_Some_2 row j) as [x Hx]; [lia|].
  rewrite Hx. cbn. apply isFinite_true.
  pose proof (Forall_lookup_1 _ _ _ _ Hfin Hrow) as Hrowfin.
  exact (Forall_lookup_1 _ _ _ _ Hrowfin Hx).
Qed.

(** A row of finite entries against column [j] of the identity: the sum
    picks entry [j]. *)
Lemma dot_identity (a : Tensor) (n i j : nat) (ks : list nat) (acc : R) :
  NoDup ks → (∀ k, k ∈ ks → k < n) → j < n →
  (∀ k, k < n → ∃ x, entry a i k = Fin x) →
  dot a (identity n) i j ks (Fin acc)
  = Fin (acc + if bool_decide (j ∈ ks) then realOf (entry a i j) else 0).
Proof.
  intros Hnodup Hks Hj Hfin. revert acc Hnodup Hks.
  induction ks as [|k ks IH]; intros acc Hnodup Hks.
  - rewrite bool_decide_eq_false_2 by apply not_elem_of_nil.
    cbn. f_equal. lra.
  - apply NoDup_cons in Hnodup as [Hk Hnodup]. unfold dot in *. cbn [foldl].
    assert (Hkn : k < n) by apply Hks, list_elem_of_here.
    destruct (Hfin k Hkn) as [x Hx]. rewrite Hx, entry_identity by done.
    assert (Hrest : ∀ k', k' ∈ ks → k' < n)
      by (intros k' Hk'; by apply Hks, list_elem_of_further).
    destruct (decide (k = j)) as [->|Hne].
    + rewrite bool_decide_eq_true_2 by done. cbn [Num.mul Num.add].
      rewrite IH by done. rewrite Hx. cbn [realOf].
      rewrite (bool_decide_eq_false_2 (j ∈ ks)) by done.
      rewrite (bool_decide_eq_true_2 (j ∈ j :: ks)) by apply list_elem_of_here.
      f_equal. lra.
    + rewrite bool_decide_eq_false_2 by done. cbn [Num.mul Num.add].
      rewrite IH by done. f_equal.
      destruct (decide (j ∈ ks)) as [Hin|Hin].
      * rewrite !bool_decide_eq_true_2; [lra| |done].
        by apply list_elem_of_further.
      * rewrite !bool_decide_eq_false_2; [lra| |done].
        rewrite elem_of_cons. by intros [->|?].
Qed.

Lemma product_identity (a : Tensor) :
  wellFormed a → allFinite a → product a (identity (cols a)) = a.
Proof.
  intros Hwf Hfin. unfold product. cbn [cols identity].
  pose proof (data_tabulate _ Hwf) as Hdata.
  destruct a as [d r c]. cbn [data rows cols] in *. f_equal.
  etrans; [|symmetry; exact Hdata].
  apply tabulate_ext. intros i j Hi Hj.
  rewrite (dot_identity _ c).
  - rewrite bool_decide_eq_true_2 by (apply elem_of_seq; lia).
    destruct (entry_finite _ i j Hwf Hfin Hi Hj) as [x ->]. cbn. f_equal. lra.
  - apply NoDup_seq.
  - intros k Hk. apply elem_of_seq in Hk. lia.
  - done.
  - intros k Hk. by apply entry_finite.
Qed.

(** C8 (as amended).  For every well-formed tensor [A], transposing twice
    gives [A] back; and [matmul(A, I)] is [A] for the [cols]×[cols] identity
    [I] when, in addition, every entry of [A] is finite. *)
Theorem transpose_involutive_matmul_identity (A : Tensor) :
  wellFormed A →
  (∃ T, transpose A = Ok T ∧ transpose T = Ok A)
  ∧ (allFinite A → matmul A (identity (cols A)) = Ok A).
Proof.
  intros Hwf. split.
  - exists (transposed A). split.
    + apply transpose_transposed. destruct Hwf as [-> _]. lia.
    + rewrite transpose_transposed.
      * by rewrite transposed_involutive.
      * cbn. unfold tabulate. by rewrite length_fmap, length_seq.
  - intros Hfin. rewrite matmul_product.
    + by rewrite product_identity.
    + destruct Hwf as [-> _]. lia.
    + cbn. by rewrite length_fmap, length_seq.
Qed.

Lemma wellFormed_twoByThree : wellFormed TensorSamples.twoByThree.
Proof. split; [done|]. by repeat constructor. Qed.

Lemma transpose_involutive_matmul_identity_witness :
  (∃ T, transpose TensorSamples.twoByThree = Ok T
        ∧ transpose T = Ok TensorSamples.twoByThree)
  ∧ matmul TensorSamples.twoByThree (identity 3)
    = Ok TensorSamples.twoByThree.
Proof.
  destruct (transpose_involutive_matmul_identity TensorSamples.twoByThree
              wellFormed_twoByThree) as [Htr Hid].
  split; [exact Htr|]. apply Hid. by repeat constructor.
Defined.

(** C8 as stated fails on a well-formed tensor with an infinite entry: the
    product with the identity has [Infinity * 0 = NaN] in it. *)
Lemma matmul_identity_counterexample :
  wellFormed TensorSamples.infRow
  ∧ matmul TensorSamples.infRow (identity (cols TensorSamples.infRow))
    = Ok {| data := [[PosInf; NaN]]; rows := 1; cols := 2 |}
  ∧ matmul TensorSamples.infRow (identity (cols TensorSamples.infRow))
    ≠ Ok TensorSamples.infRow.
Proof.
  assert (Hrun : matmul TensorSamples.infRow
                   (identity (cols TensorSamples.infRow))
                 = Ok {| data := [[PosInf; NaN]]; rows := 1; cols := 2 |}).
  { unfold matmul. cbn. repeat case_bool_decide; try lia.
    cbn. unfold Num.scaleInf.
    rewrite (sign_pos 1) by lra. by rewrite sign_zero. }
  split; [split; [done | by repeat constructor]|].
  split; [exact Hrun|]. rewrite Hrun. discriminate.
Qed.

End TensorFacts.

(** ** Lists of finite numbers *)

Lemma finite_list (row : list number) :
  Forall finite row → ∃ xs : list R, row = Fin <$> xs.
Proof.
  induction 1 as [|a row Ha _ [xs ->]]; [by exists []|].
  apply isFinite_true in Ha as [x ->]. by exists (x :: xs).
Qed.

Lemma sumR_nil : sumR [] = 0%R.
Proof. done. Qed.

Lemma sumR_cons (x : R) (xs : list R) : sumR (x :: xs) = (x + sumR xs)%R.
Proof. done. Qed.

Lemma foldl_add_fin (xs : list R) (acc : R) :
  foldl Num.add (Fin acc) (Fin <$> xs) = Fin (acc + sumR xs).
Proof.
  revert acc. induction xs as [|x xs IH]; intros acc.
  - rewrite sumR_nil. cbn. f_equal. lra.
  - rewrite sumR_cons. cbn [fmap list_fmap foldl Num.add]. rewrite IH.
    f_equal. lra.
Qed.

Lemma sumR_pos (xs : list R) :
  xs ≠ [] → Forall (fun x => (0 < x)%R) xs → (0 < sumR xs)%R.
Proof.
  intros Hne Hpos. destruct xs as [|x xs]; [done|]. clear Hne.
  revert x Hpos. induction xs as [|y ys IH]; intros x Hpos.
  - inversion Hpos; subst. rewrite sumR_cons, sumR_nil. lra.
  - inversion Hpos as [|? ? Hx Hrest]; subst. specialize (IH y Hrest).
    rewrite sumR_cons. lra.
Qed.

Lemma sumR_nonneg (xs : list R) :
  Forall (fun x => (0 < x)%R) xs → (0 <= sumR xs)%R.
Proof.
  intros Hpos. destruct xs as [|x xs]; [rewrite sumR_nil; lra|].
  apply Rlt_le, sumR_pos; done.
Qed.

Lemma sumR_ge (xs : list R) (x : R) :
  Forall (fun x => (0 < x)%R) xs → x ∈ xs → (x <= sumR xs)%R.
Proof.
  intros Hpos Hin. induction xs as [|y ys IH]; [by apply elem_of_nil in Hin|].
  inversion Hpos as [|? ? Hy Hrest]; subst. rewrite sumR_cons.
  pose proof (sumR_nonneg ys Hrest) as Hs.
  apply elem_of_cons in Hin as [->|Hin].
  - lra.
  - specialize (IH Hrest Hin). lra.
Qed.

Lemma sumR_scale (xs : list R) (c : R) :
  sumR ((fun x => x / c)%R <$> xs) = (sumR xs / c)%R.
Proof.
  induction xs as [|x xs IH].
  - unfold sumR. cbn. unfold Rdiv. lra.
  - cbn [fmap list_fmap]. rewrite !sumR_cons, IH. unfold Rdiv. lra.
Qed.

(** ** C9: softmax rows *)

Module SoftmaxFacts.
Import Activations.

Lemma maxList_fin (xs : list R) :
  xs ≠ [] → ∃ M, Num.maxList (Fin <$> xs) = Fin M.
Proof.
  intros Hne. destruct xs as [|x xs]; [done|]. clear Hne.
  unfold Num.maxList. cbn [fmap list_fmap foldl Num.max].
  generalize x. clear x. induction xs as [|y ys IH]; intros x.
  - by exists x.
  - cbn [fmap list_fmap foldl Num.max]. apply IH.
Qed.

Lemma softmaxRow_spec (row : list number) :
  row ≠ [] → Forall finite row →
  Forall inUnit (softmaxRow row) ∧ rowSum (softmaxRow row) = Fin 1.
Proof.
  intros Hne Hfin. destruct (finite_list row Hfin) as [xs ->].
  assert (Hxs : xs ≠ []) by (by destruct xs).
  destruct (maxList_fin xs Hxs) as [M HM].
  unfold softmaxRow. rewrite HM.
  set (es := (fun x => Rtrigo_def.exp (x + - M)) <$> xs).
  assert (Hexp : map (fun val => Num.exp (val ⊖ Fin M)) (Fin <$> xs)
                 = Fin <$> es).
  { unfold es. rewrite <- !list_fmap_compose. by apply list_fmap_ext. }
  rewrite Hexp, foldl_add_fin.
  assert (Hpos : Forall (fun e => (0 < e)%R) es).
  { unfold es. apply Forall_fmap, Forall_forall. intros x _. apply exp_pos. }
  assert (Hes : es ≠ []) by (unfold es; by destruct xs).
  pose proof (sumR_pos es Hes Hpos) as HS.
  assert (Hout : map (fun val => val ⊘ Fin (0 + sumR es)) (Fin <$> es)
                 = Fin <$> ((fun e => e / sumR es)%R <$> es)).
  { rewrite <- !list_fmap_compose. apply list_fmap_ext. intros i e _. cbn.
    rewrite div_fin by lra. f_equal. f_equal. lra. }
  rewrite Hout. split.
  - apply Forall_fmap, Forall_fmap, Forall_forall. intros e He. cbn.
    eexists. split; [done|].
    pose proof (sumR_ge es e Hpos He) as Hle.
    assert (0 < e)%R by (eapply Forall_forall in Hpos; eauto).
    split.
    + apply Rlt_le, Rdiv_lt_0_compat; lra.
    + replace 1%R with (sumR es / sumR es)%R by (field; lra).
      unfold Rdiv. apply Rmult_le_compat_r; [|lra].
      apply Rlt_le, Rinv_0_lt_compat. lra.
  - unfold rowSum. rewrite foldl_add_fin, sumR_scale. f_equal.
    field. lra.
Qed.

Lemma length_softmaxRow (row : list number) :
  length (softmaxRow row) = length row.
Proof. unfold softmaxRow. by rewrite !length_fmap. Qed.

(** C9 (as amended).  For every well-formed input tensor with at least one
    column whose entries are all finite, [Softmax.forward] returns a tensor
    of the same shape in which every entry is a number of [[0, 1]] and every
    row sums to 1. *)
Theorem softmax_forward_rows (input : Tensor) :
  wellFormed input → allFinite input → 0 < cols input →
  ∃ out, forward Softmax input = Ok out
         ∧ rows out = rows input ∧ cols out = cols input ∧ wellFormed out
         ∧ Forall (fun row => Forall inUnit row ∧ rowSum row = Fin 1)
                  (data out).
Proof.
  intros [Hrows Hcols] Hfin Hpos. exists (softmaxForward input).
  split; [done|]. split; [done|]. split; [done|]. split.
  - split; cbn.
    + by rewrite length_fmap.
    + apply Forall_fmap. eapply Forall_impl; [exact Hcols|].
      intros row Hlen. cbn. by rewrite length_softmaxRow.
  - cbn. apply Forall_fmap, Forall_forall. intros row Hrow. cbn.
    apply softmaxRow_spec.
    + eapply Forall_forall in Hcols; [|exact Hrow]. cbn in Hcols.
      destruct row; [cbn in Hcols; lia | done].
    + eapply Forall_forall in Hfin; [|exact Hrow]. done.
Qed.

Lemma softmax_forward_rows_witness :
  ∃ out, forward Softmax TensorSamples.twoByThree = Ok out
         ∧ Forall (fun row => Forall inUnit row ∧ rowSum row = Fin 1)
                  (data out).
Proof.
  destruct (softmax_forward_rows TensorSamples.twoByThree)
    as (out & Hout & _ & _ & _ & Hall).
  - split; [done|]. by repeat constructor.
  - by repeat constructor.
  - cbn. lia.
  - by exists out.
Defined.

(** C9 as stated fails on a well-formed tensor without columns: its rows are
    empty, all of their (no) entries are finite, and an empty row sums to 0. *)
Lemma softmax_empty_row_counterexample :
  wellFormed TensorSamples.emptyRow ∧ allFinite TensorSamples.emptyRow
  ∧ forward Softmax TensorSamples.emptyRow
    = Ok {| data := [[]]; rows := 1; cols := 0 |}
  ∧ rowSum [] = Fin 0
  ∧ ¬ (∃ out, forward Softmax TensorSamples.emptyRow = Ok out
              ∧ Forall (fun row => Forall inUnit row ∧ rowSum row = Fin 1)
                       (data out)).
Proof.
  split; [split; [done | by repeat constructor]|].
  split; [by repeat constructor|]. split; [done|]. split; [done|].
  intros (out & Hout & Hall). injection Hout as <-.
  apply Forall_cons_1 in Hall as [[_ Hsum] _].
  unfold rowSum in Hsum. cbn in Hsum. injection Hsum. lra.
Qed.

End SoftmaxFacts.

(** ** C5: the gradient of the mean squared error *)

Module MseFacts.
Import Losses.

Lemma elem_of_indices (r c i j : nat) : (i, j) ∈ indices r c ↔ i < r ∧ j < c.
Proof.
  unfold indices. rewrite list_elem_of_bind. split.
  - intros (i' & Hin & Hi'). apply list_elem_of_fmap in Hin as (j' & Heq & Hj').
    inversion Heq; subst. apply elem_of_seq in Hi', Hj'. lia.
  - intros [Hi Hj]. exists i. split; [|apply elem_of_seq; lia].
    apply list_elem_of_fmap. exists j. split; [done|]. apply elem_of_seq. lia.
Qed.



Section finite_pair.
Context (predictions targets : Tensor).
Context (Hwf : wellFormed predictions) (Hwft : wellFormed targets).
Context (Hrows : rows targets = rows predictions).
Context (Hcols : cols targets = cols predictions).
Context (Hfin : allFinite predictions) (Hfint : allFinite targets).




End finite_pair.







Section gradient.
Context (predictions targets : Tensor) (i j : nat).
Context (Hwf : wellFormed predictions) (Hwft : wellFormed targets).
Context (Hrows : rows targets = rows predictions).
Context (Hcols : cols targets = cols predictions).
Context (Hfin : allFinite predictions) (Hfint : allFinite targets).
Context (Hi : i < rows predictions) (Hj : j < cols predictions).




End gradient.



End MseFacts.

(** ** The debug engine: what each method leaves as it was *)

#[global] Instance sameOn_refl {S A} (f : S → A) : Reflexive (sameOn f).
Proof. by intros s. Qed.
#[global] Instance sameOn_trans {S A} (f : S → A) : Transitive (sameOn f).
Proof. intros s1 s2 s3 H12 H23. unfold sameOn in *. congruence. Qed.

Module EngineFacts.
Import Engine.

Lemma keeps_inNetwork {A} (R : relation DebugEngine) (method : Method Network A) :
  (∀ e n, R e (setNetwork n e)) → keeps R (inNetwork method).
Proof.
  intros HR e. unfold inNetwork. destruct (method (network e)). apply HR.
Qed.

Lemma keeps_inOptimizer {A} (R : relation DebugEngine)
    (method : Method Optimizers.Optimizer A) :
  (∀ e o, R e (setOptimizer o e)) → keeps R (inOptimizer method).
Proof.
  intros HR e. unfold inOptimizer. destruct (method (optimizer e)). apply HR.
Qed.

(** The same, for a relation that looks into the network. *)
Lemma keeps_inNetwork_rel {A} (R : relation DebugEngine) (Rn : relation Network)
    (method : Method Network A) :
  keeps Rn method → (∀ e n, Rn (network e) n → R e (setNetwork n e)) →
  keeps R (inNetwork method).
Proof.
  intros Hm HR e. unfold inNetwork. specialize (Hm (network e)).
  destruct (method (network e)). by apply HR.
Qed.

Lemma atLayer_length {A} (i : nat) (method : Method Layer A) :
  keeps (sameOn (fun n => length (layers n))) (NetworkM.atLayer i method).
Proof.
  intros n. unfold NetworkM.atLayer, sameOn.
  destruct (layers n !! i) as [l|]; [|done].
  destruct (method l). cbn. by rewrite length_insert.
Qed.

Ltac engine_step :=
  cbv zeta;
  lazymatch goal with
  | |- keeps _ (_ ≫= _) => apply keeps_bind; [tc_solve | | intros ?]
  | |- keeps _ (assign _) => apply keeps_assign; intros ?
  | |- keeps _ (inNetwork _) => apply keeps_inNetwork; intros ? ?
  | |- keeps _ (inOptimizer _) => apply keeps_inOptimizer; intros ? ?
  | |- keeps _ (field ?l _) =>
      destruct l; (apply keeps_pure; [tc_solve | by intros ?])
  | |- keeps _ (onPredictions ?p _) =>
      destruct p; (apply keeps_pure; [tc_solve | by intros ?])
  | |- keeps _ (setActivation _ _) => unfold setActivation
  | |- keeps _ newActivations => unfold newActivations
  | |- keeps _ requireInput => unfold requireInput
  | |- keeps _ (record _) => unfold record
  | |- keeps _ (if ?c then _ else _) => destruct c
  | |- keeps _ (match ?c with _ => _ end) => destruct c
  | |- keeps _ _ => apply keeps_pure; [tc_solve | by intros ?]
  end.

(** *** The history and the step index *)

Lemma forwardLayerSnapshot_steps (now layerIndex : nat) :
  keeps (sameOn steps) (forwardLayerSnapshot now layerIndex).
Proof. unfold forwardLayerSnapshot. repeat engine_step; done. Qed.

Lemma record_run (snapshot : StepSnapshot) (e : DebugEngine) :
  record snapshot e
  = (Ok snapshot,
     setStepHistory
       (slice0 (stepHistory e) (currentStepIndex e + 1) ++ [snapshot])
       (setCurrentStepIndex (currentStepIndex e + 1) e)).
Proof. done. Qed.

(** A step whose snapshot part keeps the history pushes exactly one
    snapshot at the position after the current index. *)
Lemma recorded (body : Method DebugEngine StepSnapshot) (e e' : DebugEngine)
    (snapshot : StepSnapshot) :
  keeps (sameOn steps) body →
  (body ≫= record) e = (Ok snapshot, e') →
  stepHistory e'
  = slice0 (stepHistory e) (currentStepIndex e + 1) ++ [snapshot]
  ∧ currentStepIndex e' = (currentStepIndex e + 1)%Z.
Proof.
  intros Hbody. cbv [mbind method_bind]. specialize (Hbody e).
  destruct (body e) as [[snap|err] e0]; [|done].
  rewrite record_run. intros [= <- <-]. cbn.
  unfold sameOn, steps in Hbody. cbn in Hbody. by injection Hbody as -> ->.
Qed.

Lemma undo_at_start (e : DebugEngine) :
  (currentStepIndex e ≤ 0)%Z → undo e = (Ok false, e).
Proof.
  intros Hidx. unfold undo. run_method. by rewrite bool_decide_eq_true_2.
Qed.

(** *** The first forward step returns *)

Lemma layer_forward_ok (l : Layer) (input : Tensor) :
  wellFormed (weights l) → wellFormed input →
  cols input = cols (weights l) →
  (∀ z, ∃ a, forward (activation l) z = Ok a) →
  ∃ out l', LayerM.forward input l = (Ok out, l')
            ∧ weights l' = weights l ∧ bias l' = bias l
            ∧ activationType l' = activationType l.
Proof.
  intros [Hwr Hwc] [Hir Hic] Hcols Hact. unfold LayerM.forward. run_method.
  cbn [weights bias activation LayerM.setLastInput
       LayerM.setPreActivationOutput].
  rewrite TensorFacts.transpose_transposed by lia.
  rewrite TensorFacts.matmul_product; cycle 1.
  { lia. }
  { cbn. unfold tabulate. rewrite length_fmap, length_seq. lia. }
  match goal with
  | |- context [forward (activation l) ?z] => destruct (Hact z) as [a ->]
  end.
  by eexists _, _.
Qed.

Lemma forwardLayerSnapshot_ok (now : nat) (e : DebugEngine) (input : Tensor) :
  currentInput e = Some input → wellFormed input → firstLayerReady e input →
  ∃ snapshot e', forwardLayerSnapshot now 0 e = (Ok snapshot, e').
Proof.
  intros Hin Hwf (l & Hl & Hwl & Hcols & Hact).
  destruct (layer_forward_ok l input Hwl Hwf Hcols Hact)
    as (out & l' & Hrun & Hw & Hb & Hty).
  unfold forwardLayerSnapshot, requireInput. run_method. rewrite Hin.
  unfold layerInput. rewrite bool_decide_eq_true_2 by done. rewrite Hin.
  unfold inNetwork, NetworkM.forwardLayer, NetworkM.atLayer.
  rewrite Hl, Hrun. unfold setActivation. run_method.
  unfold field, layerAt. cbn [network setNetwork setStore layers].
  rewrite list_lookup_insert_eq by (by eapply lookup_lt_Some).
  run_method. by eexists _, _.
Qed.

Lemma restoreState_steps (snapshot : option StepSnapshot) :
  keeps (sameOn steps) (restoreState snapshot).
Proof. unfold restoreState. repeat engine_step; done. Qed.

Lemma restoreState_ok (snapshot : StepSnapshot) (e : DebugEngine) :
  (restoreState (Some snapshot) e).1 = Ok ().
Proof.
  unfold restoreState. run_method.
  by destruct (stateActivations (networkState snapshot)).
Qed.

(** From an index of at least 1 with its predecessor in the history, [undo]
    returns [true] and moves the index back by one. *)
Lemma undo_back (e : DebugEngine) (snapshot : StepSnapshot) :
  (0 < currentStepIndex e)%Z →
  stepHistory e !! Z.to_nat (currentStepIndex e - 1) = Some snapshot →
  ∃ e', undo e = (Ok true, e')
        ∧ currentStepIndex e' = (currentStepIndex e - 1)%Z
        ∧ stepHistory e' = stepHistory e
        ∧ Z.of_nat (length (getStepHistory e')) = currentStepIndex e.
Proof.
  intros Hidx Hsnap. unfold undo. run_method.
  rewrite bool_decide_eq_false_2 by lia.
  cbn [currentStepIndex stepHistory setCurrentStepIndex]. rewrite Hsnap.
  pose proof (restoreState_steps (Some snapshot)
                (setCurrentStepIndex (currentStepIndex e - 1) e)) as Hkeep.
  pose proof (restoreState_ok snapshot
                (setCurrentStepIndex (currentStepIndex e - 1) e)) as Hok.
  destruct (restoreState _ _) as [r e']. cbn in Hok, Hkeep. subst r.
  unfold sameOn, steps in Hkeep. cbn in Hkeep. injection Hkeep as Hh Hi.
  exists e'. split; [done|]. split; [done|]. split; [done|].
  unfold getStepHistory, slice0. rewrite Hh, Hi.
  rewrite bool_decide_eq_false_2 by lia. rewrite length_take.
  apply lookup_lt_Some in Hsnap. lia.
Qed.

(** What the first step after [setData] leaves, and what [undo] does
    there. *)
Lemma first_step (e : DebugEngine) (input target : Tensor) (now : nat) :
  wellFormed input → firstLayerReady e input →
  ∃ snapshot e2,
    stepForwardLayer now 0 (setData input target e).2 = (Ok snapshot, e2)
    ∧ getStepHistory e2 = [snapshot] ∧ currentStepIndex e2 = 0%Z
    ∧ undo e2 = (Ok false, e2).
Proof.
  intros Hwf Hready.
  destruct (forwardLayerSnapshot_ok now (setData input target e).2 input)
    as (snap0 & e0 & Hbody); [done|done|done|].
  unfold stepForwardLayer.
  destruct ((forwardLayerSnapshot now 0 ≫= record) (setData input target e).2)
    as [r e2] eqn:Hrun.
  assert (Hr : ∃ snapshot, r = Ok snapshot).
  { revert Hrun. cbv [mbind method_bind]. rewrite Hbody, record_run.
    intros [= <- _]. by eexists. }
  destruct Hr as [snapshot ->]. exists snapshot, e2.
  destruct (recorded _ _ _ _ (forwardLayerSnapshot_steps now 0) Hrun)
    as [Hhist Hidx].
  change (currentStepIndex (setData input target e).2) with (-1)%Z
    in Hhist, Hidx.
  change (stepHistory (setData input target e).2) with (@nil StepSnapshot)
    in Hhist.
  split; [done|]. split; [|split; [done|]].
  - unfold getStepHistory. by rewrite Hhist, Hidx.
  - apply undo_at_start. lia.
Qed.

(** C1 (as amended).  After [setData(input, target)] the history is empty;
    one [stepForwardLayer(0)] returns (for a well-formed input and a first
    layer that takes it), leaves a history of length 1 and the step index
    at 0; [undo()] at index 0 returns [false] and changes nothing, so it
    does after that first step, as often as it is called; [undo()] returns
    [true] from an index of at least 1, where it moves the index back by
    one and shortens the visible history by one. *)
Theorem undo_after_first_step (e : DebugEngine) (input target : Tensor)
    (now : nat) :
  wellFormed input → firstLayerReady e input →
  getStepHistory (setData input target e).2 = []
  ∧ (∃ snapshot e2,
       stepForwardLayer now 0 (setData input target e).2 = (Ok snapshot, e2)
       ∧ getStepHistory e2 = [snapshot] ∧ length (getStepHistory e2) = 1
       ∧ currentStepIndex e2 = 0%Z
       ∧ undo e2 = (Ok false, e2)
       ∧ (undo ≫= fun _ => undo) e2 = (Ok false, e2))
  ∧ (∀ e', (currentStepIndex e' ≤ 0)%Z → undo e' = (Ok false, e'))
  ∧ (∀ e' snapshot,
       (0 < currentStepIndex e')%Z →
       stepHistory e' !! Z.to_nat (currentStepIndex e' - 1) = Some snapshot →
       ∃ e'', undo e' = (Ok true, e'')
              ∧ currentStepIndex e'' = (currentStepIndex e' - 1)%Z
              ∧ Z.of_nat (length (getStepHistory e'')) = currentStepIndex e').
Proof.
  intros Hwf Hready. split; [done|]. split; [|split].
  - destruct (first_step e input target now Hwf Hready)
      as (snapshot & e2 & Hrun & Hhist & Hidx & Hundo).
    exists snapshot, e2. split; [done|]. split; [done|].
    split; [by rewrite Hhist|]. split; [done|]. split; [done|].
    cbv [mbind method_bind]. by rewrite Hundo.
  - exact undo_at_start.
  - intros e' snapshot Hidx Hsnap.
    destruct (undo_back e' snapshot Hidx Hsnap) as (e'' & H1 & H2 & _ & H3).
    by exists e''.
Qed.

Lemma oneLayer_ready :
  wellFormed EngineSamples.input
  ∧ firstLayerReady EngineSamples.oneLayer EngineSamples.input.
Proof.
  split; [split; [done | by repeat constructor]|].
  eexists. split; [done|]. split; [split; [done | by repeat constructor]|].
  split; [done|]. intros z. by exists z.
Qed.

Lemma undo_after_first_step_witness :
  ∃ snapshot e2,
    stepForwardLayer 0 0
      (setData EngineSamples.input EngineSamples.target
         EngineSamples.oneLayer).2 = (Ok snapshot, e2)
    ∧ length (getStepHistory e2) = 1
    ∧ undo e2 = (Ok false, e2).
Proof.
  destruct (undo_after_first_step EngineSamples.oneLayer EngineSamples.input
              EngineSamples.target 0 (proj1 oneLayer_ready)
              (proj2 oneLayer_ready))
    as (_ & (snapshot & e2 & Hrun & _ & Hlen & _ & Hundo & _) & _).
  by exists snapshot, e2.
Defined.

(** C1 as stated fails: on the one-layer engine, after [setData] and one
    [stepForwardLayer(0)], [undo()] returns [false], not [true], and the
    history still has its one snapshot. *)
Lemma undo_first_step_counterexample :
  length (getStepHistory EngineSamples.oneStep) = 1
  ∧ (undo EngineSamples.oneStep).1 = Ok false
  ∧ length (getStepHistory (undo EngineSamples.oneStep).2) = 1
  ∧ ¬ ((undo EngineSamples.oneStep).1 = Ok true
       ∧ getStepHistory (undo EngineSamples.oneStep).2 = []).
Proof.
  assert (Hundo : (undo EngineSamples.oneStep).1 = Ok false)
    by (vm_compute; reflexivity).
  split; [vm_compute; reflexivity|]. split; [exact Hundo|].
  split; [vm_compute; reflexivity|]. rewrite Hundo. by intros [? _].
Qed.

(** *** The cached loss and loss gradient *)

Lemma completeForward_lossGradient (idx : list nat) (current : option Tensor) :
  keeps (sameOn lossGradient) (completeForward idx current).
Proof.
  revert current. induction idx as [|i idx IH]; intros current;
    cbn [completeForward]; repeat engine_step; done.
Qed.

Lemma updateLayers_lossState (idx : list nat) (lr : number)
    (computations : list (string * Value)) :
  keeps (sameOn lossState) (updateLayers idx lr computations).
Proof.
  revert computations. induction idx as [|i idx IH]; intros computations;
    cbn [updateLayers]; repeat engine_step; done.
Qed.

Lemma trainUpdate_lossGradient (lr : number) (idx : list nat) :
  keeps (sameOn lossGradient) (forEach (trainUpdate lr) idx).
Proof.
  induction idx as [|i idx IH]; cbn [forEach]; [by repeat engine_step|].
  apply keeps_bind; [tc_solve| |by intros ?].
  unfold trainUpdate. repeat engine_step; done.
Qed.

Lemma stepBackwardLayer_guard (e : DebugEngine) (now layerIndex : nat) :
  lossGradient e = None →
  stepBackwardLayer now layerIndex e
  = (Throw (Error "Must compute loss gradient first"), e).
Proof.
  intros Hnone. unfold stepBackwardLayer, backwardLayerSnapshot. run_method.
  by rewrite Hnone.
Qed.

Lemma stepBackwardLossGradient_guard (e : DebugEngine) (now : nat) :
  currentLoss e = None →
  stepBackwardLossGradient now e = (Throw (Error "Must compute loss first"), e).
Proof.
  intros Hnone. unfold stepBackwardLossGradient, lossGradientSnapshot.
  run_method. rewrite Hnone. by destruct (currentTarget e).
Qed.

Lemma stepBackwardComplete_guard (e : DebugEngine) (now : nat) :
  currentLoss e = None → lossGradient e = None →
  stepBackwardComplete now e = (Throw (Error "Must compute loss first"), e).
Proof.
  intros Hloss Hgrad. unfold stepBackwardComplete.
  cbv [mbind method_bind this]. rewrite Hgrad.
  cbv [mbind method_bind]. by rewrite stepBackwardLossGradient_guard.
Qed.

(** Every call other than [setData] and the ones that compute the loss or
    its gradient leaves both cached values as they were. *)
Lemma perform_lossState (c : Call) (e : DebugEngine) :
  computesLoss c = false → computesLossGradient c = false →
  resets c = false →
  lossState (perform c e) = lossState e.
Proof.
  intros Hloss Hgrad Hset.
  assert (Hkeep : ∀ A (method : Method DebugEngine A),
    keeps (sameOn lossState) method → lossState (method e).2 = lossState e).
  { intros A method Hm. by rewrite (Hm e). }
  destruct c; try done; cbn [perform]; try apply Hkeep.
  - unfold updateConfig. repeat engine_step; done.
  - unfold stepForwardPreActivation. repeat engine_step; done.
  - unfold stepForwardActivation. repeat engine_step; done.
  - unfold stepForwardLayer, forwardLayerSnapshot. repeat engine_step; done.
  - unfold stepBackwardLayer, backwardLayerSnapshot.
    repeat engine_step; done.
  - unfold stepUpdateWeights, updateWeightsSnapshot. repeat engine_step;
      try done.
    apply updateLayers_lossState.
  - unfold undo. repeat engine_step; try done.
    unfold restoreState. repeat engine_step; done.
  - unfold redo. repeat engine_step; try done;
      unfold restoreState; repeat engine_step; done.
Qed.

Lemma perform_lossGradient (c : Call) (e : DebugEngine) :
  computesLossGradient c = false →
  lossGradient e = None → lossGradient (perform c e) = None.
Proof.
  intros Hc Hnone.
  assert (Hkeep : ∀ A (method : Method DebugEngine A),
    keeps (sameOn lossGradient) method → lossGradient (method e).2 = None).
  { intros A method Hm. by rewrite (Hm e). }
  destruct (computesLoss c) eqn:Hloss.
  - destruct c; try done; cbn [perform]; apply Hkeep.
    + unfold stepComputeLoss, computeLossSnapshot.
      repeat engine_step; try done. apply completeForward_lossGradient.
    + unfold trainOneEpoch. repeat engine_step; try done.
      apply trainUpdate_lossGradient.
  - destruct (resets c) eqn:Hset; [by destruct c|].
    pose proof (perform_lossState c e Hloss Hc Hset) as Hsame.
    unfold lossState in Hsame. rewrite <- Hnone. by injection Hsame.
Qed.

Lemma perform_noLoss (c : Call) (e : DebugEngine) :
  computesLoss c = false →
  lossState e = (None, None) → lossState (perform c e) = (None, None).
Proof.
  intros Hc Hnone. unfold lossState in Hnone. injection Hnone as Hloss Hgrad.
  destruct (computesLossGradient c) eqn:Hg.
  - destruct c; try done; cbn [perform].
    + by rewrite stepBackwardLossGradient_guard; [unfold lossState; f_equal|].
    + by rewrite stepBackwardComplete_guard; [unfold lossState; f_equal| |].
  - destruct (resets c) eqn:Hset; [by destruct c|].
    rewrite perform_lossState by done. by unfold lossState; f_equal.
Qed.

Lemma performAll_lossGradient (calls : list Call) (e : DebugEngine) :
  Forall (fun c => computesLossGradient c = false) calls →
  lossGradient e = None → lossGradient (performAll calls e) = None.
Proof.
  intros Hcalls. revert e. induction Hcalls as [|c calls Hc _ IH]; intros e He.
  - done.
  - cbn [performAll foldl]. apply IH. by apply perform_lossGradient.
Qed.

Lemma performAll_noLoss (calls : list Call) (e : DebugEngine) :
  Forall (fun c => computesLoss c = false) calls →
  lossState e = (None, None) → lossState (performAll calls e) = (None, None).
Proof.
  intros Hcalls. revert e. induction Hcalls as [|c calls Hc _ IH]; intros e He.
  - done.
  - cbn [performAll foldl]. apply IH. by apply perform_noLoss.
Qed.

Lemma backwardComplete_lossGradient (now : nat) (idx : list nat)
    (currentGrad : Tensor) (snapshots : list StepSnapshot) :
  keeps (sameOn lossGradient) (backwardComplete now idx currentGrad snapshots).
Proof.
  revert currentGrad snapshots.
  induction idx as [|i idx IH]; intros currentGrad snapshots;
    cbn [backwardComplete]; repeat engine_step; done.
Qed.

(** A cached loss gradient stays cached through every call but [setData]:
    nothing else assigns [undefined] to it. *)
Lemma perform_gradient_cached (c : Call) (e : DebugEngine) :
  resets c = false →
  is_Some (lossGradient e) → is_Some (lossGradient (perform c e)).
Proof.
  intros Hset Hsome.
  assert (Hkeep : ∀ A (method : Method DebugEngine A),
    keeps (sameOn lossGradient) method →
    is_Some (lossGradient (method e).2)).
  { intros A method Hm. by rewrite (Hm e). }
  destruct (computesLossGradient c) eqn:Hgrad.
  - destruct c; try done; cbn [perform].
    + assert (Hm : keeps (preserves (fun e => is_Some (lossGradient e)))
                     (stepBackwardLossGradient now)).
      { unfold stepBackwardLossGradient, lossGradientSnapshot.
        repeat engine_step; try done; by intros H. }
      by apply Hm.
    + destruct Hsome as [g Hg]. unfold stepBackwardComplete.
      cbv [mbind method_bind this mret method_ret]. rewrite Hg.
      cbv [mbind method_bind this mret method_ret]. rewrite Hg.
      rewrite (backwardComplete_lossGradient _ _ _ _ e). by rewrite Hg.
  - destruct (computesLoss c) eqn:Hloss.
    + destruct c; try done; cbn [perform]; apply Hkeep.
      * unfold stepComputeLoss, computeLossSnapshot.
        repeat engine_step; try done. apply completeForward_lossGradient.
      * unfold trainOneEpoch. repeat engine_step; try done.
        apply trainUpdate_lossGradient.
    + pose proof (perform_lossState c e Hloss Hgrad Hset) as Hsame.
      unfold lossState in Hsame. injection Hsame as _ ->. done.
Qed.

(** With a cached loss gradient, [stepBackwardLayer] of the last layer runs
    the layer's [backward] on it and returns when that does. *)
Lemma stepBackwardLayer_cached (e : DebugEngine) (now i : nat)
    (g out : Tensor) (n' : Network) :
  lossGradient e = Some g →
  Z.of_nat i = (Z.of_nat (depth e) - 1)%Z →
  NetworkM.atLayer i (LayerM.backward g) (network e) = (Ok out, n') →
  ∃ snapshot e',
    stepBackwardLayer now i e = (Ok snapshot, e')
    ∧ network e' = n' ∧ lossGradient e' = Some g.
Proof.
  intros Hg Hlast Hrun.
  assert (Hl : is_Some (layers n' !! i)).
  { revert Hrun. unfold NetworkM.atLayer.
    destruct (layers (network e) !! i) as [l|] eqn:El; [|done].
    destruct (LayerM.backward g l) as [r l']. intros [= _ <-]. cbn.
    rewrite list_lookup_insert_eq; [done|]. by eapply lookup_lt_Some. }
  destruct Hl as [l Hl].
  unfold stepBackwardLayer, backwardLayerSnapshot. run_method. rewrite Hg.
  unfold depth in Hlast. rewrite bool_decide_eq_true_2 by done.
  unfold inNetwork. rewrite Hrun. unfold layerAt. cbn [network setNetwork].
  rewrite Hl. cbn [field]. run_method. rewrite record_run.
  do 2 eexists. split; [reflexivity|]. by cbn.
Qed.

(** C6 (as amended).  [stepBackwardLayer] throws "Must compute loss
    gradient first", changing nothing, whenever no loss gradient is cached;
    and none is cached after [setData] followed by any calls among which
    either none computes the loss gradient or none computes the loss
    (without a loss, [stepBackwardLossGradient] itself throws "Must compute
    loss first").  A cached loss gradient stays cached through every call
    but [setData], forward steps included, and with one cached
    [stepBackwardLayer] of the last layer runs the layer's [backward] on it
    and returns when that does. *)
Theorem backward_before_loss_gradient :
  (∀ e now layerIndex,
     lossGradient e = None →
     stepBackwardLayer now layerIndex e
     = (Throw (Error "Must compute loss gradient first"), e))
  ∧ (∀ e now,
       currentLoss e = None →
       stepBackwardLossGradient now e
       = (Throw (Error "Must compute loss first"), e))
  ∧ (∀ e input target calls now layerIndex,
       Forall (fun c => computesLossGradient c = false) calls
       ∨ Forall (fun c => computesLoss c = false) calls →
       stepBackwardLayer now layerIndex
         (performAll calls (setData input target e).2)
       = (Throw (Error "Must compute loss gradient first"),
          performAll calls (setData input target e).2))
  ∧ (∀ c e,
       resets c = false →
       is_Some (lossGradient e) → is_Some (lossGradient (perform c e)))
  ∧ (∀ e now i g out n',
       lossGradient e = Some g →
       Z.of_nat i = (Z.of_nat (depth e) - 1)%Z →
       NetworkM.atLayer i (LayerM.backward g) (network e) = (Ok out, n') →
       ∃ snapshot e',
         stepBackwardLayer now i e = (Ok snapshot, e')
         ∧ network e' = n' ∧ lossGradient e' = Some g).
Proof.
  split; [exact stepBackwardLayer_guard|].
  split; [exact stepBackwardLossGradient_guard|].
  split; [|split; [exact perform_gradient_cached
                  |exact stepBackwardLayer_cached]].
  intros e input target calls now layerIndex Hcalls.
  apply stepBackwardLayer_guard. destruct Hcalls as [Hcalls|Hcalls].
  - by apply performAll_lossGradient.
  - pose proof (performAll_noLoss calls (setData input target e).2 Hcalls
                  eq_refl) as Hstate.
    unfold lossState in Hstate. by injection Hstate.
Qed.

Lemma backward_before_loss_gradient_witness :
  stepBackwardLayer 0 0
    (performAll [CStepForwardLayer 0 0; CStepComputeLoss 0]
       (setData EngineSamples.input EngineSamples.target
          EngineSamples.oneLayer).2)
  = (Throw (Error "Must compute loss gradient first"),
     performAll [CStepForwardLayer 0 0; CStepComputeLoss 0]
       (setData EngineSamples.input EngineSamples.target
          EngineSamples.oneLayer).2).
Proof.
  apply (proj1 (proj2 (proj2 backward_before_loss_gradient))).
  left. by repeat constructor.
Defined.

(** C6 as stated fails once a pass has been made: after the forward step of
    a second pass, with neither the loss nor its gradient computed again,
    [stepBackwardLayer(0)] finds the gradient of the first pass still cached,
    raises no error and backpropagates it. *)
Lemma backward_stale_gradient_counterexample :
  stepType <$> last (stepHistory EngineSamples.secondPassStarted)
  = Some Forward
  ∧ is_Some (lossGradient EngineSamples.secondPassStarted)
  ∧ lossGradient EngineSamples.secondPassStarted
    = lossGradient EngineSamples.firstPassDone
  ∧ (∃ snapshot e',
       stepBackwardLayer 0 0 EngineSamples.secondPassStarted
       = (Ok snapshot, e')
       ∧ stepType snapshot = Backward)
  ∧ ¬ (∃ err, (stepBackwardLayer 0 0 EngineSamples.secondPassStarted).1
              = Throw err).
Proof.
  assert (Hrun : ∃ snapshot e',
            stepBackwardLayer 0 0 EngineSamples.secondPassStarted
            = (Ok snapshot, e') ∧ stepType snapshot = Backward).
  { do 2 eexists. split; [vm_compute; reflexivity | reflexivity]. }
  split; [vm_compute; reflexivity|].
  split; [vm_compute; by eexists|].
  split; [vm_compute; reflexivity|].
  split; [exact Hrun|].
  destruct Hrun as (snapshot & e' & -> & _). by intros [err Herr].
Qed.

(** *** Backward steps below the last layer *)

(** When [stepBackwardLayer(i)] returns, [i] is the last layer, and the
    engine it leaves has the same loss gradient and as many layers. *)
Lemma stepBackwardLayer_returns (e e' : DebugEngine) (now i : nat)
    (snapshot : StepSnapshot) :
  stepBackwardLayer now i e = (Ok snapshot, e') →
  Z.of_nat i = (Z.of_nat (depth e) - 1)%Z
  ∧ is_Some (lossGradient e)
  ∧ lossGradient e' = lossGradient e ∧ depth e' = depth e.
Proof.
  unfold stepBackwardLayer, backwardLayerSnapshot. run_method.
  destruct (lossGradient e) as [g|] eqn:Hg; [|done].
  case_bool_decide as Hlast; [|done].
  unfold inNetwork.
  pose proof (atLayer_length i (LayerM.backward g) (network e)) as Hlen.
  destruct (NetworkM.atLayer i (LayerM.backward g) (network e))
    as [[out|err] n]; [|done].
  unfold field, layerAt. cbn [network setNetwork].
  destruct (layers n !! i) as [l|]; run_method; [|done].
  intros [= <- <-]. unfold depth. cbn. unfold sameOn in Hlen. cbn in Hlen.
  by rewrite Hg, Hlen.
Qed.

Lemma stepBackwardLayer_order (e : DebugEngine) (now k : nat) :
  is_Some (lossGradient e) →
  Z.of_nat k ≠ (Z.of_nat (depth e) - 1)%Z →
  stepBackwardLayer now k e
  = (Throw (Error "Backward pass must be done in reverse order"), e).
Proof.
  intros [g Hg] Hk. unfold stepBackwardLayer, backwardLayerSnapshot.
  run_method. rewrite Hg. by rewrite bool_decide_eq_false_2.
Qed.

(** C2 (the code against the claim).  [stepBackwardLayer(k)] throws
    "Backward pass must be done in reverse order" for every layer [k] other
    than the last one as soon as a loss gradient is cached; in particular
    right after [stepBackwardLayer(i)] has returned for the last layer [i],
    every other layer is refused, so the reverse sequence [L-1, L-2, ..., 0]
    stops at its second call whenever the network has two layers or
    more. *)
Theorem stepBackwardLayer_only_last_layer :
  (∀ e now k,
     is_Some (lossGradient e) →
     Z.of_nat k ≠ (Z.of_nat (depth e) - 1)%Z →
     stepBackwardLayer now k e
     = (Throw (Error "Backward pass must be done in reverse order"), e))
  ∧ (∀ e e' now i snapshot,
       stepBackwardLayer now i e = (Ok snapshot, e') →
       ∀ now' k, k ≠ i →
       stepBackwardLayer now' k e'
       = (Throw (Error "Backward pass must be done in reverse order"), e'))
  ∧ length (getStepHistory EngineSamples.lastLayerDone) = 5
  ∧ (stepBackwardLayer 0 0 EngineSamples.lastLayerDone).1
    = Throw (Error "Backward pass must be done in reverse order").
Proof.
  split; [exact stepBackwardLayer_order|]. split; [|split].
  - intros e e' now i snapshot Hrun now' k Hk.
    destruct (stepBackwardLayer_returns _ _ _ _ _ Hrun)
      as (Hi & Hsome & Hg & Hd).
    apply stepBackwardLayer_order.
    + by rewrite Hg.
    + rewrite Hd. lia.
  - vm_compute. reflexivity.
  - vm_compute. reflexivity.
Qed.

End EngineFacts.

(** ** C7: the dependency sort *)

Module SortFacts.
Import GraphAnalysis Deps.

Section lower.
Context `{Lowering}.

(** *** The loop over the references of one expression *)


(** *** Pushing an expression *)




Lemma ordered_prefix (M : gmap string Expression)
    (sorted suffix : list Expression) :
  Ordered M (sorted ++ suffix) → Ordered M sorted.
Proof.
  intros Hord i e r Hi Hr Hsome. pose proof (lookup_lt_Some _ _ _ Hi) as Hlt.
  destruct (Hord i e r) as (j & e' & Hj & He' & Hkey); try done.
  - by rewrite lookup_app_l.
  - exists j, e'. split; [done|]. split; [|done].
    rewrite lookup_app_l in He' by lia. done.
Qed.

(** *** One call of [visit] *)


(** *** The recursion stays within its fuel *)



(** *** The map from labels to expressions *)







(** *** The whole sort *)



End lower.

(** The sample expressions are ASCII. *)
#[local] Existing Instance asciiLowering.




(** A cycle is cut where it closes, without an error. *)
Lemma topologicalSort_cycle : topologicalSort [c1; c2] = Some [c2; c1].
Proof. by vm_compute. Qed.

End SortFacts.

(** ** The regression losses and the descent step *)

Module RegressionFacts.
Import LinearRegression Regression.

#[local] Abbreviation Sx pts := (sumR (fst <$> pts)).
#[local] Abbreviation Sy pts := (sumR (snd <$> pts)).
#[local] Abbreviation Sxx pts := (sumR ((fun p : R * R => p.1 * p.1)%R <$> pts)).
#[local] Abbreviation Sxy pts := (sumR ((fun p : R * R => p.1 * p.2)%R <$> pts)).
#[local] Abbreviation Syy pts := (sumR ((fun p : R * R => p.2 * p.2)%R <$> pts)).
#[local] Abbreviation len pts := (INR (length pts)).

Lemma finitePoints_inv (points : list DataPoint) :
  finitePoints points → ∃ pts, points = pointOf <$> pts.
Proof.
  induction 1 as [|p points [Hx Hy] _ [pts ->]]; [by exists []|].
  apply isFinite_true in Hx as [a Ha]. apply isFinite_true in Hy as [c Hc].
  exists ((a, c) :: pts). destruct p as [px py]. cbn in Ha, Hc. by subst.
Qed.

Lemma finitePoints_pointOf (pts : list (R * R)) : finitePoints (pointOf <$> pts).
Proof. apply Forall_fmap, Forall_forall. by intros p _. Qed.

(** A loop that adds a finite term for every element. *)
Lemma foldl_fin {A B} (g : number → B → number) (h : A → B) (f : A → R)
    (xs : list A) (acc : R) :
  (∀ s a, g (Fin s) (h a) = Fin (s + f a)) →
  foldl g (Fin acc) (h <$> xs) = Fin (acc + sumR (f <$> xs)).
Proof.
  intros Hg. revert acc. induction xs as [|a xs IH]; intros acc.
  - cbn [fmap list_fmap foldl]. rewrite sumR_nil. f_equal. lra.
  - cbn [foldl fmap list_fmap]. rewrite Hg, IH, sumR_cons. f_equal. lra.
Qed.

Lemma sumR_nonneg_terms {A} (f : A → R) (xs : list A) :
  (∀ a, a ∈ xs → (0 <= f a)%R) → (0 <= sumR (f <$> xs))%R.
Proof.
  intros H. induction xs as [|a xs IH].
  - cbn [fmap list_fmap]. rewrite sumR_nil. lra.
  - cbn [fmap list_fmap]. rewrite sumR_cons.
    pose proof (H a (list_elem_of_here _ _)).
    assert (0 <= sumR (f <$> xs))%R.
    { apply IH. intros a' Ha'. apply H. by apply list_elem_of_further. }
    lra.
Qed.

(** The sum of the squared errors of a line, in the five sums of the
    normal equation. *)
Lemma squaredError_sum (m b : R) (pts : list (R * R)) :
  sumR (squaredError m b <$> pts)
  = (m * m * Sxx pts + 2 * m * b * Sx pts + len pts * b * b
     - 2 * m * Sxy pts - 2 * b * Sy pts + Syy pts)%R.
Proof.
  induction pts as [|[px py] pts IH].
  - cbn [fmap list_fmap length INR]. rewrite !sumR_nil. lra.
  - cbn [fmap list_fmap]. rewrite !sumR_cons, IH, length_cons, S_INR.
    unfold squaredError. cbn [fst snd]. ring.
Qed.

Lemma computeMSE_finite (m b : R) (pts : list (R * R)) :
  pts ≠ [] →
  computeMSE (pointOf <$> pts) (Fin m) (Fin b)
  = Fin (sumR (squaredError m b <$> pts) / len pts).
Proof.
  intros Hne. unfold computeMSE. rewrite length_fmap.
  rewrite bool_decide_eq_false_2 by (by destruct pts).
  rewrite (foldl_fin _ pointOf (squaredError m b)) by done.
  unfold Num.ofNat. rewrite div_fin.
  - f_equal. f_equal. lra.
  - apply not_0_INR. by destruct pts.
Qed.

Lemma threePoints_finite : finitePoints RegressionSamples.threePoints.
Proof. apply finitePoints_pointOf. Qed.

(** *** R² is never above 1 *)





(** *** The descent step for the squared error *)

Lemma descent_sums (m b : R) (delta : number) (pts : list (R * R)) :
  foldl (descentTerm (Fin m) (Fin b) "mse" delta)
        {| dm := Fin 0; db := Fin 0 |} (pointOf <$> pts)
  = {| dm := Fin (2 * (m * Sxx pts + b * Sx pts - Sxy pts));
       db := Fin (2 * (m * Sx pts + len pts * b - Sy pts)) |}.
Proof.
  assert (G : ∀ u v,
    foldl (descentTerm (Fin m) (Fin b) "mse" delta)
          {| dm := Fin u; db := Fin v |} (pointOf <$> pts)
    = {| dm := Fin (u + 2 * (m * Sxx pts + b * Sx pts - Sxy pts));
         db := Fin (v + 2 * (m * Sx pts + len pts * b - Sy pts)) |}).
  { induction pts as [|p pts IH]; intros u v.
    - cbn [fmap list_fmap foldl length INR]. rewrite !sumR_nil.
      f_equal; f_equal; lra.
    - cbn [fmap list_fmap foldl]. unfold descentTerm at 2.
      cbn [String.eqb Ascii.eqb Bool.eqb pointOf x y dm db Num.mul Num.add
           Num.sub Num.neg].
      rewrite IH, !sumR_cons, length_cons, S_INR. f_equal; f_equal; ring. }
  rewrite G. f_equal; f_equal; lra.
Qed.

Lemma gradientDescentStep_mse (m b lr : R) (delta : number)
    (pts : list (R * R)) :
  pts ≠ [] →
  let gm := (2 * (m * Sxx pts + b * Sx pts - Sxy pts) / len pts)%R in
  let gb := (2 * (m * Sx pts + len pts * b - Sy pts) / len pts)%R in
  gradientDescentStep (pointOf <$> pts) (Fin m) (Fin b) (Fin lr) "mse" delta
  = {| newM := Fin (m - lr * gm); newB := Fin (b - lr * gb);
       gradients := {| dm := Fin gm; db := Fin gb |} |}.
Proof.
  intros Hne gm gb. unfold gradientDescentStep. rewrite length_fmap.
  rewrite bool_decide_eq_false_2 by (by destruct pts).
  rewrite descent_sums. cbn [dm db]. unfold Num.ofNat.
  rewrite !div_fin by (apply not_0_INR; by destruct pts). done.
Qed.

(** A function that is a polynomial of degree two has the derivative of
    that polynomial. *)
Lemma parabola_derivative (f : R → R) (A B C p : R) :
  (∀ t, f t = (A * t * t + B * t + C)%R) →
  derivable_pt_lim f p (2 * A * p + B)%R.
Proof.
  intros Hf eps Heps.
  assert (Hdelta : (0 < eps / (Rabs A + 1))%R).
  { apply Rdiv_lt_0_compat; [done|]. pose proof (Rabs_pos A). lra. }
  exists (mkposreal _ Hdelta). intros h Hh Hlt. cbn in Hlt. rewrite !Hf.
  replace ((A * (p + h) * (p + h) + B * (p + h) + C - (A * p * p + B * p + C))
           / h - (2 * A * p + B))%R with (A * h)%R by (field; done).
  rewrite Rabs_mult. pose proof (Rabs_pos A) as HA.
  pose proof (Rabs_pos h) as Hh0.
  apply Rle_lt_trans with ((Rabs A + 1) * Rabs h)%R; [nra|].
  apply (Rmult_lt_reg_r (/ (Rabs A + 1))).
  { apply Rinv_0_lt_compat. lra. }
  replace ((Rabs A + 1) * Rabs h * / (Rabs A + 1))%R with (Rabs h)
    by (field; lra).
  exact Hlt.
Qed.

(** X4.  For the squared error the gradients a descent step reports are the
    partial derivatives of [computeMSE]: on a non-empty list of points with
    finite coordinates, [gradients.dm] is the derivative of the loss in the
    slope and [gradients.db] its derivative in the intercept, and the step
    moves each parameter by the learning rate times its gradient. *)
Theorem descent_gradient_is_derivative (points : list DataPoint)
    (m1 b1 lr : R) (delta : number) :
  points ≠ [] → finitePoints points →
  ∃ gm gb,
    gradientDescentStep points (Fin m1) (Fin b1) (Fin lr) "mse" delta
    = {| newM := Fin (m1 - lr * gm); newB := Fin (b1 - lr * gb);
         gradients := {| dm := Fin gm; db := Fin gb |} |}
    ∧ derivable_pt_lim (mseOfSlope points b1) m1 gm
    ∧ derivable_pt_lim (mseOfIntercept points m1) b1 gb.
Proof.
  intros Hne Hfin. destruct (finitePoints_inv _ Hfin) as [pts ->].
  assert (Hpts : pts ≠ []) by (by destruct pts).
  assert (Hn : len pts ≠ 0%R) by (apply not_0_INR; by destruct pts).
  eexists _, _. split; [by apply gradientDescentStep_mse|]. split.
  - replace (2 * (m1 * Sxx pts + b1 * Sx pts - Sxy pts) / len pts)%R
      with (2 * (Sxx pts / len pts) * m1
            + (2 * b1 * Sx pts - 2 * Sxy pts) / len pts)%R by (field; done).
    apply parabola_derivative
      with (C := ((len pts * b1 * b1 - 2 * b1 * Sy pts + Syy pts)
                  / len pts)%R).
    intros t. unfold mseOfSlope. rewrite computeMSE_finite by done.
    cbn [realOf]. rewrite squaredError_sum. field. done.
  - replace (2 * (m1 * Sx pts + len pts * b1 - Sy pts) / len pts)%R
      with (2 * 1 * b1 + (2 * m1 * Sx pts - 2 * Sy pts) / len pts)%R
      by (field; done).
    apply parabola_derivative
      with (C := ((m1 * m1 * Sxx pts - 2 * m1 * Sxy pts + Syy pts)
                  / len pts)%R).
    intros t. unfold mseOfIntercept. rewrite computeMSE_finite by done.
    cbn [realOf]. rewrite squaredError_sum. field. done.
Qed.

Lemma descent_gradient_is_derivative_witness :
  ∃ gm gb,
    gradients (gradientDescentStep RegressionSamples.threePoints (Fin 1)
                 (Fin 1) (Fin 1) "mse" (Fin 1))
    = {| dm := Fin gm; db := Fin gb |}
    ∧ derivable_pt_lim (mseOfSlope RegressionSamples.threePoints 1) 1 gm
    ∧ derivable_pt_lim (mseOfIntercept RegressionSamples.threePoints 1) 1 gb.
Proof.
  destruct (descent_gradient_is_derivative RegressionSamples.threePoints
              1 1 1 (Fin 1)) as (gm & gb & Hstep & Hm & Hb).
  - done.
  - exact threePoints_finite.
  - exists gm, gb. by rewrite Hstep.
Defined.

(** *** The loss landscape *)

Lemma table_entry (f : nat → nat → number) (n k i j : nat) :
  i < n → j < k →
  at1 (rowAt ((fun i => f i <$> seq 0 k) <$> seq 0 n) i) j = f i j.
Proof.
  intros Hi Hj. unfold rowAt, at1. rewrite list_lookup_fmap.
  rewrite lookup_seq_lt by done. cbn. rewrite list_lookup_fmap.
  by rewrite lookup_seq_lt by done.
Qed.

(** X6.  [computeLossLandscape] returns three grids of [resolution] rows
    and [resolution] columns.  Each [loss] entry is [computeLoss] at the
    slope and the intercept that the grids [m] and [b] hold in the same
    cell; the slope is the same along a row of [m] and the intercept the
    same along a column of [b].  For a resolution of one the step is a
    division by zero and the only slope and intercept are [NaN], whatever
    the ranges. *)
Theorem computeLossLandscape_grid (points : list DataPoint)
    (mRange bRange : number * number) (resolution : nat) (lossType : string)
    (delta : number) :
  let grid := computeLossLandscape points mRange bRange resolution lossType
                delta in
  (length (gridM grid) = resolution
   ∧ Forall (fun row => length row = resolution) (gridM grid)
   ∧ length (gridB grid) = resolution
   ∧ Forall (fun row => length row = resolution) (gridB grid)
   ∧ length (gridLoss grid) = resolution
   ∧ Forall (fun row => length row = resolution) (gridLoss grid))
  ∧ (∀ i j, i < resolution → j < resolution →
     at1 (rowAt (gridLoss grid) i) j
     = computeLoss points (at1 (rowAt (gridM grid) i) j)
         (at1 (rowAt (gridB grid) i) j) lossType (Some delta)
     ∧ at1 (rowAt (gridM grid) i) j = at1 (rowAt (gridM grid) i) 0
     ∧ at1 (rowAt (gridB grid) i) j = at1 (rowAt (gridB grid) 0) j)
  ∧ (resolution = 1 → gridM grid = [[NaN]] ∧ gridB grid = [[NaN]]).
Proof.
  intros grid. split; [|split].
  - unfold grid, computeLossLandscape. cbn [gridM gridB gridLoss].
    repeat split; try (by rewrite length_fmap, length_seq);
      apply Forall_fmap, Forall_forall; intros i _; cbn;
      by rewrite length_fmap, length_seq.
  - intros i j Hi Hj. unfold grid, computeLossLandscape.
    cbn [gridM gridB gridLoss fst snd].
    rewrite (table_entry (fun i j => _) resolution resolution i j) by done.
    rewrite (table_entry (fun i _ => _) resolution resolution i j) by done.
    rewrite (table_entry (fun _ j => _) resolution resolution i j) by done.
    rewrite (table_entry (fun i _ => _) resolution resolution i 0) by lia.
    by rewrite (table_entry (fun _ j => _) resolution resolution 0 j) by lia.
  - intros ->. unfold grid, computeLossLandscape.
    cbn [gridM gridB gridLoss seq fmap list_fmap fst snd Num.ofNat INR].
    assert (Hnan : ∀ lo hi : number,
      lo ⊕ Fin 0 ⊗ ((hi ⊖ lo) ⊘ (Fin 1 ⊖ Fin 1)) = NaN).
    { intros lo hi. cbn [Num.sub Num.neg Num.add].
      replace (Fin (1 + - (1))) with (Fin 0) by (f_equal; lra).
      assert (Hstep : Fin 0 ⊗ (Num.add hi (Num.neg lo) ⊘ Fin 0) = NaN).
      { destruct (Num.add hi (Num.neg lo)) as [d| | |]; unfold Num.div;
          rewrite ?sign_zero; unfold Num.scaleInf;
          try destruct (Num.sign d); cbn [Num.neg Num.mul];
          unfold Num.scaleInf; by rewrite ?sign_zero. }
      unfold Num.sub. rewrite Hstep. by destruct lo. }
    by rewrite !Hnan.
Qed.

End RegressionFacts.

(** ** Numerical calculus *)

Module CalculusFacts.
Import Calculus.

(** *** Bisection *)

Section bisection.
Variable evaluate : number → option number.
Hypothesis evaluate_finite : ∀ a v, evaluate a = Some v → finite v.
Variable tol : R.
Hypothesis tol_pos : (0 < tol)%R.

Lemma bisect_rootNear (iterations : nat) (lo hi a b fa fb : R) (r : number) :
  (lo <= a <= b)%R → (b <= hi)%R →
  evaluate (Fin a) = Some (Fin fa) → evaluate (Fin b) = Some (Fin fb) →
  (fa * fb <= 0)%R → (tol <= Rabs fa)%R →
  bisect evaluate iterations (Fin a) (Fin b) (Fin fa) (Fin fb) (Fin tol)
  = Some r →
  ∃ c, r = Fin c ∧ rootNear evaluate tol lo hi c.
Proof.
  revert a b fa fb. induction iterations as [|n IH];
    intros a b fa fb Hab Hb Hfa Hfb Hsign Hfar; [done|].
  cbn [bisect Num.add Num.sub Num.neg]. rewrite div_fin by lra.
  destruct (evaluate (Fin ((a + b) / 2))) as [fc|] eqn:Hfc; [|done].
  pose proof (evaluate_finite _ _ Hfc) as Hv.
  apply isFinite_true in Hv as [fc' ->].
  rewrite div_fin by lra. cbn [Num.abs Num.mul].
  destruct (Num.lt (Fin (Rabs fc')) (Fin tol)) eqn:Hnear.
  { cbn [orb]. intros [= <-]. eexists. split; [done|].
    split; [lra|]. exists fc'. split; [done|]. left. by apply lt_fin. }
  destruct (Num.lt (Fin ((b + - a) / 2)) (Fin tol)) eqn:Hsmall.
  { cbn [orb]. intros [= <-]. eexists. split; [done|].
    split; [lra|]. exists fc'. split; [done|]. right.
    exists a, b, fa, fb. apply lt_fin in Hsmall.
    repeat split; try done; lra. }
  cbn [orb]. apply not_true_iff_false in Hnear. rewrite lt_fin in Hnear.
  destruct (Num.lt (Fin (fa * fc')) (Fin 0)) eqn:Hside.
  - apply lt_fin in Hside. apply IH; try done; lra.
  - apply not_true_iff_false in Hside. rewrite lt_fin in Hside.
    apply IH; try done; try lra.
    assert (Hfa0 : fa ≠ 0%R).
    { intros ->. rewrite Rabs_R0 in Hfar. lra. }
    assert (Hfc0 : fc' ≠ 0%R).
    { intros ->. rewrite Rabs_R0 in Hnear. lra. }
    destruct (Rle_lt_dec (fc' * fb) 0) as [|Hpos]; [done|]. exfalso.
    assert (0 < fa * fa)%R by nra.
    assert (0 <= fa * fc')%R by lra.
    assert (0 < fa * fc')%R by nra.
    nra.
Qed.

Lemma findRootBisection_rootNear (a b : R) (maxIterations : nat)
    (r : number) :
  (a <= b)%R →
  findRootBisection evaluate (Fin a) (Fin b) (Fin tol) maxIterations = Some r →
  ∃ c, r = Fin c ∧ rootNear evaluate tol a b c.
Proof.
  intros Hab. unfold findRootBisection.
  destruct (evaluate (Fin a)) as [fa|] eqn:Hfa; [|done].
  destruct (evaluate (Fin b)) as [fb|] eqn:Hfb; [|done].
  pose proof (evaluate_finite _ _ Hfa) as Hva.
  apply isFinite_true in Hva as [fa' ->].
  pose proof (evaluate_finite _ _ Hfb) as Hvb.
  apply isFinite_true in Hvb as [fb' ->].
  cbn [Num.abs Num.mul].
  destruct (Num.lt (Fin (Rabs fa')) (Fin tol)) eqn:Ha.
  { intros [= <-]. exists a. split; [done|]. split; [lra|].
    exists fa'. split; [done|]. left. by apply lt_fin. }
  destruct (Num.lt (Fin (Rabs fb')) (Fin tol)) eqn:Hb.
  { intros [= <-]. exists b. split; [done|]. split; [lra|].
    exists fb'. split; [done|]. left. by apply lt_fin. }
  unfold Num.gt. destruct (Num.lt (Fin 0) (Fin (fa' * fb'))) eqn:Hsame; [done|].
  apply not_true_iff_false in Ha, Hsame. rewrite lt_fin in Ha, Hsame.
  apply bisect_rootNear; try done; lra.
Qed.

Lemma findRootBisection_oneSign (a b : number) (fa fb : R)
    (maxIterations : nat) :
  evaluate a = Some (Fin fa) → evaluate b = Some (Fin fb) →
  (tol <= Rabs fa)%R → (tol <= Rabs fb)%R → (0 < fa * fb)%R →
  findRootBisection evaluate a b (Fin tol) maxIterations = None.
Proof.
  intros Hfa Hfb Ha Hb Hsign. unfold findRootBisection. rewrite Hfa, Hfb.
  cbn [Num.abs Num.mul].
  assert (Num.lt (Fin (Rabs fa)) (Fin tol) = false) as ->
    by (apply not_true_iff_false; rewrite lt_fin; lra).
  assert (Num.lt (Fin (Rabs fb)) (Fin tol) = false) as ->
    by (apply not_true_iff_false; rewrite lt_fin; lra).
  unfold Num.gt. by rewrite (proj2 (lt_fin _ _) Hsign).
Qed.

End bisection.

(** X9.  What [findRootBisection] returns on an interval [a <= b], for a
    positive tolerance, is an abscissa of that interval where the
    expression is within the tolerance of 0, or the middle of a
    sub-interval of half-width below the tolerance at whose ends the values
    do not have one strict sign.  When the values at [a] and [b] are both
    outside the tolerance and have one strict sign, it gives [null]. *)
Theorem findRootBisection_spec (evaluate : number → option number)
    (tol a b : R) (maxIterations : nat) :
  (0 < tol)%R → (∀ x v, evaluate x = Some v → finite v) →
  (∀ r, (a <= b)%R →
        findRootBisection evaluate (Fin a) (Fin b) (Fin tol) maxIterations
        = Some r →
        ∃ c, r = Fin c ∧ rootNear evaluate tol a b c)
  ∧ (∀ fa fb,
       evaluate (Fin a) = Some (Fin fa) → evaluate (Fin b) = Some (Fin fb) →
       (tol <= Rabs fa)%R → (tol <= Rabs fb)%R → (0 < fa * fb)%R →
       findRootBisection evaluate (Fin a) (Fin b) (Fin tol) maxIterations
       = None).
Proof.
  intros Htol Hfin. split.
  - intros r Hab. by apply findRootBisection_rootNear.
  - intros fa fb. by apply findRootBisection_oneSign.
Qed.

Ltac decide_lt :=
  match goal with
  | |- context [Num.lt (Fin ?x) (Fin ?y)] =>
      first
        [ rewrite (proj2 (lt_fin x y))
            by (unfold Rabs, cubicAt; repeat destruct (Rcase_abs _); lra)
        | let H := fresh in
          assert (H : Num.lt (Fin x) (Fin y) = false)
            by (apply not_true_iff_false; rewrite lt_fin;
                unfold Rabs, cubicAt; repeat destruct (Rcase_abs _); lra);
          rewrite H; clear H ]
  end.

Lemma cubic_finite (A B C D : R) (a v : number) :
  cubic A B C D a = Some v → finite v.
Proof. destruct a; [|done..]. by intros [= <-]. Qed.

Lemma bisect_round (evaluate : number → option number) (n : nat)
    (a b fa fb tolerance : number) :
  bisect evaluate (S n) a b fa fb tolerance
  = let c := (a ⊕ b) ⊘ Fin 2 in
    match evaluate c with
    | None => None
    | Some fc =>
        if Num.lt (Num.abs fc) tolerance
           || Num.lt ((b ⊖ a) ⊘ Fin 2) tolerance
        then Some c
        else if Num.lt (fa ⊗ fc) (Fin 0)
             then bisect evaluate n a c fa fc tolerance
             else bisect evaluate n c b fc fb tolerance
    end.
Proof. done. Qed.

Lemma bisection_run :
  findRootBisection (cubic 0 0 1 0) (Fin (-1)) (Fin 1) (Fin (1 / 2)) 100
  = Some (Fin ((-1 + 1) / 2)).
Proof.
  unfold findRootBisection. cbn [cubic Num.abs Num.mul]. unfold Num.gt.
  repeat decide_lt. rewrite bisect_round. cbv zeta. cbn [Num.add].
  rewrite div_fin by lra. cbn [cubic Num.abs]. decide_lt. done.
Qed.

Lemma findRootBisection_spec_witness :
  ∃ c, Fin ((-1 + 1) / 2) = Fin c
       ∧ rootNear (cubic 0 0 1 0) (1 / 2) (-1) 1 c.
Proof.
  apply (proj1 (findRootBisection_spec (cubic 0 0 1 0) (1 / 2) (-1) 1 100
                  ltac:(lra) (cubic_finite 0 0 1 0))).
  - lra.
  - exact bisection_run.
Defined.

End CalculusFacts.

(** ** The activations *)

Module ActivationFacts.
Import Activations.

Lemma entry_mapTensor (f : number → number) (t : Tensor) (i j : nat) :
  f NaN = NaN → entry (mapTensor f t) i j = f (entry t i j).
Proof. intros HNaN. unfold entry, mapTensor. cbn [data]. by apply at1_rowAt_fmap. Qed.

Lemma entry_zipTensor (f : number → number → number) (a b r : Tensor)
    (i j : nat) :
  (∀ y, f NaN y = NaN) → zipTensor f a b = Ok r →
  entry r i j = f (entry a i j) (entry b i j).
Proof.
  intros HNaN. unfold zipTensor. cbv [mbind res_bind].
  destruct (zipWithTensor _ _ _) as [d|] eqn:E; [|done]. intros [= <-].
  by apply (entry_zipWithTensor f).
Qed.

Lemma sigmoid_range (val : number) : val ≠ NaN → inOpenUnit (sigmoid val).
Proof.
  intros Hval. unfold sigmoid.
  assert (Hclamp : ∃ c, Num.max (Fin (-500)) (Num.min (Fin 500) val) = Fin c).
  { destruct val; [| | |done]; cbn; by eexists. }
  destruct Hclamp as [c ->]. cbn [Num.neg Num.exp Num.add].
  pose proof (exp_pos (- c)) as Hexp.
  rewrite div_fin by lra. eexists. split; [done|]. split.
  - apply Rdiv_lt_0_compat; lra.
  - apply (Rmult_lt_reg_r (1 + Rtrigo_def.exp (- c))); [lra|].
    unfold Rdiv. rewrite Rmult_assoc, Rinv_l by lra. lra.
Qed.

(** X10.  [Sigmoid.forward] keeps the shape of its input and turns every
    entry other than [NaN], the two infinities included, into a number of
    [[0, 1]].  [Sigmoid.backward] does not enlarge a gradient: where the
    incoming gradient is a number [g] and the input is not [NaN], the
    outgoing one is a number of absolute value at most [|g|]. *)
Theorem sigmoid_unit_interval (input : Tensor) :
  (∃ out, forward Sigmoid input = Ok out
     ∧ rows out = rows input ∧ cols out = cols input
     ∧ length (data out) = length (data input)
     ∧ ∀ i j, entry input i j ≠ NaN → inUnit (entry out i j))
  ∧ (∀ outputGrad inputGrad i j g,
       backward Sigmoid outputGrad input = Ok inputGrad →
       entry outputGrad i j = Fin g → entry input i j ≠ NaN →
       within (Rabs g) (entry inputGrad i j)).
Proof.
  split.
  - eexists. split; [done|]. cbn. split; [done|]. split; [done|].
    split; [by rewrite length_fmap|]. intros i j Hval.
    rewrite (entry_mapTensor sigmoid) by done.
    destruct (sigmoid_range _ Hval) as (s & Hs & Hrange).
    exists s. split; [done | lra].
  - intros outputGrad inputGrad i j g Hback Hg Hval.
    destruct (sigmoid_range _ Hval) as (s & Hs & Hrange).
    cbn in Hback.
    rewrite (entry_zipTensor _ _ _ _ _ _ (fun y => eq_refl) Hback).
    rewrite Hg, (entry_mapTensor sigmoid), Hs by done.
    eexists. split; [done|].
    replace (g * s + - (g * s * s))%R with (g * (s * (1 - s)))%R by ring.
    replace (g * s * (1 + - s))%R with (g * (s * (1 - s)))%R by ring.
    assert (Hlo : (0 <= s * (1 - s))%R) by (apply Rmult_le_pos; lra).
    assert (Hhi : (s * (1 - s) <= 1)%R).
    { pose proof (Rle_0_sqr (s - 1 / 2)) as Hsq. unfold Rsqr in Hsq. lra. }
    rewrite Rabs_mult. rewrite (Rabs_right (s * (1 - s))) by lra.
    pose proof (Rabs_pos g).
    rewrite <- (Rmult_1_r (Rabs g)) at 2.
    by apply Rmult_le_compat_l.
Qed.

(** *** ReLU *)

Lemma relu_idempotent (val : number) :
  Num.max (Fin 0) (Num.max (Fin 0) val) = Num.max (Fin 0) val.
Proof.
  destruct val; cbn; try done; f_equal; unfold Rmax;
    repeat destruct (Rle_dec _ _); lra.
Qed.

Lemma relu_notNegative (val : number) :
  val ≠ NaN → notNegative (Num.max (Fin 0) val).
Proof.
  destruct val; cbn; try done. intros _. unfold Rmax.
  destruct (Rle_dec _ _); lra.
Qed.

(** X11.  [ReLU.forward] applied to its own output changes nothing, and
    every entry of the input other than [NaN] becomes a number that is not
    negative; [-Infinity] becomes 0. *)
Theorem relu_forward_idempotent (input : Tensor) :
  ∃ out, forward ReLU input = Ok out
    ∧ forward ReLU out = Ok out
    ∧ (∀ i j, entry input i j ≠ NaN → notNegative (entry out i j))
    ∧ (∀ i j, entry input i j = NegInf → entry out i j = Fin 0).
Proof.
  eexists. split; [done|]. split; [|split].
  - cbn. f_equal. unfold mapTensor. cbn [data rows cols]. f_equal.
    rewrite <- list_fmap_compose. apply list_fmap_ext. intros i row _. cbn.
    rewrite <- list_fmap_compose. apply list_fmap_ext. intros j val _. cbn.
    apply relu_idempotent.
  - intros i j Hval. rewrite (entry_mapTensor (fun val => Num.max (Fin 0) val))
      by done. by apply relu_notNegative.
  - intros i j Hval. rewrite (entry_mapTensor (fun val => Num.max (Fin 0) val))
      by done. by rewrite Hval.
Qed.

End ActivationFacts.

(** ** The losses *)

Module LossFacts.
Import Losses.

(** *** The mean squared error skips what is not finite *)

Lemma mseStep_run (predictions targets : Tensor) (s : R) (count i j : nat) :
  i < length (data predictions) → i < length (data targets) →
  mseStep predictions targets (Fin s, count) (i, j)
  = Ok (if finitePair predictions targets (i, j)
        then (Fin (s + squaredDiff predictions targets (i, j)), S count)
        else (Fin s, count)).
Proof.
  intros Hp Ht. unfold mseStep, finitePair. cbn [fst snd].
  rewrite !TensorFacts.at2_entry by done. cbv [mbind res_bind].
  destruct (entry predictions i j) as [p| | |] eqn:Ep; [|done..].
  destruct (entry targets i j) as [t| | |] eqn:Et; [|done..].
  cbn. unfold squaredDiff. cbn [fst snd]. rewrite Ep, Et. done.
Qed.

Lemma foldlM_mseStep_run (predictions targets : Tensor)
    (idxs : list (nat * nat)) (s : R) (count : nat) :
  (∀ ij, ij ∈ idxs → ij.1 < length (data predictions)
                     ∧ ij.1 < length (data targets)) →
  let good := filter (fun ij => finitePair predictions targets ij = true)
                     idxs in
  foldlM (mseStep predictions targets) (Fin s, count) idxs
  = Ok (Fin (s + sumR (squaredDiff predictions targets <$> good)),
        count + length good).
Proof.
  revert s count. induction idxs as [|[i j] idxs IH]; intros s count Hin good.
  - cbn. rewrite sumR_nil. f_equal. f_equal; [f_equal; lra | lia].
  - cbn [foldlM]. destruct (Hin (i, j) (list_elem_of_here _ _)) as [Hp Ht].
    rewrite mseStep_run by done. cbv [mbind res_bind]. unfold good.
    rewrite filter_cons.
    assert (Hrest : ∀ ij, ij ∈ idxs → ij.1 < length (data predictions)
                                     ∧ ij.1 < length (data targets))
      by (intros ij Hij; apply Hin; by apply list_elem_of_further).
    destruct (finitePair predictions targets (i, j)) eqn:E.
    + rewrite decide_True by done. rewrite IH by done.
      cbn [fmap list_fmap length]. rewrite sumR_cons.
      f_equal. f_equal; [f_equal; lra | lia].
    + rewrite decide_False by done. by rewrite IH by done.
Qed.

Lemma squaredDiff_nonneg (predictions targets : Tensor)
    (idxs : list (nat * nat)) :
  (0 <= sumR (squaredDiff predictions targets <$> idxs))%R.
Proof.
  apply RegressionFacts.sumR_nonneg_terms. intros ij _. unfold squaredDiff.
  apply Rle_0_sqr.
Qed.

(** X13.  On tensors that have a row for each of the [rows] of the
    predictions, [MSE.compute] returns, whatever [NaN] or infinity the
    tensors hold: its result is never [NaN] and never negative, and it is 0
    when there is no index pair at which both entries are finite. *)
Theorem mse_compute_not_negative (predictions targets : Tensor) :
  rows predictions ≤ length (data predictions) →
  rows predictions ≤ length (data targets) →
  ∃ a, compute MSE predictions targets = Ok a
       ∧ notNegative a
       ∧ (finitePairs predictions targets = [] → a = Fin 0).
Proof.
  intros Hp Ht. set (good := finitePairs predictions targets).
  assert (Hrun : compute MSE predictions targets
    = Ok (if bool_decide (0 < length good)
          then Fin (sumR (squaredDiff predictions targets <$> good)
                    / INR (length good))
          else Fin 0)).
  { cbn [compute MSE]. unfold mseCompute.
    rewrite foldlM_mseStep_run.
    - cbv [mbind res_bind]. fold (finitePairs predictions targets).
      fold good. cbn [Nat.add]. case_bool_decide as Hcount; [|done].
      unfold Num.ofNat. rewrite div_fin by (apply not_0_INR; lia).
      do 3 f_equal. lra.
    - intros [i j] Hij. apply MseFacts.elem_of_indices in Hij. cbn. lia. }
  eexists. split; [exact Hrun|]. split.
  - case_bool_decide as Hcount; [|cbn; lra]. cbn.
    apply Rmult_le_pos; [apply squaredDiff_nonneg|].
    apply Rlt_le, Rinv_0_lt_compat, lt_0_INR. lia.
  - intros Hnone. rewrite Hnone. by rewrite bool_decide_eq_false_2 by (cbn; lia).
Qed.

Lemma mse_compute_not_negative_witness :
  ∃ a, compute MSE LossSamples.spoiled LossSamples.wanted = Ok a
       ∧ notNegative a.
Proof.
  destruct (mse_compute_not_negative LossSamples.spoiled LossSamples.wanted)
    as (a & Hrun & Ha & _).
  - cbn. lia.
  - cbn. lia.
  - by exists a.
Defined.

(** *** Gradients without [NaN] *)

Lemma zipWithTensor_Forall (P : number → Prop) (f : number → number → number)
    (a b d : list (list number)) :
  (∀ val y, P (f val y)) → zipWithTensor f a b = Ok d →
  Forall (Forall P) d ∧ length d = length a
  ∧ ∀ i, length (rowAt d i) = length (rowAt a i).
Proof.
  intros HP Hd. rewrite (zipWithTensor_inv _ _ _ _ Hd). split; [|split].
  - apply Forall_lookup. intros i row Hrow.
    rewrite list_lookup_imap in Hrow.
    destruct (a !! i) as [arow|]; [|done]. cbn in Hrow. injection Hrow as <-.
    apply Forall_lookup. intros j val Hval. rewrite list_lookup_imap in Hval.
    destruct (arow !! j); [|done]. cbn in Hval. injection Hval as <-.
    apply HP.
  - by rewrite length_imap.
  - intros i. unfold rowAt. rewrite list_lookup_imap.
    destruct (a !! i); cbn; [by rewrite length_imap | done].
Qed.

Lemma clamp_within (c : R) (grad : number) :
  (0 <= c)%R → Num.isFinite grad = true →
  within c (Num.max (Fin (- c)) (Num.min (Fin c) grad)).
Proof.
  intros Hc Hfin. apply isFinite_true in Hfin as [g ->]. cbn.
  eexists. split; [done|]. unfold Rmax, Rmin, Rabs.
  repeat destruct (Rle_dec _ _); destruct (Rcase_abs _); lra.
Qed.

Lemma finite_guard (g : number) : finite (if Num.isFinite g then g else Fin 0).
Proof. by destruct g. Qed.

(** X14.  Whenever they return, [MSE.gradient] and [CrossEntropy.gradient]
    give a tensor with the rows, columns and row lengths of the predictions
    in which every entry is finite; those of [CrossEntropy.gradient] are
    within [[-10, 10]].  An entry that would be [NaN] or infinite is 0. *)
Theorem loss_gradients_finite (predictions targets grad : Tensor) :
  (gradient MSE predictions targets = Ok grad →
   allFinite grad)
  ∧ (gradient CrossEntropy predictions targets = Ok grad →
     Forall (Forall (within 10)) (data grad))
  ∧ (gradient MSE predictions targets = Ok grad
     ∨ gradient CrossEntropy predictions targets = Ok grad →
     rows grad = rows predictions ∧ cols grad = cols predictions
     ∧ length (data grad) = length (data predictions)
     ∧ ∀ i, length (rowAt (data grad) i)
            = length (rowAt (data predictions) i)).
Proof.
  assert (Hshape : ∀ f d,
    zipWithTensor f (data predictions) (data targets) = Ok d →
    length d = length (data predictions)
    ∧ ∀ i, length (rowAt d i) = length (rowAt (data predictions) i)).
  { intros f d Hd.
    by destruct (zipWithTensor_Forall (fun _ => True) f _ _ _
                   (fun _ _ => I) Hd) as (_ & ? & ?). }
  split; [|split].
  - cbn [gradient MSE]. unfold mseGradient. cbv [mbind res_bind].
    destruct (zipWithTensor _ _ _) as [d|] eqn:Hd; [|done]. intros [= <-].
    unfold allFinite. cbn [data].
    eapply (zipWithTensor_Forall finite), Hd. intros val y.
    apply finite_guard.
  - cbn [gradient CrossEntropy]. unfold crossEntropyGradient.
    cbv [mbind res_bind].
    destruct (zipWithTensor _ _ _) as [d|] eqn:Hd; [|done]. intros [= <-].
    cbn [data]. eapply (zipWithTensor_Forall (within 10)), Hd.
    intros val y. cbn. destruct (Num.isFinite _) eqn:E.
    + apply (clamp_within 10); [lra | done].
    + exists 0%R. split; [done|]. rewrite Rabs_R0. lra.
  - intros [Hg|Hg]; revert Hg; cbn [gradient MSE CrossEntropy];
      unfold mseGradient, crossEntropyGradient; cbv [mbind res_bind];
      (destruct (zipWithTensor _ _ _) as [d|] eqn:Hd; [|done]);
      intros [= <-]; cbn [data rows cols];
      destruct (Hshape _ _ Hd) as [Hlen Hrows]; done.
Qed.

Lemma loss_gradients_finite_witness :
  ∃ grad, gradient MSE LossSamples.spoiled LossSamples.wanted = Ok grad
          ∧ allFinite grad.
Proof.
  assert (Hrun : ∃ grad,
    gradient MSE LossSamples.spoiled LossSamples.wanted = Ok grad).
  { cbn [gradient MSE]. unfold mseGradient.
    rewrite zipWithTensor_ok by (cbn; lia). by eexists. }
  destruct Hrun as [grad Hrun]. exists grad. split; [done|].
  by apply (proj1 (loss_gradients_finite LossSamples.spoiled
                     LossSamples.wanted grad)).
Defined.

(** *** The cross entropy *)

Lemma epsilon_small : ∃ e, epsilon = Fin e ∧ (0 < e < 1 / 2)%R.
Proof. eexists. split; [done|]. cbn [pow]. lra. Qed.

Lemma clampPred_range (raw : R) :
  ∃ e c, epsilon = Fin e ∧ clampPred (Fin raw) = Fin c
         ∧ (0 < e <= c)%R ∧ (c <= 1 - e)%R.
Proof.
  destruct epsilon_small as (e & He & Hrange). exists e.
  unfold clampPred. rewrite He. cbn. eexists. split; [done|]. split; [done|].
  unfold Rmax, Rmin. repeat destruct (Rle_dec _ _); lra.
Qed.

Lemma log_fin (c : R) : (0 < c)%R → Num.log (Fin c) = Fin (ln c).
Proof. intros Hc. unfold Num.log. by rewrite sign_pos. Qed.

Lemma ln_neg (c : R) : (0 < c < 1)%R → (ln c < 0)%R.
Proof. intros Hc. rewrite <- ln_1. apply ln_increasing; lra. Qed.

(** The loss of one entry: a finite number, at most 0 for a target in the
    unit interval. *)
Lemma crossEntropy_term (raw : R) (target : number) :
  let pred := clampPred (Fin raw) in
  let loss := target ⊗ Num.log pred
              ⊕ (Fin 1 ⊖ target) ⊗ Num.log (Fin 1 ⊖ pred) in
  Num.isFinite loss = true →
  ∃ l, loss = Fin l ∧ (inUnit target → (l <= 0)%R).
Proof.
  intros pred loss Hfin. apply isFinite_true in Hfin as [l Hl].
  exists l. split; [done|]. intros (t & -> & Ht).
  destruct (clampPred_range raw) as (e & c & He & Hc & He' & Hc').
  unfold loss, pred in Hl. rewrite Hc in Hl. cbn [Num.sub Num.neg Num.add] in Hl.
  rewrite !log_fin in Hl by lra. cbn in Hl. injection Hl as <-.
  pose proof (ln_neg c ltac:(lra)). pose proof (ln_neg (1 + - c) ltac:(lra)).
  nra.
Qed.

Lemma foldlM_crossEntropyStep (predictions targets : Tensor)
    (idxs : list (nat * nat)) (s : R) (count : nat) (acc : number * nat) :
  foldlM (crossEntropyStep predictions targets) (Fin s, count) idxs = Ok acc →
  ∃ s', acc.1 = Fin s'
        ∧ (Forall (Forall inUnit) (data targets) → (s <= 0)%R → (s' <= 0)%R).
Proof.
  revert s count. induction idxs as [|[i j] idxs IH]; intros s count.
  - cbn. intros [= <-]. by exists s.
  - cbn [foldlM]. cbv [mbind res_bind]. unfold crossEntropyStep at 1.
    cbn [fst snd]. cbv [mbind res_bind].
    destruct (at2 (data predictions) i j) as [rawPred|] eqn:Ep; [|done].
    destruct rawPred as [raw| | |]; cbn [Num.isFinite negb];
      try (intros Hrest; by apply IH in Hrest).
    unfold at2 at 1.
    destruct (data targets !! i) as [trow|] eqn:Et; [|done].
    set (target := default NaN (trow !! j)).
    destruct (Num.isFinite _) eqn:Hfin;
      [|intros Hrest; by apply IH in Hrest].
    destruct (crossEntropy_term raw target Hfin) as (l & -> & Hl).
    cbn [Num.add]. intros Hrest. apply IH in Hrest as (s' & Hs' & Hneg).
    exists s'. split; [done|]. intros Hunit Hs. apply Hneg; [done|].
    assert (Htarget : target = NaN ∨ inUnit target).
    { unfold target. destruct (trow !! j) as [x|] eqn:Ex; [|by left].
      right. cbn. eapply Forall_lookup_1; [|exact Ex].
      eapply Forall_lookup_1; [exact Hunit | exact Et]. }
    destruct Htarget as [Hnan|Hin]; [by rewrite Hnan in Hfin|].
    specialize (Hl Hin). lra.
Qed.

(** X15.  Whenever [CrossEntropy.compute] returns on targets that are all
    numbers of [[0, 1]], its result is a finite number that is not negative,
    whatever [NaN] or infinity the predictions hold. *)
Theorem crossEntropy_compute_not_negative (predictions targets : Tensor)
    (a : number) :
  compute CrossEntropy predictions targets = Ok a →
  Forall (Forall inUnit) (data targets) →
  finiteNonNegative a.
Proof.
  cbn [compute CrossEntropy]. unfold crossEntropyCompute.
  cbv [mbind res_bind].
  destruct (foldlM _ _ _) as [[sum count]|] eqn:Hrun; [|done].
  apply foldlM_crossEntropyStep in Hrun as (s & Hs & Hneg). cbn in Hs.
  subst sum. intros [= <-] Hunit. case_bool_decide as Hcount.
  - assert (Hn : (0 < INR count)%R) by (apply lt_0_INR; lia).
    unfold Num.ofNat. cbn [Num.neg]. rewrite div_fin by lra.
    eexists. split; [done|].
    specialize (Hneg Hunit ltac:(lra)).
    apply Rmult_le_pos; [lra|]. by apply Rlt_le, Rinv_0_lt_compat.
  - exists 0%R. split; [done|lra].
Qed.

Lemma crossEntropy_compute_not_negative_witness :
  ∃ a, compute CrossEntropy LossSamples.probabilities LossSamples.labels = Ok a
       ∧ finiteNonNegative a.
Proof.
  assert (Hrun : ∃ a,
    compute CrossEntropy LossSamples.probabilities LossSamples.labels = Ok a).
  { cbn [compute CrossEntropy]. unfold crossEntropyCompute.
    cbn [indices seq mbind list_bind fmap list_fmap app foldlM
         LossSamples.probabilities rows cols].
    unfold crossEntropyStep. cbn [fst snd at2 data lookup list_lookup
      LossSamples.probabilities LossSamples.labels default].
    cbv [mbind res_bind]. cbn [Num.isFinite negb].
    repeat (destruct (Num.isFinite _); cbv [mbind res_bind];
            cbn [Num.isFinite negb fst snd]); by eexists. }
  destruct Hrun as [a Hrun]. exists a. split; [done|].
  apply (crossEntropy_compute_not_negative LossSamples.probabilities
           LossSamples.labels a Hrun).
  repeat constructor; eexists; (split; [done|lra]).
Defined.

End LossFacts.

(** ** Products, transposes and the shapes of a layer's gradients *)

Module NetworkFacts.
Import NeuralNetwork.

Lemma mul_comm (a b : number) : a ⊗ b = b ⊗ a.
Proof.
  destruct a, b; cbn; try done. f_equal. apply Rmult_comm.
Qed.

Lemma dot_ext (a b a' b' : Tensor) (i j i' j' : nat) (ks : list nat)
    (sum : number) :
  (∀ k, k ∈ ks → entry a i k ⊗ entry b k j = entry a' i' k ⊗ entry b' k j') →
  dot a b i j ks sum = dot a' b' i' j' ks sum.
Proof.
  unfold dot. revert sum. induction ks as [|k ks IH]; intros sum Hks; [done|].
  cbn [foldl]. rewrite Hks by apply list_elem_of_here.
  apply IH. intros k' Hk'. apply Hks. by apply list_elem_of_further.
Qed.

Lemma wellFormed_product (a b : Tensor) : wellFormed (product a b).
Proof. apply TensorFacts.wellFormed_tabulate. Qed.

Lemma entry_transposed (t : Tensor) (i j : nat) :
  i < rows t → j < cols t → entry (transposed t) j i = entry t i j.
Proof.
  intros Hi Hj. unfold transposed.
  by rewrite TensorFacts.entry_tabulate.
Qed.

Lemma product_transposed (a b : Tensor) :
  cols a = rows b →
  product (transposed b) (transposed a) = transposed (product a b).
Proof.
  intros Hk.
  assert (Hdata :
    tabulate (cols b) (rows a)
      (fun j i => dot (transposed b) (transposed a) j i (seq 0 (rows b))
                      (Fin 0))
    = tabulate (cols b) (rows a) (fun j i => entry (product a b) i j)).
  { apply TensorFacts.tabulate_ext. intros j i Hj Hi.
    unfold product. rewrite TensorFacts.entry_tabulate by done.
    rewrite <- Hk. apply dot_ext. intros k Hkin. apply elem_of_seq in Hkin.
    rewrite !entry_transposed by lia. apply mul_comm. }
  change (product (transposed b) (transposed a))
    with {| data := tabulate (cols b) (rows a)
                      (fun j i => dot (transposed b) (transposed a) j i
                                      (seq 0 (rows b)) (Fin 0));
            rows := cols b; cols := rows a |}.
  change (transposed (product a b))
    with {| data := tabulate (cols b) (rows a)
                      (fun j i => entry (product a b) i j);
            rows := cols b; cols := rows a |}.
  by rewrite Hdata.
Qed.

(** X16.  For well-formed tensors [A] ([n]×[k]) and [B] ([k]×[m]),
    [matmul(A, B)] returns a well-formed [n]×[m] tensor, and its transpose is
    the product of the transposes in the opposite order:
    [transpose(matmul(A, B)) = matmul(transpose(B), transpose(A))], also
    when entries are infinite or [NaN]. *)
Theorem transpose_matmul (A B : Tensor) :
  wellFormed A → wellFormed B → cols A = rows B →
  ∃ P At Bt Pt,
    matmul A B = Ok P ∧ wellFormed P ∧ rows P = rows A ∧ cols P = cols B
    ∧ transpose A = Ok At ∧ transpose B = Ok Bt ∧ transpose P = Ok Pt
    ∧ matmul Bt At = Ok Pt.
Proof.
  intros [HrA HcA] [HrB HcB] Hk.
  exists (product A B), (transposed A), (transposed B),
         (transposed (product A B)).
  split; [apply TensorFacts.matmul_product; lia|].
  split; [apply wellFormed_product|]. split; [done|]. split; [done|].
  split; [apply TensorFacts.transpose_transposed; lia|].
  split; [apply TensorFacts.transpose_transposed; lia|].
  split.
  { apply TensorFacts.transpose_transposed. cbn. unfold tabulate.
    by rewrite length_fmap, length_seq. }
  rewrite TensorFacts.matmul_product.
  - by rewrite product_transposed.
  - cbn. unfold tabulate. by rewrite length_fmap, length_seq.
  - cbn. unfold tabulate. rewrite length_fmap, length_seq. lia.
Qed.

Lemma transpose_matmul_witness :
  ∃ P At Bt Pt,
    matmul TensorSamples.twoByThree (identity 3) = Ok P
    ∧ transpose TensorSamples.twoByThree = Ok At
    ∧ transpose (identity 3) = Ok Bt ∧ transpose P = Ok Pt
    ∧ matmul Bt At = Ok Pt.
Proof.
  destruct (transpose_matmul TensorSamples.twoByThree (identity 3))
    as (P & At & Bt & Pt & H1 & _ & _ & _ & H2 & H3 & H4 & H5).
  - exact TensorFacts.wellFormed_twoByThree.
  - apply TensorFacts.wellFormed_tabulate.
  - done.
  - by exists P, At, Bt, Pt.
Defined.

(** *** The five activations keep shapes *)

Lemma shaped_mapTensor (f : number → number) (n k : nat) (z : Tensor) :
  shaped n k z → shaped n k (Activations.mapTensor f z).
Proof.
  intros ([Hr Hc] & Hn & Hk). split; [|done]. split; cbn.
  - by rewrite length_fmap.
  - apply Forall_fmap. eapply Forall_impl; [exact Hc|]. intros row Hrow.
    cbn. by rewrite length_fmap.
Qed.

Lemma shaped_zipTensor (f : number → number → number) (n k : nat)
    (g z : Tensor) :
  shaped n k g → length (data g) ≤ length (data z) →
  ∃ r, Activations.zipTensor f g z = Ok r ∧ shaped n k r.
Proof.
  intros ([Hr Hc] & Hn & Hk) Hlen. unfold Activations.zipTensor.
  rewrite zipWithTensor_ok by done. eexists. split; [done|].
  split; [|done]. split; cbn.
  - by rewrite length_imap.
  - apply Forall_lookup. intros i row Hrow. rewrite list_lookup_imap in Hrow.
    destruct (data g !! i) as [grow|] eqn:Eg; [|done]. cbn in Hrow.
    injection Hrow as <-. rewrite length_imap.
    by eapply (Forall_lookup_1 _ _ _ _ Hc).
Qed.

Lemma shaped_lengths (n k : nat) (g z : Tensor) :
  shaped n k g → shaped n k z → length (data g) ≤ length (data z).
Proof. intros ([Hg _] & Hn & _) ([Hz _] & Hn' & _). lia. Qed.

Lemma getActivation_shapePreserving (type : string) :
  shapePreserving (Activations.getActivation type).
Proof.
  assert (Hmap : ∀ f h, shapePreserving
    {| forward input := Ok (Activations.mapTensor f input);
       backward outputGrad input :=
         Activations.zipTensor h outputGrad (Activations.mapTensor f input) |}).
  { intros f h. split.
    - intros n k z Hz. eexists. split; [done|]. by apply shaped_mapTensor.
    - intros n k g z Hg Hz. cbn. apply shaped_zipTensor; [done|].
      cbn. rewrite length_fmap. by eapply shaped_lengths. }
  assert (Hrelu : shapePreserving Activations.ReLU).
  { split.
    - intros n k z Hz. eexists. split; [done|]. by apply shaped_mapTensor.
    - intros n k g z Hg Hz. cbn. apply shaped_zipTensor; [done|].
      by eapply shaped_lengths. }
  unfold Activations.getActivation.
  repeat (destruct (String.eqb type _)); try apply Hmap; try apply Hrelu.
  - split.
    + intros n k z Hz. by exists z.
    + intros n k g z Hg Hz. by exists g.
  - split.
    + intros n k z Hz. eexists. split; [done|].
      destruct Hz as ([Hr Hc] & Hn & Hk). split; [|done]. split; cbn.
      * by rewrite length_fmap.
      * apply Forall_fmap. eapply Forall_impl; [exact Hc|]. intros row Hrow.
        cbn. by rewrite SoftmaxFacts.length_softmaxRow.
    + intros n k g z Hg Hz. cbn. apply shaped_zipTensor; [done|].
      cbn. rewrite length_fmap. by eapply shaped_lengths.
Qed.

(** *** Forward and backward through one layer *)

Lemma traverse_total {A B} (f : A → res B) (xs : list A) :
  (∀ x, x ∈ xs → ∃ y, f x = Ok y) →
  ∃ ys, traverse f xs = Ok ys ∧ length ys = length xs.
Proof.
  induction xs as [|x xs IH]; intros Hf; [by exists []|].
  cbn [traverse]. destruct (Hf x (list_elem_of_here _ _)) as [y ->].
  destruct IH as (ys & -> & Hlen).
  { intros x' Hx'. apply Hf. by apply list_elem_of_further. }
  exists (y :: ys). split; [done|]. cbn. by rewrite Hlen.
Qed.

Lemma colSum_total (t : Tensor) :
  rows t ≤ length (data t) →
  ∃ sums, colSum t = Ok sums ∧ length sums = cols t.
Proof.
  intros Hrows. unfold colSum.
  destruct (traverse_total
              (fun j => colSumAcc t j (seq 0 (rows t)) (Fin 0))
              (seq 0 (cols t))) as (sums & Hsums & Hlen).
  - intros j _. generalize (Fin 0).
    assert (Hidx : ∀ i, i ∈ seq 0 (rows t) → i < length (data t)).
    { intros i Hi. apply elem_of_seq in Hi. lia. }
    revert Hidx. generalize (seq 0 (rows t)).
    induction l as [|i idx IH]; intros Hidx sum; [by eexists|].
    cbn [colSumAcc]. rewrite TensorFacts.at2_entry
      by (apply Hidx, list_elem_of_here).
    cbv [mbind res_bind]. apply IH. intros i' Hi'. apply Hidx.
    by apply list_elem_of_further.
  - exists sums. split; [done|]. by rewrite Hlen, length_seq.
Qed.

Lemma shaped_product (a b : Tensor) : shaped (rows a) (cols b) (product a b).
Proof. split; [apply wellFormed_product | done]. Qed.

Lemma shaped_broadcastAdd (n k : nat) (t : Tensor) (vec : list number) :
  shaped n k t → shaped n k (broadcastAdd t vec).
Proof.
  intros ([Hr Hc] & Hn & Hk). split; [|done]. split; cbn.
  - by rewrite length_fmap.
  - apply Forall_fmap. eapply Forall_impl; [exact Hc|]. intros row Hrow.
    cbn. by rewrite length_imap.
Qed.

(** X17.  [Layer.backward] throws "Forward pass must be called before
    backward" and changes nothing while the layer has seen no input.  For a
    layer made with one of the activations of [getActivation], well-formed
    weights of [out] rows and [in] columns and a well-formed input of [n]
    rows and [in] columns, [forward] returns a well-formed [n]×[out]
    output; [backward] on a well-formed [n]×[out] gradient then returns a
    well-formed [n]×[in] gradient for the input and caches a weight
    gradient with the shape of the weights and a bias gradient with one
    entry per output, leaving the weights and the bias as they were. *)
Theorem layer_gradient_shapes (l : Layer) (outputGrad : Tensor) :
  (lastInput l = None ∨ preActivationOutput l = None →
   LayerM.backward outputGrad l
   = (Throw (Error "Forward pass must be called before backward"), l))
  ∧ (∀ type input n,
       activation l = Activations.getActivation type →
       wellFormed (weights l) →
       shaped n (cols (weights l)) input →
       shaped n (rows (weights l)) outputGrad →
       ∃ out l1 inputGrad l2 wGrad bGrad,
         LayerM.forward input l = (Ok out, l1)
         ∧ shaped n (rows (weights l)) out
         ∧ LayerM.backward outputGrad l1 = (Ok inputGrad, l2)
         ∧ shaped n (cols (weights l)) inputGrad
         ∧ weightGrad l2 = Some wGrad
         ∧ shaped (rows (weights l)) (cols (weights l)) wGrad
         ∧ biasGrad l2 = Some bGrad ∧ length bGrad = rows (weights l)
         ∧ weights l2 = weights l ∧ bias l2 = bias l).
Proof.
  split.
  { intros Hnone. unfold LayerM.backward. run_method.
    destruct Hnone as [-> | ->]; [done|]. by destruct (lastInput l). }
  intros type input n Hact [Hwr Hwc] Hin Hgrad.
  destruct (getActivation_shapePreserving type) as [Hfwd Hbwd].
  rewrite <- Hact in Hfwd, Hbwd.
  pose proof Hin as ([Hir Hic] & Hn & Hk).
  set (z := broadcastAdd (product input (transposed (weights l))) (bias l)).
  assert (Hz : shaped n (rows (weights l)) z).
  { apply shaped_broadcastAdd. rewrite <- Hn. apply shaped_product. }
  destruct (Hfwd _ _ z Hz) as (out & Hout & Hshape).
  destruct (Hbwd _ _ outputGrad z Hgrad Hz) as (aG & HaG & HaGs).
  pose proof HaGs as ([Har Hac] & Han & Hak).
  destruct (colSum_total aG ltac:(lia)) as (sums & Hsums & Hlen).
  exists out. eexists. exists (product aG (weights l)). eexists.
  exists (product (transposed aG) input), sums.
  assert (Hforward : LayerM.forward input l
    = (Ok out, LayerM.setPreActivationOutput (Some z)
                 (LayerM.setLastInput (Some input) l))).
  { unfold LayerM.forward. run_method.
    cbn [weights bias activation LayerM.setLastInput
         LayerM.setPreActivationOutput].
    rewrite TensorFacts.transpose_transposed by lia.
    rewrite TensorFacts.matmul_product; cycle 1.
    { lia. }
    { cbn. unfold tabulate. rewrite length_fmap, length_seq. lia. }
    fold z. by rewrite Hout. }
  split; [exact Hforward|]. split; [done|]. split.
  { unfold LayerM.backward. run_method.
    cbn [lastInput preActivationOutput activation weights
         LayerM.setLastInput LayerM.setPreActivationOutput].
    rewrite HaG. rewrite TensorFacts.transpose_transposed by lia.
    rewrite TensorFacts.matmul_product; cycle 1.
    { cbn. unfold tabulate. by rewrite length_fmap, length_seq. }
    { cbn. lia. }
    rewrite Hsums.
    cbn [weights LayerM.setWeightGrad LayerM.setBiasGrad].
    rewrite TensorFacts.matmul_product by lia. reflexivity. }
  cbn [weightGrad biasGrad weights bias LayerM.setWeightGrad
       LayerM.setBiasGrad LayerM.setLastInput LayerM.setPreActivationOutput].
  split; [rewrite <- Han; apply shaped_product|].
  split; [done|].
  split.
  { split; [apply wellFormed_product|]. cbn. split; [lia | lia]. }
  split; [done|]. split; [lia|]. done.
Qed.

Lemma layer_gradient_shapes_witness :
  ∃ out l1 inputGrad l2 wGrad,
    LayerM.forward EngineSamples.input (EngineSamples.linearLayer 2)
    = (Ok out, l1)
    ∧ LayerM.backward EngineSamples.target l1 = (Ok inputGrad, l2)
    ∧ weightGrad l2 = Some wGrad
    ∧ shaped 1 1 wGrad.
Proof.
  destruct (proj2 (layer_gradient_shapes (EngineSamples.linearLayer 2)
                     EngineSamples.target) "linear" EngineSamples.input 1)
    as (out & l1 & inputGrad & l2 & wGrad & bGrad & H1 & _ & H2 & _ & H3
        & H4 & _).
  - done.
  - split; [done | by repeat constructor].
  - split; [split; [done | by repeat constructor] | done].
  - split; [split; [done | by repeat constructor] | done].
  - by exists out, l1, inputGrad, l2, wGrad.
Defined.

End NetworkFacts.

(** ** Adam's first step and the moments it keeps per shape *)

Module OptimizerFacts.
Import Optimizers.

Lemma add_length (a b c : Tensor) :
  add a b = Ok c → length (data c) = length (data a).
Proof.
  unfold add, NeuralNetwork.add. cbv [mbind res_bind].
  destruct (zipWithTensor _ _ _) as [d|] eqn:E; [|done]. intros [= <-].
  cbn. rewrite (zipWithTensor_inv _ _ _ _ E). by rewrite length_imap.
Qed.

Lemma moment_entries (gradients m0 v0 mNew g2 vNew : Tensor) :
  add (multiplyScalar m0 beta1) (multiplyScalar gradients (Fin 1 ⊖ beta1))
  = Ok mNew →
  elementwiseMultiply gradients gradients = Ok g2 →
  add (multiplyScalar v0 beta2) (multiplyScalar g2 (Fin 1 ⊖ beta2))
  = Ok vNew →
  (∀ i j, entry mNew i j
          = entry m0 i j ⊗ beta1 ⊕ entry gradients i j ⊗ (Fin 1 ⊖ beta1))
  ∧ (∀ i j, entry vNew i j
            = entry v0 i j ⊗ beta2
              ⊕ entry gradients i j ⊗ entry gradients i j
                ⊗ (Fin 1 ⊖ beta2))
  ∧ length (data mNew) = length (data m0)
  ∧ length (data vNew) = length (data v0).
Proof.
  intros HmNew Hg2 HvNew. split; [|split; [|split]].
  - intros i j. rewrite (AdamFacts.entry_add _ _ _ _ _ HmNew).
    by rewrite !AdamFacts.entry_multiplyScalar.
  - intros i j. rewrite (AdamFacts.entry_add _ _ _ _ _ HvNew).
    rewrite !AdamFacts.entry_multiplyScalar.
    by rewrite (AdamFacts.entry_elementwiseMultiply _ _ _ _ _ Hg2).
  - rewrite (add_length _ _ _ HmNew). cbn. by rewrite length_fmap.
  - rewrite (add_length _ _ _ HvNew). cbn. by rewrite length_fmap.
Qed.

(** The moments [update] stores, entry by entry. *)
Lemma adamUpdate_moments (weights gradients : Tensor) (lr : number) (s s1 : Adam)
    (r : Tensor) :
  adamUpdate weights gradients lr s = (Ok r, s1) →
  ∃ m0 v0 mNew vNew,
    (m s !! getKey weights = None
     ∧ m0 = zerosLike gradients ∧ v0 = zerosLike gradients
     ∨ m s !! getKey weights = Some m0 ∧ v s !! getKey weights = Some v0)
    ∧ m s1 !! getKey weights = Some mNew
    ∧ v s1 !! getKey weights = Some vNew
    ∧ (∀ i j, entry mNew i j
              = entry m0 i j ⊗ beta1 ⊕ entry gradients i j ⊗ (Fin 1 ⊖ beta1))
    ∧ (∀ i j, entry vNew i j
              = entry v0 i j ⊗ beta2
                ⊕ entry gradients i j ⊗ entry gradients i j ⊗ (Fin 1 ⊖ beta2))
    ∧ length (data mNew) = length (data m0)
    ∧ length (data vNew) = length (data v0).
Proof.
  unfold adamUpdate. run_method. cbn [m v t biasM biasV].
  destruct (m s !! getKey weights) as [m0|] eqn:Em.
  - rewrite bool_decide_eq_false_2 by done. cbn [m v t biasM biasV].
    rewrite Em. run_method.
    destruct (add (multiplyScalar m0 _) _) as [mNew|] eqn:HmNew; [|done].
    destruct (elementwiseMultiply _ _) as [g2|] eqn:Hg2; [|done].
    destruct (v s !! getKey weights) as [v0|] eqn:Ev; run_method; [|done].
    destruct (add (multiplyScalar v0 _) _) as [vNew|] eqn:HvNew; [|done].
    cbn [m v t biasM biasV].
    destruct (elementwiseDivide _ _ _) as [update|] eqn:Hupdate; [|done].
    destruct (subtract weights update) as [r'|] eqn:Hr; [|done].
    intros [= <- <-]. exists m0, v0, mNew, vNew. cbn [m v].
    rewrite !lookup_insert_eq. split; [by right|]. split; [done|].
    split; [done|]. by eapply moment_entries.
  - rewrite bool_decide_eq_true_2 by done. cbn [m v t biasM biasV].
    rewrite !lookup_insert_eq. run_method.
    destruct (add (multiplyScalar _ beta1) _) as [mNew|] eqn:HmNew; [|done].
    destruct (elementwiseMultiply _ _) as [g2|] eqn:Hg2; [|done].
    destruct (add (multiplyScalar _ beta2) _) as [vNew|] eqn:HvNew; [|done].
    cbn [m v t biasM biasV].
    destruct (elementwiseDivide _ _ _) as [update|] eqn:Hupdate; [|done].
    destruct (subtract weights update) as [r'|] eqn:Hr; [|done].
    intros [= <- <-].
    exists (zerosLike gradients), (zerosLike gradients), mNew, vNew. cbn [m v].
    rewrite !lookup_insert_eq. split; [by left|]. split; [done|].
    split; [done|]. by eapply moment_entries.
Qed.

(** X19.  Adam keeps its moments under the key "rows x cols" of the weights
    it is given, so tensors of one shape share them: after a first update,
    the update of another tensor with the same number of rows and columns
    does not start from zero moments but from those the first tensor's
    gradient left, and it is the optimizer's second step. *)
Theorem adam_moments_shared (w1 g1 w2 g2 r1 r2 : Tensor) (lr : number)
    (s1 : Adam) :
  adamUpdate w1 g1 lr newAdam = (Ok r1, s1) →
  rows w2 = rows w1 → cols w2 = cols w1 →
  (adamUpdate w2 g2 lr s1).1 = Ok r2 →
  ∀ i j,
    entry r2 i j
    = adamWeightEntry 2
        (entry (zerosLike g1) i j ⊗ beta1 ⊕ entry g1 i j ⊗ (Fin 1 ⊖ beta1))
        (entry (zerosLike g1) i j ⊗ beta2
         ⊕ entry g1 i j ⊗ entry g1 i j ⊗ (Fin 1 ⊖ beta2))
        (entry w2 i j) (entry g2 i j) lr.
Proof.
  intros Hrun1 Hrows Hcols Hrun2 i j.
  assert (Hkey : getKey w2 = getKey w1).
  { unfold getKey. by rewrite Hrows, Hcols. }
  destruct (adamUpdate_moments _ _ _ _ _ _ Hrun1)
    as (m0 & v0 & mNew & vNew & Hcase & Hm & Hv & HmNew & HvNew & _).
  destruct Hcase as [(_ & -> & ->) | [Habs _]]; [|done].
  destruct (AdamFacts.adamUpdate_entries w2 g2 lr s1 r2 Hrun2)
    as (m0 & v0 & Hcase & Hentries).
  rewrite Hkey, Hm, Hv in Hcase.
  destruct Hcase as [(Habs & _) | [[= <-] [= <-]]]; [done|].
  rewrite Hentries, HmNew, HvNew.
  pose proof (AdamFacts.adamUpdate_t w1 g1 lr newAdam) as Ht.
  rewrite Hrun1 in Ht. cbn in Ht. by rewrite Ht.
Qed.

(** With stored moments that have as many rows as the weights and the
    gradient, the update returns. *)
Lemma adamUpdate_returns (weights gradients m0 v0 : Tensor) (lr : number)
    (s : Adam) :
  m s !! getKey weights = Some m0 → v s !! getKey weights = Some v0 →
  length (data m0) = length (data gradients) →
  length (data v0) = length (data gradients) →
  length (data weights) = length (data gradients) →
  ∃ r, (adamUpdate weights gradients lr s).1 = Ok r.
Proof.
  intros Hm Hv Hlm Hlv Hlw. unfold adamUpdate. run_method.
  cbn [m v t biasM biasV]. rewrite Hm.
  rewrite bool_decide_eq_false_2 by done. cbn [m v t biasM biasV].
  rewrite Hm, Hv. run_method.
  unfold add, NeuralNetwork.add, elementwiseMultiply, elementwiseDivide,
    subtract, NeuralNetwork.subtract. cbv [mbind res_bind].
  destruct (AdamFacts.zipWithTensor_total Num.add
    (data (multiplyScalar m0 beta1))
    (data (multiplyScalar gradients (Fin 1 ⊖ beta1)))) as (mNew & -> & HmNew).
  { cbn. rewrite !length_fmap. lia. }
  destruct (AdamFacts.zipWithTensor_total Num.mul (data gradients)
              (data gradients)) as (g2 & -> & Hg2); [done|].
  destruct (AdamFacts.zipWithTensor_total Num.add
    (data (multiplyScalar v0 beta2))
    (data (multiplyScalar
             {| data := g2; rows := rows gradients; cols := cols gradients |}
             (Fin 1 ⊖ beta2)))) as (vNew & -> & HvNew).
  { cbn. rewrite !length_fmap. lia. }
  cbn in HmNew, HvNew. rewrite !length_fmap in HmNew, HvNew.
  cbn [m v t biasM biasV data rows cols multiplyScalar
       NeuralNetwork.multiplyScalar].
  match goal with
  | |- context [zipWithTensor ?f ?a ?b] =>
      destruct (AdamFacts.zipWithTensor_total f a b) as (update & -> & Hupdate)
  end.
  { cbn. rewrite !length_fmap. lia. }
  cbn in Hupdate. rewrite !length_fmap in Hupdate.
  match goal with
  | |- context [zipWithTensor ?f ?a ?b] =>
      destruct (AdamFacts.zipWithTensor_total f a b) as (r & -> & Hr)
  end.
  { cbn. lia. }
  by eexists.
Qed.

Lemma adam_moments_shared_witness :
  ∃ r1 s1 r2,
    adamUpdate AdamSamples.w AdamSamples.g AdamSamples.lr newAdam = (Ok r1, s1)
    ∧ (adamUpdate AdamSamples.w AdamSamples.w AdamSamples.lr s1).1 = Ok r2
    ∧ entry r2 0 0
      = adamWeightEntry 2 (Fin 0 ⊗ beta1 ⊕ Fin 2 ⊗ (Fin 1 ⊖ beta1))
          (Fin 0 ⊗ beta2 ⊕ Fin 2 ⊗ Fin 2 ⊗ (Fin 1 ⊖ beta2))
          (Fin 1) (Fin 1) AdamSamples.lr.
Proof.
  destruct (AdamFacts.adamUpdate_fresh AdamSamples.w AdamSamples.g
              AdamSamples.lr) as (r1 & s1 & Hrun & _); [cbn; lia|].
  destruct (adamUpdate_moments _ _ _ _ _ _ Hrun)
    as (m0 & v0 & mNew & vNew & Hcase & Hm & Hv & _ & _ & Hlm & Hlv).
  destruct Hcase as [(_ & -> & ->) | [Habs _]]; [|done].
  destruct (adamUpdate_returns AdamSamples.w AdamSamples.w mNew vNew
              AdamSamples.lr s1 Hm Hv Hlm Hlv eq_refl) as [r2 Hrun2].
  exists r1, s1, r2. split; [done|]. split; [done|].
  exact (adam_moments_shared AdamSamples.w AdamSamples.g AdamSamples.w
           AdamSamples.w r1 r2 AdamSamples.lr s1 Hrun eq_refl eq_refl Hrun2
           0 0).
Defined.

End OptimizerFacts.


(** ** The history of the debug engine *)

Module HistoryFacts.
Import Engine EngineFacts.

(** *** What leaves the history, the index and the array alone *)

Lemma completeForward_frame (idx : list nat) (current : option Tensor) :
  keeps (sameOn frame) (completeForward idx current).
Proof.
  revert current. induction idx as [|i idx IH]; intros current;
    cbn [completeForward]; repeat engine_step; done.
Qed.

Lemma forwardLayerSnapshot_frame (now layerIndex : nat) :
  keeps (sameOn frame) (forwardLayerSnapshot now layerIndex).
Proof. unfold forwardLayerSnapshot. repeat engine_step; done. Qed.

Lemma computeLossSnapshot_frame (now : nat) :
  keeps (sameOn frame) (computeLossSnapshot now).
Proof.
  unfold computeLossSnapshot. repeat engine_step; try done.
  apply completeForward_frame.
Qed.

Lemma lossGradientSnapshot_frame (now : nat) :
  keeps (sameOn frame) (lossGradientSnapshot now).
Proof. unfold lossGradientSnapshot. repeat engine_step; done. Qed.

Lemma backwardLayerSnapshot_frame (now layerIndex : nat) :
  keeps (sameOn frame) (backwardLayerSnapshot now layerIndex).
Proof. unfold backwardLayerSnapshot. repeat engine_step; done. Qed.

Lemma updateLayers_frame (idx : list nat) (lr : number)
    (computations : list (string * Value)) :
  keeps (sameOn frame) (updateLayers idx lr computations).
Proof.
  revert computations. induction idx as [|i idx IH]; intros computations;
    cbn [updateLayers]; repeat engine_step; done.
Qed.

Lemma updateWeightsSnapshot_frame (now : nat) (lr : number) :
  keeps (sameOn frame) (updateWeightsSnapshot now lr).
Proof.
  unfold updateWeightsSnapshot. repeat engine_step; try done.
  apply updateLayers_frame.
Qed.

Lemma trainUpdate_frame (lr : number) (idx : list nat) :
  keeps (sameOn frame) (forEach (trainUpdate lr) idx).
Proof.
  induction idx as [|i idx IH]; cbn [forEach]; [by repeat engine_step|].
  apply keeps_bind; [tc_solve| |by intros ?].
  unfold trainUpdate. repeat engine_step; done.
Qed.

Lemma trainOneEpoch_frame (input target : Tensor) (lr : number) :
  keeps (sameOn frame) (trainOneEpoch input target lr).
Proof.
  unfold trainOneEpoch. repeat engine_step; try done.
  apply trainUpdate_frame.
Qed.

Lemma frame_steps {A} (method : Method DebugEngine A) :
  keeps (sameOn frame) method → keeps (sameOn steps) method.
Proof.
  intros H e. specialize (H e). unfold sameOn, frame, steps in *.
  by injection H as -> -> _.
Qed.

Lemma frame_historyOk (e e' : DebugEngine) :
  frame e' = frame e → historyOk e → historyOk e'.
Proof.
  unfold frame. intros [= Hh Hi Hp] (Hidx & Hnum & Hshare).
  unfold historyOk, indexInHistory, numbered, sharesActivations.
  by rewrite Hh, Hi, Hp.
Qed.

Lemma frame_preserves {A} (method : Method DebugEngine A) :
  keeps (sameOn frame) method → keeps (preserves historyOk) method.
Proof. intros H e He. eapply frame_historyOk; [apply H | done]. Qed.

(** *** What a snapshot holds *)

Lemma returnsFrom_this {A} (e : DebugEngine) (Q : A → DebugEngine → Prop)
    (k : DebugEngine → Method DebugEngine A) :
  returnsFrom e Q (k e) → returnsFrom e Q (this ≫= k).
Proof. done. Qed.

Lemma returnsFrom_ret {A B} (e : DebugEngine) (Q : B → DebugEngine → Prop)
    (a : A) (k : A → Method DebugEngine B) :
  returnsFrom e Q (k a) → returnsFrom e Q (mret a ≫= k).
Proof. done. Qed.

Lemma returnsFrom_bind {A B} (e : DebugEngine) (Q : B → DebugEngine → Prop)
    (method : Method DebugEngine A) (k : A → Method DebugEngine B) :
  (∀ a e', returnsFrom e' Q (k a)) → returnsFrom e Q (method ≫= k).
Proof.
  intros Hk b e'. cbv [mbind method_bind].
  destruct (method e) as [[a|err] e1]; [apply Hk | done].
Qed.

Lemma returnsFrom_throw {A B} (e : DebugEngine) (Q : B → DebugEngine → Prop)
    (err : exn) (k : A → Method DebugEngine B) :
  returnsFrom e Q (throw err ≫= k).
Proof. by intros b e'. Qed.

Lemma returnsFrom_field {A B} (e : DebugEngine) (Q : B → DebugEngine → Prop)
    (l : Layer) (f : Layer → A) (k : A → Method DebugEngine B) :
  returnsFrom e Q (k (f l)) → returnsFrom e Q (field (Some l) f ≫= k).
Proof. done. Qed.

Lemma returnsFrom_no_field {A B} (e : DebugEngine)
    (Q : B → DebugEngine → Prop) (f : Layer → A)
    (k : A → Method DebugEngine B) :
  returnsFrom e Q (field None f ≫= k).
Proof. by intros b e'. Qed.

Lemma returnsFrom_snapshot (e : DebugEngine) (type : StepType)
    (layerIndex : option nat) (computation : ComputationDetail) (now : nat) :
  returnsFrom e snapshotOf
    (mret {| stepType := type;
             layerIndex := layerIndex;
             networkState := getCurrentState e;
             computation := computation;
             timestamp := now;
             stepNumber := currentStepIndex e + 1 |}).
Proof. by intros snapshot e' [= <- <-]. Qed.

Ltac returns_step :=
  cbv zeta;
  lazymatch goal with
  | |- returnsFrom _ _ (this ≫= _) => apply returnsFrom_this
  | |- returnsFrom _ _ (field (Some _) _ ≫= _) => apply returnsFrom_field
  | |- returnsFrom _ _ (field None _ ≫= _) => apply returnsFrom_no_field
  | |- returnsFrom _ _ (field ?l _ ≫= _) => destruct l
  | |- returnsFrom _ _ (_ ≫= _) => apply returnsFrom_bind; intros ? ?
  | |- returnsFrom _ _ (if ?c then _ else _) => destruct c
  | |- returnsFrom _ _ (match ?c with _ => _ end) => destruct c
  | |- returnsFrom _ _ (throw _) => by intros ? ?
  | |- returnsFrom _ _ (mret _) => apply returnsFrom_snapshot
  end.

Lemma forwardLayerSnapshot_snapshotOf (now layerIndex : nat) (e : DebugEngine) :
  returnsFrom e snapshotOf (forwardLayerSnapshot now layerIndex).
Proof. unfold forwardLayerSnapshot. repeat returns_step. Qed.

Lemma computeLossSnapshot_snapshotOf (now : nat) (e : DebugEngine) :
  returnsFrom e snapshotOf (computeLossSnapshot now).
Proof. unfold computeLossSnapshot. repeat returns_step. Qed.

Lemma lossGradientSnapshot_snapshotOf (now : nat) (e : DebugEngine) :
  returnsFrom e snapshotOf (lossGradientSnapshot now).
Proof. unfold lossGradientSnapshot. repeat returns_step. Qed.

Lemma backwardLayerSnapshot_snapshotOf (now layerIndex : nat) (e : DebugEngine) :
  returnsFrom e snapshotOf (backwardLayerSnapshot now layerIndex).
Proof. unfold backwardLayerSnapshot. repeat returns_step. Qed.

Lemma updateWeightsSnapshot_snapshotOf (now : nat) (lr : number)
    (e : DebugEngine) :
  returnsFrom e snapshotOf (updateWeightsSnapshot now lr).
Proof. unfold updateWeightsSnapshot. repeat returns_step. Qed.

Lemma stepOf_body (c : Call) (step : Method DebugEngine StepSnapshot) :
  stepOf c = Some step →
  ∃ body, step = body ≫= record ∧ keeps (sameOn frame) body
          ∧ ∀ e, returnsFrom e snapshotOf body.
Proof.
  destruct c; intros [= <-]; eexists; (split; [reflexivity|]); split;
    auto using forwardLayerSnapshot_frame, computeLossSnapshot_frame,
      lossGradientSnapshot_frame, backwardLayerSnapshot_frame,
      updateWeightsSnapshot_frame, forwardLayerSnapshot_snapshotOf,
      computeLossSnapshot_snapshotOf, lossGradientSnapshot_snapshotOf,
      backwardLayerSnapshot_snapshotOf, updateWeightsSnapshot_snapshotOf.
Qed.

(** *** Recording a snapshot *)

Lemma slice0_next {A} (arr : list A) (i : Z) :
  (-1 ≤ i ≤ Z.of_nat (length arr) - 1)%Z →
  slice0 arr (i + 1) = take (Z.to_nat (i + 1)) arr
  ∧ length (slice0 arr (i + 1)) = Z.to_nat (i + 1).
Proof.
  intros Hi. unfold slice0. rewrite bool_decide_eq_false_2 by lia.
  split; [done|]. rewrite length_take. lia.
Qed.

Lemma record_historyOk (snapshot : StepSnapshot) (e : DebugEngine) :
  historyOk e → snapshotOf snapshot e → historyOk (record snapshot e).2.
Proof.
  intros (Hidx & Hnum & Hshare) [Hstate Hnumber]. rewrite record_run. cbn.
  destruct (slice0_next (stepHistory e) (currentStepIndex e) Hidx)
    as [Hslice Hlen].
  unfold historyOk, indexInHistory, numbered, sharesActivations. cbn.
  split; [|split].
  - rewrite length_app, Hlen. cbn. unfold indexInHistory in Hidx. lia.
  - intros i s. rewrite lookup_app, Hlen. rewrite Hslice.
    destruct (take _ _ !! i) as [s'|] eqn:E.
    + intros [= <-]. apply Hnum. rewrite lookup_take_Some in E. tauto.
    + apply lookup_ge_None in E. rewrite <- Hslice, Hlen in E.
      destruct (i - Z.to_nat (currentStepIndex e + 1)) as [|d] eqn:Ed;
        [|by destruct d].
      intros [= <-]. rewrite Hnumber. unfold indexInHistory in Hidx. lia.
  - apply Forall_app. split.
    + rewrite Hslice. by apply Forall_take.
    + apply Forall_singleton. rewrite Hstate. cbn.
      destruct (bool_decide _); [by right | by left].
Qed.

Lemma step_historyOk (body : Method DebugEngine StepSnapshot) :
  keeps (sameOn frame) body → (∀ e, returnsFrom e snapshotOf body) →
  keeps (preserves historyOk) (body ≫= record).
Proof.
  intros Hframe Hsnap e He. cbv [mbind method_bind].
  pose proof (Hframe e) as Hf. pose proof (Hsnap e) as Hs.
  unfold returnsFrom in Hs.
  destruct (body e) as [[snapshot|err] e1]; cbn in Hf.
  - apply record_historyOk; [exact (frame_historyOk _ _ Hf He) | by apply Hs].
  - exact (frame_historyOk _ _ Hf He).
Qed.

(** *** Going back and forth *)

Lemma restoreState_run (snapshot : StepSnapshot) (e : DebugEngine) :
  sharesActivations e → snapshot ∈ stepHistory e →
  restoreState (Some snapshot) e
  = (Ok (),
     setNetwork {| layers := imap (restoreLayer (networkState snapshot))
                                  (layers (network e));
                   lossFunction := lossFunction (network e) |} e).
Proof.
  intros Hshare Hin. unfold sharesActivations in Hshare.
  rewrite Forall_forall in Hshare. specialize (Hshare _ Hin).
  unfold restoreState. run_method.
  destruct Hshare as [-> | ->]; [done|]. by destruct e.
Qed.

Lemma undo_run (e : DebugEngine) :
  historyOk e → (0 < currentStepIndex e)%Z →
  ∃ snapshot,
    stepHistory e !! Z.to_nat (currentStepIndex e - 1) = Some snapshot
    ∧ undo e
      = (Ok true,
         setNetwork {| layers := imap (restoreLayer (networkState snapshot))
                                      (layers (network e));
                       lossFunction := lossFunction (network e) |}
           (setCurrentStepIndex (currentStepIndex e - 1) e)).
Proof.
  intros (Hidx & _ & Hshare) Hpos. unfold indexInHistory in Hidx.
  unfold undo. run_method. rewrite bool_decide_eq_false_2 by lia. cbn.
  destruct (lookup_lt_is_Some_2 (stepHistory e)
              (Z.to_nat (currentStepIndex e - 1))) as [snapshot Hs]; [lia|].
  rewrite Hs. exists snapshot. split; [done|].
  rewrite (restoreState_run snapshot
             (setCurrentStepIndex (currentStepIndex e - 1) e));
    [done | done | by eapply list_elem_of_lookup_2].
Qed.

Lemma redo_run (e : DebugEngine) :
  historyOk e →
  (currentStepIndex e < Z.of_nat (length (stepHistory e)) - 1)%Z →
  ∃ snapshot,
    stepHistory e !! Z.to_nat (currentStepIndex e + 1) = Some snapshot
    ∧ redo e
      = (Ok true,
         setNetwork {| layers := imap (restoreLayer (networkState snapshot))
                                      (layers (network e));
                       lossFunction := lossFunction (network e) |}
           (setCurrentStepIndex (currentStepIndex e + 1) e)).
Proof.
  intros (Hidx & _ & Hshare) Hlt. unfold indexInHistory in Hidx.
  unfold redo. run_method. rewrite bool_decide_eq_false_2 by lia. cbn.
  rewrite bool_decide_eq_true_2 by lia.
  destruct (lookup_lt_is_Some_2 (stepHistory e)
              (Z.to_nat (currentStepIndex e + 1))) as [snapshot Hs]; [lia|].
  rewrite Hs. exists snapshot. split; [done|].
  rewrite (restoreState_run snapshot
             (setCurrentStepIndex (currentStepIndex e + 1) e));
    [done | done | by eapply list_elem_of_lookup_2].
Qed.

Lemma redo_at_end (e : DebugEngine) :
  (Z.of_nat (length (stepHistory e)) - 1 ≤ currentStepIndex e)%Z →
  redo e = (Ok false, e).
Proof.
  intros Hidx. unfold redo. run_method. by rewrite bool_decide_eq_true_2.
Qed.

Lemma undo_historyOk : keeps (preserves historyOk) undo.
Proof.
  intros e He. destruct (decide (0 < currentStepIndex e)%Z) as [Hpos|Hpos].
  - destruct (undo_run e He Hpos) as (s & _ & ->). cbn.
    destruct He as (Hidx & Hnum & Hshare).
    unfold historyOk, indexInHistory in *. cbn. split; [lia | done].
  - rewrite undo_at_start by lia. done.
Qed.

Lemma redo_historyOk : keeps (preserves historyOk) redo.
Proof.
  intros e He.
  destruct (decide (currentStepIndex e
                    < Z.of_nat (length (stepHistory e)) - 1)%Z) as [Hlt|Hlt].
  - destruct (redo_run e He Hlt) as (s & _ & ->). cbn.
    destruct He as (Hidx & Hnum & Hshare).
    unfold historyOk, indexInHistory in *. cbn. split; [lia | done].
  - rewrite redo_at_end by lia. done.
Qed.

(** *** Every call keeps the history in order *)

Lemma backwardComplete_historyOk (now : nat) (idx : list nat)
    (currentGrad : Tensor) (snapshots : list StepSnapshot) :
  keeps (preserves historyOk) (backwardComplete now idx currentGrad snapshots).
Proof.
  revert currentGrad snapshots.
  induction idx as [|i idx IH]; intros currentGrad snapshots e He; [done|].
  cbn [backwardComplete]. cbv zeta. cbv [mbind method_bind].
  pose proof (keeps_inNetwork (sameOn frame)
                (NetworkM.atLayer i (LayerM.backward currentGrad))
                (fun _ _ => eq_refl) e) as Hf.
  destruct (inNetwork _ e) as [[g|err] e1]; cbn in Hf;
    [|exact (frame_historyOk _ _ Hf He)].
  pose proof (frame_historyOk _ _ Hf He) as He1.
  cbv [this]. destruct (layerAt e1 i) as [l|]; cbn [field]; [|done].
  cbv [mret method_ret].
  match goal with
  | |- context [record ?snapshot e1] =>
      pose proof (record_historyOk snapshot e1 He1 (conj eq_refl eq_refl))
        as He2;
      rewrite record_run in He2 |- *
  end.
  by apply IH.
Qed.

Lemma stepBackwardComplete_historyOk (now : nat) :
  keeps (preserves historyOk) (stepBackwardComplete now).
Proof.
  unfold stepBackwardComplete.
  apply keeps_bind; [tc_solve | by intros ? | intros e0].
  apply keeps_bind; [tc_solve | | intros _].
  { destruct (lossGradient e0); [by intros ?|].
    apply keeps_bind; [tc_solve | | by intros ? ?].
    apply step_historyOk;
      auto using lossGradientSnapshot_frame, lossGradientSnapshot_snapshotOf. }
  apply keeps_bind; [tc_solve | by intros ? | intros e1].
  destruct (lossGradient e1); [apply backwardComplete_historyOk | by intros ?].
Qed.

Lemma updateConfig_frame (configOptimizer : string) :
  keeps (sameOn frame) (updateConfig configOptimizer).
Proof. unfold updateConfig. repeat engine_step; done. Qed.

Lemma stepForwardPreActivation_frame (layerIndex : nat) :
  keeps (sameOn frame) (stepForwardPreActivation layerIndex).
Proof. unfold stepForwardPreActivation. repeat engine_step; done. Qed.

Lemma stepForwardActivation_frame (layerIndex : nat) :
  keeps (sameOn frame) (stepForwardActivation layerIndex).
Proof. unfold stepForwardActivation. repeat engine_step; done. Qed.

Lemma fresh_historyOk (e : DebugEngine) :
  stepHistory e = [] → currentStepIndex e = (-1)%Z → historyOk e.
Proof.
  intros Hh Hi. unfold historyOk, indexInHistory, numbered, sharesActivations.
  rewrite Hh, Hi. cbn. split; [lia|]. split; [by intros i s|done].
Qed.

Lemma perform_historyOk (c : Call) (e : DebugEngine) :
  historyOk e → historyOk (perform c e).
Proof.
  intros He. destruct c; cbn [perform].
  - exact (frame_preserves _ (updateConfig_frame _) e He).
  - by apply fresh_historyOk.
  - exact (frame_preserves _ (stepForwardPreActivation_frame _) e He).
  - exact (frame_preserves _ (stepForwardActivation_frame _) e He).
  - apply step_historyOk;
      auto using forwardLayerSnapshot_frame, forwardLayerSnapshot_snapshotOf.
  - apply step_historyOk;
      auto using computeLossSnapshot_frame, computeLossSnapshot_snapshotOf.
  - apply step_historyOk;
      auto using lossGradientSnapshot_frame, lossGradientSnapshot_snapshotOf.
  - apply step_historyOk;
      auto using backwardLayerSnapshot_frame, backwardLayerSnapshot_snapshotOf.
  - by apply stepBackwardComplete_historyOk.
  - apply step_historyOk;
      auto using updateWeightsSnapshot_frame, updateWeightsSnapshot_snapshotOf.
  - by apply undo_historyOk.
  - by apply redo_historyOk.
  - exact (frame_preserves _ (trainOneEpoch_frame _ _ _) e He).
  - by eapply frame_historyOk.
Qed.

Lemma performAll_historyOk (calls : list Call) (e : DebugEngine) :
  historyOk e → historyOk (performAll calls e).
Proof.
  revert e. induction calls as [|c calls IH]; intros e He; [done|].
  apply IH. by apply perform_historyOk.
Qed.

(** *** Layers without gradients *)

Lemma atLayer_gradientsOf (i : nat) (f : Layer → Layer) :
  (∀ l, weightGrad (f l) = weightGrad l ∧ biasGrad (f l) = biasGrad l) →
  keeps (sameOn gradientsOf) (NetworkM.atLayer i (assign f)).
Proof.
  intros Hf n. unfold NetworkM.atLayer, sameOn, gradientsOf.
  destruct (layers n !! i) as [l|] eqn:El; [|done]. cbn.
  rewrite list_fmap_insert. apply list_insert_id.
  rewrite list_lookup_fmap, El. cbn. by destruct (Hf l) as [-> ->].
Qed.

Lemma missing_gradient (n : Network) (k : nat) (l : Layer) :
  layers n !! k = Some l →
  gradientsOf n !! k = Some (weightGrad l, biasGrad l).
Proof. intros Hl. unfold gradientsOf. by rewrite list_lookup_fmap, Hl. Qed.

(** The update loop does not get past a layer that lacks a gradient. *)
Lemma updateLayers_missing (idx : list nat) (lr : number)
    (computations : list (string * Value)) (e : DebugEngine) (k : nat)
    (wGrad : option Tensor) (bGrad : option (list number)) :
  k ∈ idx → gradientsOf (network e) !! k = Some (wGrad, bGrad) →
  wGrad = None ∨ bGrad = None →
  ∃ err, (updateLayers idx lr computations e).1 = Throw err.
Proof.
  revert computations e.
  induction idx as [|i idx IH]; intros computations e Hk Hgrad Hnone;
    [by apply elem_of_nil in Hk|].
  cbn [updateLayers]. cbv [mbind method_bind this].
  destruct (layerAt e i) as [l|] eqn:El; cbn [field]; [|by eexists].
  cbv [mret method_ret].
  pose proof (missing_gradient _ _ _ El) as Hi.
  destruct (weightGrad l) as [wg|] eqn:Ew; [|by eexists].
  destruct (biasGrad l) as [bg|] eqn:Eb; [|by eexists].
  assert (Hin : k ∈ idx).
  { apply elem_of_cons in Hk as [->|Hk]; [|done].
    rewrite Hi in Hgrad. injection Hgrad as <- <-. by destruct Hnone. }
  set (R := sameOn (fun e => gradientsOf (network e))).
  assert (Hopt : ∀ A (m : Method Optimizers.Optimizer A),
             keeps R (inOptimizer m)).
  { intros A m. by apply keeps_inOptimizer. }
  assert (Hnet : ∀ f,
             (∀ l, weightGrad (f l) = weightGrad l
                   ∧ biasGrad (f l) = biasGrad l) →
             keeps R (inNetwork (NetworkM.atLayer i (assign f)))).
  { intros f Hf. eapply keeps_inNetwork_rel; [by apply atLayer_gradientsOf|].
    by intros e0 n0 H0. }
  pose proof (Hopt _ (Optimizers.update (weights l) wg lr) e) as H1.
  destruct (inOptimizer _ e) as [[w|err] e1]; [|by eexists].
  pose proof (Hnet (LayerM.setWeights w) (fun _ => conj eq_refl eq_refl) e1)
    as H2.
  destruct (inNetwork _ e1) as [[[]|err] e2]; [|by eexists].
  pose proof (Hopt _ (Optimizers.updateBias (bias l) bg lr) e2) as H3.
  destruct (inOptimizer _ e2) as [[b|err] e3]; [|by eexists].
  pose proof (Hnet (LayerM.setBias b) (fun _ => conj eq_refl eq_refl) e3)
    as H4.
  destruct (inNetwork _ e3) as [[[]|err] e4]; [|by eexists].
  apply IH; [done| |done].
  unfold R, sameOn in *. cbn in *. by rewrite H4, H3, H2, H1.
Qed.

Lemma step_thrown (body : Method DebugEngine StepSnapshot) (e : DebugEngine) :
  keeps (sameOn frame) body →
  match (body ≫= record) e with
  | (Ok _, _) => True
  | (Throw _, e') => frame e' = frame e
  end.
Proof.
  intros Hbody. specialize (Hbody e). cbv [mbind method_bind].
  destruct (body e) as [[snapshot|err] e1]; [by rewrite record_run | done].
Qed.

(** *** The theorems *)

(** X20: on an engine whose history starts empty, whatever calls follow,
    the step index stays between -1 and the last position of the history,
    the snapshot at position [i] carries the step number [i],
    [getStepHistory] has one entry more than the index says, and [undo] and
    [redo] return their boolean and never throw. *)
Theorem history_stays_in_order (calls : list Call) (e0 : DebugEngine) :
  stepHistory e0 = [] → currentStepIndex e0 = (-1)%Z →
  let e := performAll calls e0 in
  (-1 ≤ currentStepIndex e ≤ Z.of_nat (length (stepHistory e)) - 1)%Z
  ∧ (∀ i snapshot, stepHistory e !! i = Some snapshot →
                   stepNumber snapshot = Z.of_nat i)
  ∧ Z.of_nat (length (getStepHistory e)) = (currentStepIndex e + 1)%Z
  ∧ (undo e).1 = Ok (bool_decide (0 < currentStepIndex e)%Z)
  ∧ (redo e).1
    = Ok (bool_decide (currentStepIndex e
                       < Z.of_nat (length (stepHistory e)) - 1)%Z).
Proof.
  intros Hh Hi e.
  assert (He : historyOk e)
    by by apply performAll_historyOk, fresh_historyOk.
  pose proof He as (Hidx & Hnum & _). unfold indexInHistory in Hidx.
  split; [done|]. split; [done|]. split; [|split].
  - unfold getStepHistory.
    destruct (slice0_next (stepHistory e) (currentStepIndex e) Hidx)
      as [_ ->]. lia.
  - case_bool_decide as Hpos.
    + by destruct (undo_run e He Hpos) as (s & _ & ->).
    + by rewrite undo_at_start by lia.
  - case_bool_decide as Hlt.
    + by destruct (redo_run e He Hlt) as (s & _ & ->).
    + by rewrite redo_at_end by lia.
Qed.

Lemma history_stays_in_order_witness :
  let e := performAll [CSetData EngineSamples.input EngineSamples.target;
                       CStepForwardLayer 0 0; CStepComputeLoss 0; CUndo;
                       CStepBackwardComplete 0; CRedo]
                      EngineSamples.oneLayer in
  (-1 ≤ currentStepIndex e ≤ Z.of_nat (length (stepHistory e)) - 1)%Z
  ∧ (∀ i snapshot, stepHistory e !! i = Some snapshot →
                   stepNumber snapshot = Z.of_nat i)
  ∧ Z.of_nat (length (getStepHistory e)) = (currentStepIndex e + 1)%Z
  ∧ (undo e).1 = Ok (bool_decide (0 < currentStepIndex e)%Z)
  ∧ (redo e).1
    = Ok (bool_decide (currentStepIndex e
                       < Z.of_nat (length (stepHistory e)) - 1)%Z).
Proof. apply history_stays_in_order; reflexivity. Defined.

(** X21: a step that returns leaves the history as the visible history it
    found followed by the snapshot it returns, so the steps that [redo]
    could have taken are gone and [redo] returns [false]; the snapshot
    carries the new index as its number and the state the engine is left
    in.  A step that throws leaves the history and the index as they
    were. *)
Theorem step_records_snapshot (c : Call)
    (step : Method DebugEngine StepSnapshot) (e : DebugEngine) :
  stepOf c = Some step → (-1 ≤ currentStepIndex e)%Z →
  match step e with
  | (Ok snapshot, e') =>
      stepHistory e' = getStepHistory e ++ [snapshot]
      ∧ getStepHistory e' = stepHistory e'
      ∧ currentStepIndex e' = (currentStepIndex e + 1)%Z
      ∧ stepNumber snapshot = currentStepIndex e'
      ∧ networkState snapshot = getCurrentState e'
      ∧ redo e' = (Ok false, e')
  | (Throw _, e') =>
      stepHistory e' = stepHistory e
      ∧ currentStepIndex e' = currentStepIndex e
  end.
Proof.
  intros Hstep Hidx.
  destruct (stepOf_body c step Hstep) as (body & -> & Hframe & Hsnap).
  pose proof (step_thrown body e Hframe) as Hthrown.
  destruct ((body ≫= record) e) as [[snapshot|err] e'] eqn:Hrun;
    [|unfold frame in Hthrown; by injection Hthrown as -> -> _].
  destruct (recorded body e e' snapshot (frame_steps _ Hframe) Hrun)
    as [Hhist Hnext].
  fold (getStepHistory e) in Hhist.
  assert (Hlen : (Z.of_nat (length (stepHistory e')) ≤ currentStepIndex e' + 1)%Z).
  { rewrite Hhist, length_app, Hnext. cbn. unfold getStepHistory, slice0.
    case_bool_decide; [lia|]. rewrite length_take. lia. }
  assert (Hsn : networkState snapshot = getCurrentState e'
                ∧ stepNumber snapshot = (currentStepIndex e + 1)%Z).
  { revert Hrun. cbv [mbind method_bind].
    pose proof (Hsnap e) as Hs. unfold returnsFrom in Hs.
    pose proof (Hframe e) as Hf.
    destruct (body e) as [[snap|err] e1]; [|done].
    destruct (Hs snap e1 eq_refl) as [Hstate Hnumber].
    rewrite record_run. intros [= <- <-].
    unfold sameOn, frame in Hf. injection Hf as Hf1 Hf2 Hf3.
    split; [done | by rewrite Hnumber, Hf2]. }
  destruct Hsn as [Hstate Hnumber].
  split; [done|]. split.
  { unfold getStepHistory, slice0. rewrite bool_decide_eq_false_2 by lia.
    apply take_ge. lia. }
  split; [done|]. split; [by rewrite Hnumber, Hnext|]. split; [done|].
  apply redo_at_end. lia.
Qed.

Lemma step_records_snapshot_witness :
  ∃ snapshot e',
    stepForwardLayer 0 0
      (setData EngineSamples.input EngineSamples.target
         EngineSamples.oneLayer).2 = (Ok snapshot, e')
    ∧ stepHistory e' = [snapshot]
    ∧ stepNumber snapshot = 0%Z
    ∧ redo e' = (Ok false, e').
Proof.
  pose proof (step_records_snapshot (CStepForwardLayer 0 0) _
                (setData EngineSamples.input EngineSamples.target
                   EngineSamples.oneLayer).2 eq_refl) as H.
  destruct (first_step EngineSamples.oneLayer EngineSamples.input
              EngineSamples.target 0 (proj1 oneLayer_ready)
              (proj2 oneLayer_ready)) as (snapshot & e' & Hrun & _).
  rewrite Hrun in H.
  destruct H as (Hhist & _ & Hidx & Hnumber & _ & Hredo); [by cbn|].
  exists snapshot, e'. split; [done|]. split; [done|].
  split; [by rewrite Hnumber, Hidx | done].
Defined.

(** X22: on an engine whose history starts empty, whatever calls follow,
    every snapshot of the history that has activations names the one array
    the engine itself writes to; so [undo] and [redo] bring back weights
    and biases but leave the forward activations as the later steps left
    them. *)
Theorem undo_redo_keep_activations (calls : list Call) (e0 : DebugEngine) :
  stepHistory e0 = [] → currentStepIndex e0 = (-1)%Z →
  let e := performAll calls e0 in
  Forall (fun snapshot =>
            stateActivations (networkState snapshot) = None
            ∨ stateActivations (networkState snapshot)
              = Some (forwardActivations e))
         (stepHistory e)
  ∧ forwardActivations (undo e).2 = forwardActivations e
  ∧ activations (undo e).2 = activations e
  ∧ forwardActivations (redo e).2 = forwardActivations e
  ∧ activations (redo e).2 = activations e.
Proof.
  intros Hh Hi e.
  assert (He : historyOk e)
    by by apply performAll_historyOk, fresh_historyOk.
  split; [apply He|].
  assert (Hundo : forwardActivations (undo e).2 = forwardActivations e
                  ∧ activations (undo e).2 = activations e).
  { destruct (decide (0 < currentStepIndex e)%Z) as [Hpos|Hpos].
    - by destruct (undo_run e He Hpos) as (s & _ & ->).
    - by rewrite undo_at_start by lia. }
  assert (Hredo : forwardActivations (redo e).2 = forwardActivations e
                  ∧ activations (redo e).2 = activations e).
  { destruct (decide (currentStepIndex e
                      < Z.of_nat (length (stepHistory e)) - 1)%Z) as [Hlt|Hlt].
    - by destruct (redo_run e He Hlt) as (s & _ & ->).
    - by rewrite redo_at_end by lia. }
  tauto.
Qed.

Lemma undo_redo_keep_activations_witness :
  let e := performAll [CSetData EngineSamples.input EngineSamples.target;
                       CStepForwardLayer 0 0; CStepForwardLayer 0 1;
                       CStepComputeLoss 0]
                      EngineSamples.twoLayers in
  Forall (fun snapshot =>
            stateActivations (networkState snapshot) = None
            ∨ stateActivations (networkState snapshot)
              = Some (forwardActivations e))
         (stepHistory e)
  ∧ forwardActivations (undo e).2 = forwardActivations e
  ∧ activations (undo e).2 = activations e
  ∧ forwardActivations (redo e).2 = forwardActivations e
  ∧ activations (redo e).2 = activations e.
Proof. apply undo_redo_keep_activations; reflexivity. Defined.

(** X23: [stepUpdateWeights] throws, and records no step, as soon as one
    layer of the network has no weight gradient or no bias gradient; when
    that layer is the first one, the error is the one that asks for the
    gradients and nothing of the engine has changed. *)
Theorem stepUpdateWeights_needs_gradients (now : nat) (learningRate : number)
    (e : DebugEngine) (k : nat) (l : Layer) :
  layers (network e) !! k = Some l →
  weightGrad l = None ∨ biasGrad l = None →
  (∃ err, (stepUpdateWeights now learningRate e).1 = Throw err)
  ∧ stepHistory (stepUpdateWeights now learningRate e).2 = stepHistory e
  ∧ currentStepIndex (stepUpdateWeights now learningRate e).2
    = currentStepIndex e
  ∧ (k = 0 →
     stepUpdateWeights now learningRate e
     = (Throw (Error "Gradients must be computed before weight update"), e)).
Proof.
  intros Hl Hnone.
  assert (Hthrow : ∃ err, (stepUpdateWeights now learningRate e).1 = Throw err).
  { unfold stepUpdateWeights, updateWeightsSnapshot.
    cbv [mbind method_bind this].
    destruct (updateLayers_missing (seq 0 (length (layers (network e))))
                learningRate [] e k (weightGrad l) (biasGrad l))
      as [err Herr]; [| by apply missing_gradient | done |].
    { apply elem_of_seq. apply lookup_lt_Some in Hl. lia. }
    destruct (updateLayers _ _ _ e) as [[c|err'] e1]; [done|by eexists]. }
  split; [done|].
  pose proof (step_thrown (updateWeightsSnapshot now learningRate) e
                (updateWeightsSnapshot_frame now learningRate)) as Hframe.
  fold (stepUpdateWeights now learningRate) in Hframe.
  split; [|split].
  - destruct Hthrow as [err Herr].
    destruct (stepUpdateWeights now learningRate e) as [[snapshot|err'] e'];
      [done|].
    unfold frame in Hframe. cbn. by injection Hframe as -> _ _.
  - destruct Hthrow as [err Herr].
    destruct (stepUpdateWeights now learningRate e) as [[snapshot|err'] e'];
      [done|].
    unfold frame in Hframe. cbn. by injection Hframe as _ -> _.
  - intros ->. unfold stepUpdateWeights, updateWeightsSnapshot.
    cbv [mbind method_bind this].
    pose proof (lookup_lt_Some _ _ _ Hl) as Hlen.
    destruct (length (layers (network e))) as [|n]; [lia|].
    cbn [seq updateLayers]. cbv [mbind method_bind this].
    unfold layerAt. rewrite Hl. cbn [field]. cbv [mret method_ret].
    destruct Hnone as [-> | ->]; [done|]. by destruct (weightGrad l).
Qed.

Lemma stepUpdateWeights_needs_gradients_witness :
  let e := (setData EngineSamples.input EngineSamples.target
              EngineSamples.oneLayer).2 in
  stepUpdateWeights 0 (Fin 1) e
  = (Throw (Error "Gradients must be computed before weight update"), e).
Proof.
  intros e.
  apply (stepUpdateWeights_needs_gradients 0 (Fin 1) e 0
           (EngineSamples.linearLayer 2) eq_refl (or_introl eq_refl)).
  reflexivity.
Defined.

(** X24: on an engine whose history starts empty, whatever calls follow,
    when the step index is above 0 [undo] returns [true] and moves the
    index one back, and [redo] after it returns [true] and brings the index
    back with the history as it was; every layer then carries the weights
    and the bias that the snapshot at the index holds for it. *)
Theorem undo_redo_round_trip (calls : list Call) (e0 : DebugEngine) :
  stepHistory e0 = [] → currentStepIndex e0 = (-1)%Z →
  let e := performAll calls e0 in
  (0 < currentStepIndex e)%Z →
  ∃ e1 e2 snapshot,
    undo e = (Ok true, e1) ∧ redo e1 = (Ok true, e2)
    ∧ currentStepIndex e1 = (currentStepIndex e - 1)%Z
    ∧ currentStepIndex e2 = currentStepIndex e
    ∧ stepHistory e2 = stepHistory e
    ∧ stepHistory e !! Z.to_nat (currentStepIndex e) = Some snapshot
    ∧ ∀ i l, layers (network e2) !! i = Some l →
        (∀ w, stateWeights (networkState snapshot) !! i = Some w →
              weights l = w)
        ∧ (∀ b, stateBiases (networkState snapshot) !! i = Some b →
                bias l = b).
Proof.
  intros Hh Hi e Hpos.
  assert (He : historyOk e)
    by by apply performAll_historyOk, fresh_historyOk.
  destruct (undo_run e He Hpos) as (snapshot0 & _ & Hundo).
  pose proof (undo_historyOk e He) as He1. rewrite Hundo in He1.
  cbn [snd] in He1.
  pose proof He as (Hidx & _). unfold indexInHistory in Hidx.
  match type of Hundo with _ = (_, ?x) => set (e1 := x) in * end.
  destruct (redo_run e1 He1) as (snapshot & Hsnapshot & Hredo);
    [cbn; lia|].
  cbn [e1 currentStepIndex stepHistory setNetwork setCurrentStepIndex]
    in Hsnapshot.
  replace (currentStepIndex e - 1 + 1)%Z with (currentStepIndex e)
    in Hsnapshot by lia.
  eexists e1, _, snapshot. split; [done|]. split; [exact Hredo|].
  split; [done|]. split; [cbn; lia|]. split; [done|]. split; [done|].
  intros i l. cbn. rewrite list_lookup_imap.
  destruct (imap _ _ !! i) as [l0|]; [|done]. cbn. intros [= <-].
  unfold restoreLayer.
  destruct (stateWeights (networkState snapshot) !! i) as [w|],
    (stateBiases (networkState snapshot) !! i) as [b|]; cbn;
    split; intros ? [= <-] || intros ? [=]; done.
Qed.

Lemma undo_redo_round_trip_witness :
  let e := performAll [CSetData EngineSamples.input EngineSamples.target;
                       CStepForwardLayer 0 0; CStepComputeLoss 0]
                      EngineSamples.oneLayer in
  ∃ e1 e2,
    undo e = (Ok true, e1) ∧ redo e1 = (Ok true, e2)
    ∧ currentStepIndex e2 = currentStepIndex e
    ∧ stepHistory e2 = stepHistory e.
Proof.
  intros e.
  destruct (undo_redo_round_trip
              [CSetData EngineSamples.input EngineSamples.target;
               CStepForwardLayer 0 0; CStepComputeLoss 0]
              EngineSamples.oneLayer eq_refl eq_refl)
    as (e1 & e2 & snapshot & H1 & H2 & _ & H3 & H4 & _).
  { vm_compute. reflexivity. }
  by exists e1, e2.
Defined.

End HistoryFacts.

(** ** Networks of layers that fit together *)

Module TrainingFacts.
Import NeuralNetwork NetworkFacts.

(** *** One layer *)

Lemma layer_forward_run (l : Layer) (type : string) (input : Tensor) (n : nat) :
  activation l = Activations.getActivation type → wellFormed (weights l) →
  shaped n (cols (weights l)) input →
  ∃ out z,
    LayerM.forward input l
    = (Ok out, LayerM.setPreActivationOutput (Some z)
                 (LayerM.setLastInput (Some input) l))
    ∧ shaped n (rows (weights l)) out ∧ shaped n (rows (weights l)) z.
Proof.
  intros Hact [Hwr Hwc] Hin.
  destruct (getActivation_shapePreserving type) as [Hfwd _].
  rewrite <- Hact in Hfwd.
  pose proof Hin as ([Hir Hic] & Hn & Hk).
  set (z := broadcastAdd (product input (transposed (weights l))) (bias l)).
  assert (Hz : shaped n (rows (weights l)) z).
  { apply shaped_broadcastAdd. rewrite <- Hn. apply shaped_product. }
  destruct (Hfwd _ _ z Hz) as (out & Hout & Hshape).
  exists out, z. split; [|done].
  unfold LayerM.forward. run_method.
  cbn [weights bias activation LayerM.setLastInput
       LayerM.setPreActivationOutput].
  rewrite TensorFacts.transpose_transposed by lia.
  rewrite TensorFacts.matmul_product; cycle 1.
  { lia. }
  { cbn. unfold tabulate. rewrite length_fmap, length_seq. lia. }
  fold z. by rewrite Hout.
Qed.

Lemma layer_backward_run (l : Layer) (type : string)
    (lastIn z outputGrad : Tensor) (n : nat) :
  activation l = Activations.getActivation type → wellFormed (weights l) →
  lastInput l = Some lastIn → preActivationOutput l = Some z →
  shaped n (cols (weights l)) lastIn → shaped n (rows (weights l)) z →
  shaped n (rows (weights l)) outputGrad →
  ∃ inputGrad wGrad bGrad,
    LayerM.backward outputGrad l
    = (Ok inputGrad,
       LayerM.setBiasGrad (Some bGrad) (LayerM.setWeightGrad (Some wGrad) l))
    ∧ shaped n (cols (weights l)) inputGrad
    ∧ shaped (rows (weights l)) (cols (weights l)) wGrad
    ∧ length bGrad = rows (weights l).
Proof.
  intros Hact [Hwr Hwc] HlastIn HpreAct Hin Hz Hgrad.
  destruct (getActivation_shapePreserving type) as [_ Hbwd].
  rewrite <- Hact in Hbwd.
  pose proof Hin as ([Hir Hic] & Hn & Hk).
  destruct (Hbwd _ _ outputGrad z Hgrad Hz) as (aG & HaG & HaGs).
  pose proof HaGs as ([Har Hac] & Han & Hak).
  destruct (colSum_total aG ltac:(lia)) as (sums & Hsums & Hlen).
  exists (product aG (weights l)), (product (transposed aG) lastIn), sums.
  split.
  { unfold LayerM.backward. run_method. rewrite HlastIn, HpreAct, HaG.
    rewrite TensorFacts.transpose_transposed by lia.
    rewrite TensorFacts.matmul_product; cycle 1.
    { cbn. unfold tabulate. by rewrite length_fmap, length_seq. }
    { cbn. lia. }
    rewrite Hsums.
    cbn [weights LayerM.setWeightGrad LayerM.setBiasGrad].
    rewrite TensorFacts.matmul_product by lia. reflexivity. }
  split; [rewrite <- Han; apply shaped_product|].
  split; [|lia].
  split; [apply wellFormed_product|]. cbn. split; lia.
Qed.

Lemma layer_update_run (l : Layer) (lr : number) :
  wellFormed (weights l) →
  (∀ wGrad, weightGrad l = Some wGrad →
            shaped (rows (weights l)) (cols (weights l)) wGrad) →
  ∃ l', LayerM.updateWeights lr l = (Ok (), l')
        ∧ wellFormed (weights l') ∧ dimsOf l' = dimsOf l
        ∧ activation l' = activation l
        ∧ weightGrad l' = weightGrad l ∧ biasGrad l' = biasGrad l.
Proof.
  intros [Hwr Hwc] Hgrad. unfold LayerM.updateWeights. run_method.
  destruct (weightGrad l) as [wGrad|] eqn:Ew; [|by exists l].
  destruct (biasGrad l) as [bGrad|] eqn:Eb; [|by exists l].
  destruct (Hgrad wGrad eq_refl) as ([Hgr Hgc] & Hgn & Hgk).
  unfold subtract. rewrite zipWithTensor_ok; cycle 1.
  { cbn. rewrite !length_fmap. lia. }
  cbn. eexists. split; [reflexivity|]. cbn. split; [|done].
  split; cbn.
  - by rewrite length_fmap, length_imap.
  - apply Forall_fmap. apply Forall_forall. intros row Hrow.
    apply elem_of_lookup_imap in Hrow as (i & row0 & -> & Hrow0).
    cbn. rewrite length_fmap, length_imap.
    rewrite Forall_forall in Hwc. apply Hwc.
    by eapply list_elem_of_lookup_2.
Qed.

(** *** The chain of layers *)

Lemma atLayer_run {A} (i : nat) (method : Method Layer A) (n : Network)
    (l l' : Layer) (r : res A) :
  layers n !! i = Some l → method l = (r, l') →
  NetworkM.atLayer i method n
  = (r, {| layers := <[i := l']> (layers n);
           lossFunction := lossFunction n |}).
Proof. intros Hl Hm. unfold NetworkM.atLayer. by rewrite Hl, Hm. Qed.

Lemma outputsOf_snoc (k : nat) (dims : list (nat * nat)) (d : nat * nat) :
  outputsOf k (dims ++ [d]) = d.1.
Proof. revert k. induction dims as [|d0 dims IH]; intros k; [done|apply IH]. Qed.

Lemma chained_at (dims : list (nat * nat)) (k m : nat) (d : nat * nat) :
  chainedFrom k dims → dims !! m = Some d →
  d.2 = outputsOf k (take m dims) ∧ outputsOf k (take (S m) dims) = d.1.
Proof.
  intros Hchain Hd. split.
  - revert k m Hchain Hd. induction dims as [|d0 dims IH]; intros k m; [done|].
    intros [Hk Hrest]. destruct m as [|m]; [by intros [= ->]|].
    cbn. by apply IH.
  - by rewrite (take_S_r _ _ _ Hd), outputsOf_snoc.
Qed.

Lemma dims_insert (ls : list Layer) (i : nat) (l l' : Layer) :
  ls !! i = Some l → dimsOf l' = dimsOf l →
  dimsOf <$> <[i := l']> ls = dimsOf <$> ls.
Proof.
  intros Hl Hd. rewrite list_fmap_insert. apply list_insert_id.
  by rewrite list_lookup_fmap, Hl, Hd.
Qed.

Lemma forwardFrom_run (m : nat) :
  ∀ (j : nat) (n : Network) (input : Tensor) (r k : nat),
    j + m = length (layers n) → trainable k n →
    shaped r (outputsOf k (take j (dimsOf <$> layers n))) input →
    ∃ out n',
      NetworkM.forwardFrom (seq j m) input n = (Ok out, n')
      ∧ shaped r (outputsOf k (dimsOf <$> layers n)) out
      ∧ dimsOf <$> layers n' = dimsOf <$> layers n
      ∧ Forall sound (layers n')
      ∧ take j (layers n') = take j (layers n)
      ∧ Forall (cached r) (drop j (layers n'))
      ∧ lossFunction n' = lossFunction n.
Proof.
  induction m as [|m IH]; intros j n input r k Hlen [Hsound Hchain] Hin.
  { exists input, n. split; [done|]. split.
    - rewrite take_ge in Hin; [done|]. rewrite length_fmap. lia.
    - split; [done|]. split; [done|]. split; [done|]. split; [|done].
      rewrite drop_ge by lia. constructor. }
  destruct (lookup_lt_is_Some_2 (layers n) j) as [l Hl]; [lia|].
  assert (Hd : (dimsOf <$> layers n) !! j = Some (dimsOf l))
    by by rewrite list_lookup_fmap, Hl.
  destruct (chained_at _ _ _ _ Hchain Hd) as [Hcols Hrows]. cbn in Hcols, Hrows.
  destruct (Forall_lookup_1 _ _ _ _ Hsound Hl) as [Hwf [type Hact]].
  rewrite <- Hcols in Hin.
  destruct (layer_forward_run l type input r Hact Hwf Hin)
    as (out1 & z & Hrun1 & Hout1 & Hz).
  set (l1 := LayerM.setPreActivationOutput (Some z)
               (LayerM.setLastInput (Some input) l)) in Hrun1.
  set (n1 := {| layers := <[j := l1]> (layers n);
                lossFunction := lossFunction n |}).
  assert (Hdims1 : dimsOf <$> layers n1 = dimsOf <$> layers n)
    by by apply (dims_insert _ _ l).
  destruct (IH (S j) n1 out1 r k) as (out & n' & Hrun & Hout & Hdims & Hsound'
                                      & Htake & Hcached & Hloss).
  { cbn. rewrite length_insert. lia. }
  { split; [|by rewrite Hdims1]. apply Forall_insert; [done|].
    split; [done | by exists type]. }
  { by rewrite Hdims1, Hrows. }
  exists out, n'. split.
  { cbn [seq NetworkM.forwardFrom]. cbv [mbind method_bind].
    by rewrite (atLayer_run _ _ _ _ _ _ Hl Hrun1). }
  rewrite Hdims1 in Hout, Hdims.
  assert (Hj : layers n' !! j = Some l1).
  { rewrite <- (lookup_take_lt _ (S j)) by lia. rewrite Htake.
    rewrite lookup_take_lt by lia. cbn. apply list_lookup_insert_eq. lia. }
  split; [done|]. split; [done|]. split; [done|]. split; [|split; [|done]].
  - apply (f_equal (take j)) in Htake. rewrite !take_take in Htake.
    rewrite !Nat.min_l in Htake by lia. rewrite Htake. cbn.
    by rewrite take_insert_ge.
  - rewrite (drop_S _ _ _ Hj). constructor; [|done].
    by exists input, z.
Qed.

Lemma backwardFrom_run (m : nat) :
  ∀ (n : Network) (grad : Tensor) (r k : nat),
    m ≤ length (layers n) → trainable k n → Forall (cached r) (layers n) →
    shaped r (outputsOf k (take m (dimsOf <$> layers n))) grad →
    ∃ g n',
      NetworkM.backwardFrom (reverse (seq 0 m)) grad n = (Ok g, n')
      ∧ shaped r k g
      ∧ dimsOf <$> layers n' = dimsOf <$> layers n
      ∧ Forall sound (layers n')
      ∧ drop m (layers n') = drop m (layers n)
      ∧ Forall graded (take m (layers n'))
      ∧ lossFunction n' = lossFunction n.
Proof.
  induction m as [|m IH]; intros n grad r k Hlen [Hsound Hchain] Hcached Hgrad.
  { exists grad, n. split; [done|]. split; [done|]. split; [done|].
    split; [done|]. split; [done|]. split; [constructor | done]. }
  destruct (lookup_lt_is_Some_2 (layers n) m) as [l Hl]; [lia|].
  assert (Hd : (dimsOf <$> layers n) !! m = Some (dimsOf l))
    by by rewrite list_lookup_fmap, Hl.
  destruct (chained_at _ _ _ _ Hchain Hd) as [Hcols Hrows]. cbn in Hcols, Hrows.
  destruct (Forall_lookup_1 _ _ _ _ Hsound Hl) as [Hwf [type Hact]].
  destruct (Forall_lookup_1 _ _ _ _ Hcached Hl) as (x & z & Hx & Hz & Hxs & Hzs).
  rewrite Hrows in Hgrad.
  destruct (layer_backward_run l type x z grad r Hact Hwf Hx Hz Hxs Hzs Hgrad)
    as (g1 & wGrad & bGrad & Hrun1 & Hg1 & HwGrad & HbGrad).
  set (l2 := LayerM.setBiasGrad (Some bGrad)
               (LayerM.setWeightGrad (Some wGrad) l)) in Hrun1.
  set (n1 := {| layers := <[m := l2]> (layers n);
                lossFunction := lossFunction n |}).
  assert (Hdims1 : dimsOf <$> layers n1 = dimsOf <$> layers n)
    by by apply (dims_insert _ _ l).
  destruct (IH n1 g1 r k) as (g & n' & Hrun & Hg & Hdims & Hsound' & Hdrop
                              & Hgraded & Hloss).
  { cbn. rewrite length_insert. lia. }
  { split; [|by rewrite Hdims1]. apply Forall_insert; [done|].
    split; [done | by exists type]. }
  { apply Forall_insert; [done|]. by exists x, z. }
  { by rewrite Hdims1, <- Hcols. }
  exists g, n'. split.
  { rewrite seq_S, reverse_snoc, Nat.add_0_l. cbn [NetworkM.backwardFrom].
    cbv [mbind method_bind]. by rewrite (atLayer_run _ _ _ _ _ _ Hl Hrun1). }
  rewrite Hdims1 in Hdims.
  assert (Hm : layers n' !! m = Some l2).
  { rewrite <- (Nat.add_0_r m), <- lookup_drop, Hdrop, lookup_drop.
    rewrite Nat.add_0_r. cbn. apply list_lookup_insert_eq. lia. }
  split; [done|]. split; [done|]. split; [done|]. split; [|split; [|done]].
  - apply (f_equal (drop 1)) in Hdrop. rewrite !drop_drop in Hdrop.
    replace (m + 1) with (S m) in Hdrop by lia. rewrite Hdrop. cbn.
    by rewrite drop_insert_lt by lia.
  - rewrite (take_S_r _ _ _ Hm). apply Forall_app. split; [done|].
    apply Forall_singleton. by exists wGrad, bGrad.
Qed.

Lemma updateAll_run (idx : list nat) (lr : number) :
  ∀ n : Network,
    Forall (fun i => i < length (layers n)) idx →
    Forall sound (layers n) → Forall graded (layers n) →
    ∃ n',
      forEach (fun i => NetworkM.atLayer i (LayerM.updateWeights lr)) idx n
      = (Ok (), n')
      ∧ dimsOf <$> layers n' = dimsOf <$> layers n
      ∧ Forall sound (layers n')
      ∧ lossFunction n' = lossFunction n.
Proof.
  induction idx as [|i idx IH]; intros n Hidx Hsound Hgraded;
    [by exists n|].
  apply Forall_cons in Hidx as [Hi Hidx].
  destruct (lookup_lt_is_Some_2 (layers n) i Hi) as [l Hl].
  destruct (Forall_lookup_1 _ _ _ _ Hsound Hl) as [Hwf [type Hact]].
  destruct (Forall_lookup_1 _ _ _ _ Hgraded Hl)
    as (wGrad & bGrad & HwGrad & HbGrad & Hshape & Hblen).
  destruct (layer_update_run l lr Hwf)
    as (l' & Hrun1 & Hwf' & Hd & Hact' & Hw' & Hb').
  { intros w Hw. rewrite HwGrad in Hw. by injection Hw as <-. }
  set (n1 := {| layers := <[i := l']> (layers n);
                lossFunction := lossFunction n |}).
  assert (Hdims1 : dimsOf <$> layers n1 = dimsOf <$> layers n)
    by by apply (dims_insert _ _ l).
  destruct (IH n1) as (n' & Hrun & Hdims & Hsound' & Hloss).
  { cbn. by rewrite length_insert. }
  { apply Forall_insert; [done|]. split; [done|]. exists type. congruence. }
  { apply Forall_insert; [done|]. exists wGrad, bGrad.
    injection Hd as -> ->. by rewrite Hw', Hb'. }
  exists n'. split.
  { cbn [forEach]. cbv [mbind method_bind].
    by rewrite (atLayer_run _ _ _ _ _ _ Hl Hrun1). }
  by rewrite Hdims1 in Hdims.
Qed.

(** *** The loss of predictions with the shape of the targets *)

Lemma foldlM_total {A B} (f : A → B → res A) (xs : list B) (acc : A) :
  (∀ a x, x ∈ xs → ∃ a', f a x = Ok a') → ∃ a', foldlM f acc xs = Ok a'.
Proof.
  revert acc. induction xs as [|x xs IH]; intros acc Hf; [by exists acc|].
  cbn [foldlM]. destruct (Hf acc x (list_elem_of_here _ _)) as [a' ->].
  cbn. apply IH. intros a y Hy. apply Hf. by apply list_elem_of_further.
Qed.

Lemma at2_total (t : Tensor) (i j : nat) :
  i < length (data t) → ∃ a, at2 (data t) i j = Ok a.
Proof.
  intros Hi. unfold at2.
  destruct (lookup_lt_is_Some_2 (data t) i Hi) as [row ->]. by eexists.
Qed.

Lemma shaped_zipWith (f : number → number → number) (r c : nat)
    (predictions targets : Tensor) :
  shaped r c predictions → shaped r c targets →
  ∃ d, zipWithTensor f (data predictions) (data targets) = Ok d
       ∧ shaped r c {| data := d; rows := rows predictions;
                       cols := cols predictions |}.
Proof.
  intros ([Hpr Hpc] & Hr & Hc) ([Htr Htc] & Hr' & Hc').
  rewrite zipWithTensor_ok by lia. eexists. split; [done|].
  split; [|done]. split; cbn; [by rewrite length_imap|].
  apply Forall_forall. intros row Hrow.
  apply elem_of_lookup_imap in Hrow as (i & row0 & -> & Hrow0).
  rewrite length_imap. rewrite Forall_forall in Hpc. apply Hpc.
  by eapply list_elem_of_lookup_2.
Qed.

Lemma loss_run (type : string) (predictions targets : Tensor) (r c : nat) :
  shaped r c predictions → shaped r c targets →
  ∃ loss grad,
    compute (Losses.getLoss type) predictions targets = Ok loss
    ∧ gradient (Losses.getLoss type) predictions targets = Ok grad
    ∧ shaped r c grad.
Proof.
  intros Hp Ht.
  pose proof Hp as ([Hpr Hpc] & Hr & Hc). pose proof Ht as ([Htr Htc] & Hr' & Hc').
  assert (Hmse : ∃ loss grad,
             Losses.mseCompute predictions targets = Ok loss
             ∧ Losses.mseGradient predictions targets = Ok grad
             ∧ shaped r c grad).
  { destruct (foldlM_total (Losses.mseStep predictions targets)
                (indices (rows predictions) (cols predictions)) (Fin 0, 0))
      as [[sum count] Hfold].
    { intros a [i j] [Hi Hj]%MseFacts.elem_of_indices. unfold Losses.mseStep.
      cbn [fst snd]. destruct (at2_total predictions i j) as [p ->]; [lia|].
      destruct (at2_total targets i j) as [t ->]; [lia|]. cbn.
      destruct (_ && _); by eexists. }
    destruct (shaped_zipWith
                (fun val target =>
                   let grad := Fin 2 ⊗ (val ⊖ target)
                               ⊘ Num.ofNat (rows predictions * cols predictions) in
                   if Num.isFinite grad then grad else Fin 0)
                r c predictions targets Hp Ht) as (d & Hd & Hshape).
    unfold Losses.mseCompute, Losses.mseGradient. rewrite Hfold.
    cbv zeta in Hd. rewrite Hd. cbn. by do 2 eexists. }
  assert (Hce : ∃ loss grad,
             Losses.crossEntropyCompute predictions targets = Ok loss
             ∧ Losses.crossEntropyGradient predictions targets = Ok grad
             ∧ shaped r c grad).
  { destruct (foldlM_total (Losses.crossEntropyStep predictions targets)
                (indices (rows predictions) (cols predictions)) (Fin 0, 0))
      as [[sum count] Hfold].
    { intros a [i j] [Hi Hj]%MseFacts.elem_of_indices.
      unfold Losses.crossEntropyStep. cbn [fst snd].
      destruct (at2_total predictions i j) as [p ->]; [lia|]. cbn.
      destruct (negb _); [by eexists|].
      destruct (at2_total targets i j) as [t ->]; [lia|]. cbn.
      destruct (Num.isFinite _); by eexists. }
    destruct (shaped_zipWith
                (fun val target =>
                   let pred := Losses.clampPred val in
                   let grad := Num.neg (target ⊘ pred
                                        ⊖ (Fin 1 ⊖ target) ⊘ (Fin 1 ⊖ pred))
                               ⊘ Num.ofNat (rows predictions * cols predictions) in
                   if Num.isFinite grad
                   then Num.max (Fin (-10)) (Num.min (Fin 10) grad)
                   else Fin 0)
                r c predictions targets Hp Ht) as (d & Hd & Hshape).
    unfold Losses.crossEntropyCompute, Losses.crossEntropyGradient.
    rewrite Hfold. cbv zeta in Hd. rewrite Hd. cbn. by do 2 eexists. }
  unfold Losses.getLoss. repeat destruct (String.eqb _ _); done.
Qed.

(** *** Forward, backward and the epochs of [train] *)

Lemma forward_run (n : Network) (input : Tensor) (r k : nat) :
  trainable k n → shaped r k input →
  ∃ out n',
    NetworkM.forward input n = (Ok out, n')
    ∧ shaped r (outputsOf k (dimsOf <$> layers n)) out
    ∧ dimsOf <$> layers n' = dimsOf <$> layers n
    ∧ trainable k n'
    ∧ Forall (cached r) (layers n')
    ∧ lossFunction n' = lossFunction n.
Proof.
  intros Hn Hin.
  destruct (forwardFrom_run (length (layers n)) 0 n input r k)
    as (out & n' & Hrun & Hout & Hdims & Hsound & _ & Hcached & Hloss);
    [done | done | done |].
  exists out, n'. split; [done|]. split; [done|]. split; [done|].
  split; [|done]. split; [done|]. rewrite Hdims. apply Hn.
Qed.

Lemma backward_run (n : Network) (grad : Tensor) (r k : nat) :
  trainable k n → Forall (cached r) (layers n) →
  shaped r (outputsOf k (dimsOf <$> layers n)) grad →
  ∃ n',
    NetworkM.backward grad n = (Ok (), n')
    ∧ dimsOf <$> layers n' = dimsOf <$> layers n
    ∧ trainable k n'
    ∧ Forall graded (layers n')
    ∧ lossFunction n' = lossFunction n.
Proof.
  intros Hn Hcached Hgrad.
  destruct (backwardFrom_run (length (layers n)) n grad r k)
    as (g & n' & Hrun & Hg & Hdims & Hsound & _ & Hgraded & Hloss);
    [done | done | done | |].
  { rewrite take_ge; [done|]. by rewrite length_fmap. }
  exists n'. split.
  { unfold NetworkM.backward. run_method. by rewrite Hrun. }
  split; [done|]. split; [|split; [|done]].
  - split; [done|]. rewrite Hdims. apply Hn.
  - rewrite take_ge in Hgraded; [done|].
    apply (f_equal length) in Hdims. rewrite !length_fmap in Hdims. lia.
Qed.

Lemma trainEpochs_run (type : string) (x y : Tensor) (lr : number)
    (r k : nat) (epochs : nat) :
  ∀ (n : Network) (lossHistory : list number),
    trainable k n → lossFunction n = Losses.getLoss type →
    shaped r k x → shaped r (outputsOf k (dimsOf <$> layers n)) y →
    ∃ losses n',
      NetworkM.trainEpochs x y epochs lr lossHistory n = (Ok losses, n')
      ∧ length losses = length lossHistory + epochs
      ∧ lossHistory `prefix_of` losses
      ∧ dimsOf <$> layers n' = dimsOf <$> layers n
      ∧ trainable k n'.
Proof.
  induction epochs as [|epochs IH]; intros n lossHistory Hn Hloss Hx Hy.
  { exists lossHistory, n. split; [done|]. split; [lia|]. done. }
  destruct (forward_run n x r k Hn Hx)
    as (predictions & n1 & Hrun1 & Hp & Hdims1 & Hn1 & Hcached1 & Hloss1).
  destruct (loss_run type predictions y _ _ Hp Hy)
    as (loss & grad & Hcompute & Hgradient & Hgrad).
  rewrite <- Hdims1 in Hgrad.
  destruct (backward_run n1 grad r k Hn1 Hcached1 Hgrad)
    as (n2 & Hrun2 & Hdims2 & Hn2 & Hgraded2 & Hloss2).
  destruct (updateAll_run (seq 0 (length (layers n2))) lr n2)
    as (n3 & Hrun3 & Hdims3 & Hsound3 & Hloss3).
  { apply Forall_forall. intros i Hi%elem_of_seq. lia. }
  { apply Hn2. }
  { done. }
  assert (Hn3 : trainable k n3).
  { split; [done|]. rewrite Hdims3. apply Hn2. }
  destruct (IH n3 (lossHistory ++ [loss]))
    as (losses & n' & Hrun & Hlen & Hprefix & Hdims & Hn'); [done| |done| |].
  { congruence. }
  { by rewrite Hdims3, Hdims2, Hdims1. }
  exists losses, n'. split.
  { cbn [NetworkM.trainEpochs]. cbv [mbind method_bind]. rewrite Hrun1.
    cbv [this try]. rewrite Hloss1, Hloss, Hcompute, Hgradient, Hrun2.
    unfold NetworkM.updateAll. cbv [mbind method_bind this].
    by rewrite Hrun3. }
  split; [rewrite Hlen, length_app; cbn; lia|].
  split; [by etrans; [apply prefix_app_r|]|].
  split; [by rewrite Hdims, Hdims3, Hdims2, Hdims1 | done].
Qed.

(** X25: on a network of sound layers that fit together, [forward] returns
    for every well-formed input of [k] columns a well-formed output with
    the rows of the input and the outputs of the last layer; [backward],
    called then on a gradient of that shape, returns and leaves in every
    layer a weight gradient with the shape of its weights and a bias
    gradient with one entry per output. *)
Theorem forward_backward_shapes (n : Network) (input : Tensor) (r k : nat) :
  trainable k n → shaped r k input →
  ∃ out n1,
    NetworkM.forward input n = (Ok out, n1)
    ∧ shaped r (outputsOf k (dimsOf <$> layers n)) out
    ∧ dimsOf <$> layers n1 = dimsOf <$> layers n
    ∧ ∀ grad,
        shaped r (outputsOf k (dimsOf <$> layers n)) grad →
        ∃ n2,
          NetworkM.backward grad n1 = (Ok (), n2)
          ∧ dimsOf <$> layers n2 = dimsOf <$> layers n
          ∧ Forall graded (layers n2).
Proof.
  intros Hn Hin.
  destruct (forward_run n input r k Hn Hin)
    as (out & n1 & Hrun1 & Hout & Hdims1 & Hn1 & Hcached1 & Hloss1).
  exists out, n1. split; [done|]. split; [done|]. split; [done|].
  intros grad Hgrad. rewrite <- Hdims1 in Hgrad.
  destruct (backward_run n1 grad r k Hn1 Hcached1 Hgrad)
    as (n2 & Hrun2 & Hdims2 & Hn2 & Hgraded2 & Hloss2).
  exists n2. split; [done|]. split; [by rewrite Hdims2|done].
Qed.

Lemma twoLinear_trainable : trainable 1 NetworkSamples.twoLinear.
Proof.
  split; [|done].
  repeat constructor; by exists "linear".
Qed.

Lemma input_shaped : shaped 1 1 EngineSamples.input.
Proof. split; [split; [done | by repeat constructor] | done]. Qed.

Lemma target_shaped : shaped 1 1 EngineSamples.target.
Proof. split; [split; [done | by repeat constructor] | done]. Qed.

Lemma forward_backward_shapes_witness :
  ∃ out n1 n2,
    NetworkM.forward EngineSamples.input NetworkSamples.twoLinear
    = (Ok out, n1)
    ∧ shaped 1 1 out
    ∧ NetworkM.backward EngineSamples.target n1 = (Ok (), n2)
    ∧ Forall graded (layers n2).
Proof.
  destruct (forward_backward_shapes NetworkSamples.twoLinear
              EngineSamples.input 1 1 twoLinear_trainable input_shaped)
    as (out & n1 & Hrun1 & Hout & _ & Hback).
  destruct (Hback EngineSamples.target target_shaped)
    as (n2 & Hrun2 & _ & Hgraded).
  by exists out, n1, n2.
Defined.

(** X26: on a network of sound layers that fit together, with one of the
    losses of [getLoss], [train] returns for a well-formed input of [k]
    columns and well-formed targets with the shape of the output: it does
    not throw, gives one loss per epoch, and leaves a network whose layers
    have the shapes they had. *)
Theorem train_returns (n : Network) (type : string) (x y : Tensor)
    (epochs : nat) (learningRate : number) (r k : nat) :
  trainable k n → lossFunction n = Losses.getLoss type →
  shaped r k x → shaped r (outputsOf k (dimsOf <$> layers n)) y →
  ∃ losses n',
    NetworkM.train x y epochs learningRate n = (Ok losses, n')
    ∧ length losses = epochs
    ∧ dimsOf <$> layers n' = dimsOf <$> layers n
    ∧ trainable k n'.
Proof.
  intros Hn Hloss Hx Hy.
  destruct (trainEpochs_run type x y learningRate r k epochs n [] Hn Hloss
              Hx Hy) as (losses & n' & Hrun & Hlen & _ & Hdims & Hn').
  by exists losses, n'.
Qed.

Lemma train_returns_witness :
  ∃ losses n',
    NetworkM.train EngineSamples.input EngineSamples.target 3 (Fin (1 / 10))
      NetworkSamples.twoLinear = (Ok losses, n')
    ∧ length losses = 3.
Proof.
  destruct (train_returns NetworkSamples.twoLinear "mse" EngineSamples.input
              EngineSamples.target 3 (Fin (1 / 10)) 1 1 twoLinear_trainable
              eq_refl input_shaped target_shaped)
    as (losses & n' & Hrun & Hlen & _).
  by exists losses, n'.
Defined.

End TrainingFacts.
